(** * Staged (overlay) file system of codeformer: a shallow embedding

    The development follows [src/services/filesystem/staged/staged-file-system.ts]
    (class [StagedFileSystem]) and the part of [real-fs.ts] (class
    [RealFileSystem]) that the overlay calls.  JavaScript strings are [string],
    a [Map] is an insertion-ordered association list, a [Set] an
    insertion-ordered duplicate-free list, and a method is a computation in a
    state monad over the instance's fields whose outcome is a returned value
    or a thrown error.  The host ([node:fs], [node:path], [fast-glob], the
    UTF-8 codec of [Buffer]) is not code of the repository: [node:path] is
    modelled by the POSIX algorithms below and the rest is a record of
    oracles ([Host]). *)

From Stdlib Require Import String Ascii List Bool Arith Lia.
Import ListNotations.
Local Open Scope list_scope.
Local Open Scope string_scope.

Set Implicit Arguments.

(* ================================================================== *)
(** ** JavaScript strings *)

Module Js.

Definition chars (s : string) : list ascii := list_ascii_of_string s.
Definition str (cs : list ascii) : string := string_of_list_ascii cs.

(** [String.prototype.startsWith]. *)
Definition startsWith (s searchString : string) : bool :=
  String.prefix searchString s.

Definition isSlash (c : ascii) : bool := Ascii.eqb c "/"%char.

Fixpoint dropWhile {A} (f : A -> bool) (l : list A) : list A :=
  match l with
  | [] => []
  | x :: l' => if f x then dropWhile f l' else l
  end.

Fixpoint takeWhile {A} (f : A -> bool) (l : list A) : list A :=
  match l with
  | [] => []
  | x :: l' => if f x then x :: takeWhile f l' else []
  end.

(** [s.split('/')], on a list of characters: the maximal runs between
    separators, empty runs included. *)
Fixpoint splitSlash (cs : list ascii) : list (list ascii) :=
  match cs with
  | [] => [[]]
  | c :: cs' =>
      if isSlash c then [] :: splitSlash cs'
      else match splitSlash cs' with
           | [] => [[c]]
           | seg :: segs => (c :: seg) :: segs
           end
  end.

Definition split (s : string) : list string := map str (splitSlash (chars s)).

(** [segs.join('/')]. *)
Fixpoint join (segs : list string) : string :=
  match segs with
  | [] => ""
  | [x] => x
  | x :: rest => x ++ "/" ++ join rest
  end.

End Js.

(* ================================================================== *)
(** ** [node:path], POSIX flavour *)

Module path.

Import Js.

Definition sep : string := "/".

(** One step of [normalizeString]: the stack [acc] holds the segments kept
    so far, last one first. *)
Definition normalizeStep (allowAboveRoot : bool) (acc : list string) (seg : string)
  : list string :=
  if String.eqb seg "" then acc
  else if String.eqb seg "." then acc
  else if String.eqb seg ".." then
    match acc with
    | [] => if allowAboveRoot then [".."] else []
    | top :: below =>
        if String.eqb top ".." then (if allowAboveRoot then ".." :: acc else acc)
        else below
    end
  else seg :: acc.

Definition normalizeSegments (allowAboveRoot : bool) (segs : list string) : list string :=
  rev (fold_left (normalizeStep allowAboveRoot) segs []).

(** [normalizeString(path, allowAboveRoot, '/', isPosixPathSeparator)]. *)
Definition normalizeString (p : string) (allowAboveRoot : bool) : string :=
  join (normalizeSegments allowAboveRoot (split p)).

Definition isAbsolute (p : string) : bool := startsWith p "/".

Definition endsWithSlash (p : string) : bool :=
  match rev (chars p) with
  | c :: _ => isSlash c
  | [] => false
  end.

(** [path.normalize]. *)
Definition normalize (p : string) : string :=
  if String.eqb p "" then "."
  else
    let abs := isAbsolute p in
    let trailing := endsWithSlash p in
    let q := normalizeString p (negb abs) in
    if String.eqb q "" then
      (if abs then "/" else if trailing then "./" else ".")
    else
      let q' := if trailing then q ++ "/" else q in
      if abs then "/" ++ q' else q'.

(** [path.join(...args)]: the non-empty arguments joined by '/', then
    normalized. *)
Definition join (args : list string) : string :=
  let joined := Js.join (filter (fun a => negb (String.eqb a "")) args) in
  if String.eqb joined "" then "." else normalize joined.

(** The right-to-left loop of [path.resolve]: [args] are visited last one
    first, then the process working directory, until an absolute prefix
    is found. *)
Fixpoint resolveLoop (revArgs : list string) (resolvedPath : string)
  : string * bool :=
  match revArgs with
  | [] => (resolvedPath, false)
  | p :: more =>
      if String.eqb p "" then resolveLoop more resolvedPath
      else
        let resolvedPath' := p ++ "/" ++ resolvedPath in
        if isAbsolute p then (resolvedPath', true)
        else resolveLoop more resolvedPath'
  end.

(** [path.resolve(...args)]; [processCwd] is [process.cwd()]. *)
Definition resolve (processCwd : string) (args : list string) : string :=
  let '(resolvedPath, resolvedAbsolute) :=
    resolveLoop (rev args ++ [processCwd])%list "" in
  let normalized := normalizeString resolvedPath (negb resolvedAbsolute) in
  if resolvedAbsolute then "/" ++ normalized
  else if String.eqb normalized "" then "." else normalized.

(** [path.dirname]: trailing separators are skipped, then the last
    separator at an index of at least 1 ends the result. *)
Definition dirname (p : string) : string :=
  match chars p with
  | [] => "."
  | c0 :: rest =>
      let afterTrailing := dropWhile isSlash (rev rest) in
      let afterBase := dropWhile (fun c => negb (isSlash c)) afterTrailing in
      match afterBase with
      | [] => if isSlash c0 then "/" else "."
      | _ :: before =>
          match before with
          | [] => if isSlash c0 then "//" else str [c0]
          | _ => str (c0 :: rev before)
          end
      end
  end.

(** [path.basename] without a suffix. *)
Definition basename (p : string) : string :=
  let afterTrailing := dropWhile isSlash (rev (chars p)) in
  str (rev (takeWhile (fun c => negb (isSlash c)) afterTrailing)).

Fixpoint stripCommon (a b : list string) : list string * list string :=
  match a, b with
  | x :: a', y :: b' => if String.eqb x y then stripCommon a' b' else (a, b)
  | _, _ => (a, b)
  end.

(** [path.relative(from, to)].  Both arguments are resolved first, so the
    character scan of Node works on two normalized absolute paths; on
    those it computes one [".."] for every segment of [from] after the
    common leading segments, followed by the remaining segments of [to]. *)
Definition relative (processCwd : string) (from to : string) : string :=
  if String.eqb from to then ""
  else
    let from' := resolve processCwd [from] in
    let to' := resolve processCwd [to] in
    if String.eqb from' to' then ""
    else
      let '(fromRest, toRest) :=
        stripCommon (normalizeSegments false (split from'))
                    (normalizeSegments false (split to')) in
      Js.join (map (fun _ => "..") fromRest ++ toRest)%list.

End path.

(* ================================================================== *)
(** ** [Map] and [Set] *)

(** A JavaScript [Map] with string keys: entries in insertion order, one
    entry per key.  [set] on a present key replaces the value in place, on
    an absent key appends. *)
Module JsMap.

Definition t (V : Type) : Type := list (string * V).

Definition empty {V} : t V := [].

Fixpoint get {V} (m : t V) (k : string) : option V :=
  match m with
  | [] => None
  | (k', v) :: m' => if String.eqb k' k then Some v else get m' k
  end.

Definition has {V} (m : t V) (k : string) : bool :=
  match get m k with Some _ => true | None => false end.

Fixpoint set {V} (m : t V) (k : string) (v : V) : t V :=
  match m with
  | [] => [(k, v)]
  | (k', v') :: m' =>
      if String.eqb k' k then (k', v) :: m' else (k', v') :: set m' k v
  end.

Definition delete {V} (m : t V) (k : string) : t V :=
  filter (fun kv => negb (String.eqb (fst kv) k)) m.

Definition keys {V} (m : t V) : list string := map fst m.

End JsMap.

Module JsSet.

Definition t : Type := list string.

Definition empty : t := [].

Definition has (s : t) (x : string) : bool := existsb (String.eqb x) s.

Definition add (s : t) (x : string) : t := if has s x then s else (s ++ [x])%list.

Definition delete (s : t) (x : string) : t :=
  filter (fun y => negb (String.eqb y x)) s.

End JsSet.

(* ================================================================== *)
(** ** Errors ([errors.ts], [utils.ts]) *)

(** The [code] of a Node system error. *)
Inductive Errno : Type :=
| ENOENT | EACCES | EPERM | ENOTEMPTY | EEXIST | ENOTDIR | EISDIR.

Inductive FsError : Type :=
| NotFoundError (p : string)
| IllegalOperationOnDirectoryError (p : string)
| DirectoryNotEmptyError (p : string)
| PermissionDeniedError (p : string)
| AlreadyExistsError (p : string)
| PlainError (message : string)          (* [new Error(message)] *)
| SystemError (code : Errno).            (* a Node error, thrown on unchanged *)

(** [mapFsError(err, path)] for an error that carries a [code]. *)
Definition mapFsError (code : Errno) (p : string) : FsError :=
  match code with
  | ENOENT => NotFoundError p
  | EACCES | EPERM => PermissionDeniedError p
  | ENOTEMPTY => DirectoryNotEmptyError p
  | EEXIST => AlreadyExistsError p
  | _ => SystemError code
  end.

(* ================================================================== *)
(** ** The host *)

Definition Buffer : Type := list Byte.byte.

(** [fs.Dirent] as far as [readDirSync] reads it. *)
Record Dirent : Type := { dirent_name : string; dirent_isDirectory : bool }.

(** An entry of [FastGlob.sync] in object mode ([stats: true]): [name] is
    the last part of the path, [path] the full path (absolute here, because
    of [absolute: true]). *)
Record GlobEntry : Type := { glob_name : string; glob_path : string }.

Record Host : Type := {
  (** [process.cwd()] *)
  process_cwd : string;
  (** [nodeFs.accessSync(p)]: [None] when it returns *)
  nodeFs_accessSync : string -> option Errno;
  (** [nodeFs.readFileSync(p)] *)
  nodeFs_readFileSync : string -> Errno + Buffer;
  (** [nodeFs.readdirSync(p, { withFileTypes: true })] *)
  nodeFs_readdirSync : string -> Errno + list Dirent;
  (** [FastGlob.sync('**', { ignore, cwd, stats: true, absolute: true })],
      as a function of [ignore] and [cwd] *)
  fastGlobSync : list string -> string -> Errno + list GlobEntry;
  (** [Buffer.from(s, 'utf8')] and [buf.toString('utf8')] *)
  Buffer_from : string -> Buffer;
  Buffer_toString : Buffer -> string
}.

(* ================================================================== *)
(** ** The instance and its methods *)

Inductive StagedContent : Type :=
| Content (data : Buffer)
| STAGED_FILE_SYSTEM_DIRECTORY_SYMBOL.

(** [StagedFsMoveOperation]; its [type] field is the constant ['move']. *)
Record StagedFsMoveOperation : Type := { srcPath : string; destPath : string }.

Record DirEntry : Type := {
  entry_name : string;
  entry_path : string;
  entry_isDirectory : bool
}.

Record StagedFileSystem : Type := {
  moveOperations : list StagedFsMoveOperation;
  stagedPathToContentMap : JsMap.t StagedContent;
  movedPathToOriginalPathMap : JsMap.t string;
  deletedOriginalPaths : JsSet.t;
  workingDir : string;
  ignoredGlobs : list string
}.

(** How a call ends: it returns, it throws, or (the [while] loop of
    [mkdirSync]) it is cut off. *)
Inductive Outcome (A : Type) : Type :=
| Return (a : A)
| Throw (e : FsError)
| OutOfFuel.

Arguments Return {A} a.
Arguments Throw {A} e.
Arguments OutOfFuel {A}.

(** A method body: the fields it leaves behind are part of the result also
    when it throws, since a caller may catch the error and go on. *)
Definition M (A : Type) : Type := StagedFileSystem -> Outcome A * StagedFileSystem.

Definition ret {A} (a : A) : M A := fun s => (Return a, s).

Definition throw {A} (e : FsError) : M A := fun s => (Throw e, s).

Definition bind {A B} (c : M A) (k : A -> M B) : M B :=
  fun s =>
    match c s with
    | (Return a, s') => k a s'
    | (Throw e, s') => (Throw e, s')
    | (OutOfFuel, s') => (OutOfFuel, s')
    end.

Definition this : M StagedFileSystem := fun s => (Return s, s).

Definition assign (f : StagedFileSystem -> StagedFileSystem) : M unit :=
  fun s => (Return tt, f s).

Declare Scope js_scope.
Delimit Scope js_scope with js.
Notation "x <- c ;; k" := (bind c (fun x => k))
  (at level 100, c at next level, right associativity) : js_scope.
Notation "c ;;; k" := (bind c (fun _ => k))
  (at level 100, right associativity) : js_scope.
Local Open Scope js_scope.

(** [for (const x of xs) body(x)]. *)
Fixpoint forOf {A} (xs : list A) (body : A -> M unit) : M unit :=
  match xs with
  | [] => ret tt
  | x :: xs' => body x ;;; forOf xs' body
  end.

(** Field updates. *)
Definition with_moveOperations (v : list StagedFsMoveOperation) (s : StagedFileSystem) :=
  {| moveOperations := v;
     stagedPathToContentMap := stagedPathToContentMap s;
     movedPathToOriginalPathMap := movedPathToOriginalPathMap s;
     deletedOriginalPaths := deletedOriginalPaths s;
     workingDir := workingDir s;
     ignoredGlobs := ignoredGlobs s |}.

Definition with_stagedPathToContentMap (v : JsMap.t StagedContent) (s : StagedFileSystem) :=
  {| moveOperations := moveOperations s;
     stagedPathToContentMap := v;
     movedPathToOriginalPathMap := movedPathToOriginalPathMap s;
     deletedOriginalPaths := deletedOriginalPaths s;
     workingDir := workingDir s;
     ignoredGlobs := ignoredGlobs s |}.

Definition with_movedPathToOriginalPathMap (v : JsMap.t string) (s : StagedFileSystem) :=
  {| moveOperations := moveOperations s;
     stagedPathToContentMap := stagedPathToContentMap s;
     movedPathToOriginalPathMap := v;
     deletedOriginalPaths := deletedOriginalPaths s;
     workingDir := workingDir s;
     ignoredGlobs := ignoredGlobs s |}.

Definition with_deletedOriginalPaths (v : JsSet.t) (s : StagedFileSystem) :=
  {| moveOperations := moveOperations s;
     stagedPathToContentMap := stagedPathToContentMap s;
     movedPathToOriginalPathMap := movedPathToOriginalPathMap s;
     deletedOriginalPaths := v;
     workingDir := workingDir s;
     ignoredGlobs := ignoredGlobs s |}.

(** [new StagedFileSystem({ cwd, ignoredGlobs })]; an absent option is
    [None]. *)
Definition constructor (processCwd : string)
  (cwd : option string) (ignored : option (list string)) : StagedFileSystem :=
  {| moveOperations := [];
     stagedPathToContentMap := JsMap.empty;
     movedPathToOriginalPathMap := JsMap.empty;
     deletedOriginalPaths := JsSet.empty;
     workingDir := match cwd with Some d => d | None => processCwd end;
     ignoredGlobs := match ignored with Some g => g | None => [] end |}.

Definition outOfWorkingDirectory : string :=
  "Cannot resolve path outside of working directory: ".

(* ------------------------------------------------------------------ *)
(** *** [RealFileSystem], as [StagedFileSystem] uses it

    The overlay constructs it with [{ cwd: this.workingDir }], so [cwd] below
    is [this.cwd()]. *)

Module RealFileSystem.
Section WithHost.

Variable host : Host.

Definition resolvePath (cwd filePath : string) : FsError + string :=
  let resolvedPath := path.resolve (process_cwd host) [cwd; filePath] in
  if negb (Js.startsWith resolvedPath cwd) then
    inl (PermissionDeniedError (outOfWorkingDirectory ++ resolvedPath))
  else inr resolvedPath.

(** [ENOENT] is [false]; any other error goes through [mapFsError], which
    throws an error without a [code] on unchanged. *)
Definition existsSync (cwd p : string) : FsError + bool :=
  match resolvePath cwd p with
  | inl e => inl e
  | inr resolved =>
      match nodeFs_accessSync host resolved with
      | None => inr true
      | Some ENOENT => inr false
      | Some code => inl (mapFsError code p)
      end
  end.

Definition readBufferSync (cwd filePath : string) : FsError + Buffer :=
  match resolvePath cwd filePath with
  | inl e => inl e
  | inr resolved =>
      match nodeFs_readFileSync host resolved with
      | inr data => inr data
      | inl code => inl (mapFsError code filePath)
      end
  end.

Definition readDirSync (cwd dirPath : string) : FsError + list DirEntry :=
  match resolvePath cwd dirPath with
  | inl e => inl e
  | inr resolvedPath =>
      match nodeFs_readdirSync host resolvedPath with
      | inr entries =>
          inr (map (fun entry =>
                      {| entry_name := dirent_name entry;
                         entry_path := path.join [resolvedPath; dirent_name entry];
                         entry_isDirectory := dirent_isDirectory entry |})
                   entries)
      | inl code => inl (mapFsError code dirPath)
      end
  end.

End WithHost.
End RealFileSystem.

(* ------------------------------------------------------------------ *)
(** *** [StagedFileSystem] *)

Section Methods.

Variable host : Host.

(** A call into [this.realFs]. *)
Definition realFs {A} (call : string -> FsError + A) : M A :=
  fun s => match call (workingDir s) with
           | inr a => (Return a, s)
           | inl e => (Throw e, s)
           end.

Definition resolvePath (filePath : string) : M string :=
  fs <- this ;;
  let resolvedPath := path.resolve (process_cwd host) [workingDir fs; filePath] in
  (* Check if file path is outside of working directory *)
  if negb (Js.startsWith resolvedPath (workingDir fs)) then
    throw (PlainError (outOfWorkingDirectory ++ filePath))
  else ret resolvedPath.

Definition resolveOriginalPath (stagedPath : string) : M string :=
  resolvedPath <- resolvePath stagedPath ;;
  fs <- this ;;
  ret (match JsMap.get (movedPathToOriginalPathMap fs) resolvedPath with
       | Some original => original
       | None => resolvedPath
       end).

Definition isPathDeleted (fs : StagedFileSystem) (stagedPath : string) : bool :=
  let originalPath :=
    match JsMap.get (movedPathToOriginalPathMap fs) stagedPath with
    | Some original => original
    | None => stagedPath
    end in
  JsSet.has (deletedOriginalPaths fs) originalPath.

Definition listFilesInStagedDir (fs : StagedFileSystem) (dirPath : string)
  : list DirEntry :=
  map (fun '(stagedPath, content) =>
         {| entry_name := path.basename stagedPath;
            entry_path := stagedPath;
            entry_isDirectory :=
              match content with
              | STAGED_FILE_SYSTEM_DIRECTORY_SYMBOL => true
              | Content _ => false
              end |})
      (filter (fun '(stagedPath, _) => String.eqb (path.dirname stagedPath) dirPath)
              (stagedPathToContentMap fs)).

Fixpoint rewriteLoop (entries : list (string * string)) (originalPath : string)
  : string :=
  match entries with
  | [] => originalPath
  | (movedPath, originalPathEntry) :: more =>
      if String.eqb originalPath originalPathEntry then movedPath
      else rewriteLoop more originalPath
  end.

Definition rewriteOriginalPathToMovedPath (fs : StagedFileSystem)
  (originalPath : string) : string :=
  rewriteLoop (movedPathToOriginalPathMap fs) originalPath.

Definition mergeDirectoryEntries (fs : StagedFileSystem) (dirPath : string)
  (realEntries : list DirEntry) : list DirEntry :=
  let stagedEntries := listFilesInStagedDir fs dirPath in
  (map (fun entry =>
          {| entry_name := entry_name entry;
             entry_path := rewriteOriginalPathToMovedPath fs (entry_path entry);
             entry_isDirectory := entry_isDirectory entry |})
       (filter (fun entry =>
                  negb (existsb (fun stagedEntry =>
                                   String.eqb (entry_name stagedEntry) (entry_name entry))
                                stagedEntries)
                  && negb (isPathDeleted fs (entry_path entry)))
               realEntries)
   ++ stagedEntries)%list.

Definition existsStaged (fs : StagedFileSystem) (resolvedPath originalPath : string)
  : bool :=
  if JsSet.has (deletedOriginalPaths fs) originalPath then false
  else JsMap.has (stagedPathToContentMap fs) resolvedPath.

Definition existsSync (p : string) : M bool :=
  originalPath <- resolveOriginalPath p ;;
  resolvedPath <- resolvePath p ;;
  fs <- this ;;
  (* Check if the file is explicitly deleted *)
  if JsSet.has (deletedOriginalPaths fs) originalPath then ret false
  (* Check if it exists in staged content *)
  else if JsMap.has (stagedPathToContentMap fs) resolvedPath then ret true
  else realFs (fun cwd => RealFileSystem.existsSync host cwd originalPath).

(** [try { ... } catch (error) { if (!(error instanceof NotFoundError))
    throw error; }] around a computation whose value defaults to
    [fallback]. *)
Definition orIfNotFound {A} (fallback : A) (c : M A) : M A :=
  fun s => match c s with
           | (Throw (NotFoundError _), s') => (Return fallback, s')
           | r => r
           end.

Definition readDirSync (dirPath : string) : M (list DirEntry) :=
  found <- existsSync dirPath ;;
  if negb found then throw (NotFoundError dirPath)
  else
    realEntries <- orIfNotFound []
      (originalPath <- resolveOriginalPath dirPath ;;
       realFs (fun cwd => RealFileSystem.readDirSync host cwd originalPath)) ;;
    fs <- this ;;
    ret (mergeDirectoryEntries fs dirPath realEntries).

Definition stage (p : string) (content : StagedContent) : M unit :=
  assign (fun fs =>
    with_stagedPathToContentMap (JsMap.set (stagedPathToContentMap fs) p content) fs).

(** The [while] loop of [mkdirSync]; [fuel] bounds the number of
    iterations. *)
Fixpoint mkdirLoop (fuel : nat) (dirname : string) : M unit :=
  match fuel with
  | O => fun s => (OutOfFuel, s)
  | S fuel' =>
      fs <- this ;;
      if String.eqb dirname (workingDir fs) then ret tt
      else
        found <- existsSync dirname ;;
        if found then ret tt
        else
          stage dirname STAGED_FILE_SYSTEM_DIRECTORY_SYMBOL ;;;
          mkdirLoop fuel' (path.dirname dirname)
  end.

(** [path.dirname] shortens a string of two characters or more and maps a
    shorter one to ["/"] or ["."], which it leaves alone; [length + 2]
    iterations take the loop to such a directory and once more round. *)
Definition mkdirSync (dirPath : string) : M unit :=
  (* recursively create directories *)
  dirname <- resolvePath dirPath ;;
  mkdirLoop (String.length dirname + 2) dirname.

Definition rmSync (targetPath : string) : M unit :=
  originalPath <- resolveOriginalPath targetPath ;;
  resolved <- resolvePath targetPath ;;
  assign (fun fs =>
    with_stagedPathToContentMap (JsMap.delete (stagedPathToContentMap fs) resolved) fs) ;;;
  assign (fun fs =>
    with_deletedOriginalPaths (JsSet.add (deletedOriginalPaths fs) originalPath) fs).

(** The test of [renameMapKeys]:
    [key.startsWith(oldBasePath + path.sep) || key === oldBasePath]. *)
Definition isNestedPath (oldBasePath key : string) : bool :=
  Js.startsWith key (oldBasePath ++ path.sep) || String.eqb key oldBasePath.

(** Its [newKey]. *)
Definition renamedKey (oldBasePath newBasePath key : string) : string :=
  path.join [newBasePath; path.relative (process_cwd host) oldBasePath key].

(** [renameMapKeys] of [updateNestedPathMappings]: the loop runs over a
    copy of the entries taken before the first change. *)
Definition renameMapKeys {V} (oldBasePath newBasePath : string) (map : JsMap.t V)
  : JsMap.t V :=
  let entries := map in
  fold_left
    (fun map '(key, value) =>
       if isNestedPath oldBasePath key then
         JsMap.set (JsMap.delete map key)
                   (renamedKey oldBasePath newBasePath key) value
       else map)
    entries map.

Definition updateNestedPathMappings (oldBasePath newBasePath : string) : M unit :=
  assign (fun fs =>
    with_movedPathToOriginalPathMap
      (renameMapKeys oldBasePath newBasePath (movedPathToOriginalPathMap fs)) fs) ;;;
  assign (fun fs =>
    with_stagedPathToContentMap
      (renameMapKeys oldBasePath newBasePath (stagedPathToContentMap fs)) fs).

Definition executeMoveOperation (srcPath destPath : string) : M unit :=
  (* Update all nested paths (for directories and their contents) *)
  updateNestedPathMappings srcPath destPath.

(** The call of [FastGlob.sync] in [moveSync]; a Node error it raises is
    not caught. *)
Definition FastGlob_sync (cwd : string) : M (list GlobEntry) :=
  fs <- this ;;
  match fastGlobSync host (ignoredGlobs fs) cwd with
  | inr paths => ret paths
  | inl code => throw (SystemError code)
  end.

Definition moveSync (srcPath destPath : string) : M unit :=
  resolvedSrcPath <- resolvePath srcPath ;;
  resolvedDestPath <- resolvePath destPath ;;
  srcFound <- existsSync resolvedSrcPath ;;
  if negb srcFound then throw (NotFoundError resolvedSrcPath)
  else
    parentFound <- existsSync (path.dirname resolvedDestPath) ;;
    if negb parentFound then throw (NotFoundError (path.dirname resolvedDestPath))
    else
      (* Make sure we track all paths inside the source path *)
      originalSrcPath <- resolveOriginalPath resolvedSrcPath ;;
      paths <- FastGlob_sync originalSrcPath ;;
      forOf paths (fun pathEntry =>
        assign (fun fs =>
          with_movedPathToOriginalPathMap
            (JsMap.set (movedPathToOriginalPathMap fs)
                       (path.join [resolvedDestPath; glob_name pathEntry])
                       (glob_path pathEntry)) fs)) ;;;
      (* Queue the move operation for later execution *)
      assign (fun fs =>
        with_moveOperations
          (moveOperations fs ++ [{| srcPath := resolvedSrcPath;
                                    destPath := resolvedDestPath |}])%list fs) ;;;
      (* Also apply the move to the staged filesystem immediately *)
      executeMoveOperation resolvedSrcPath resolvedDestPath.

Definition readBufferStaged (resolvedPath : string) : M (option Buffer) :=
  fs <- this ;;
  match JsMap.get (stagedPathToContentMap fs) resolvedPath with
  | Some STAGED_FILE_SYSTEM_DIRECTORY_SYMBOL =>
      throw (IllegalOperationOnDirectoryError resolvedPath)
  | Some (Content data) => ret (Some data)
  | None => ret None
  end.

Definition readBufferSync (filePath : string) : M Buffer :=
  resolvedPath <- resolvePath filePath ;;
  content <- readBufferStaged resolvedPath ;;
  match content with
  | Some data => ret data
  | None =>
      realPath <- resolveOriginalPath resolvedPath ;;
      realFs (fun cwd => RealFileSystem.readBufferSync host cwd realPath)
  end.

Definition readFileSync (filePath : string) : M string :=
  content <- readBufferSync filePath ;;
  ret (Buffer_toString host content).

Definition writeBufferSync (filePath : string) (data : Buffer) : M unit :=
  (* Remove any original path that may have been deleted *)
  originalPath <- resolveOriginalPath filePath ;;
  assign (fun fs =>
    with_deletedOriginalPaths (JsSet.delete (deletedOriginalPaths fs) originalPath) fs) ;;;
  mkdirSync (path.dirname filePath) ;;;
  resolved <- resolvePath filePath ;;
  stage resolved (Content data).

Definition writeFileSync (filePath : string) (content : string) : M unit :=
  writeBufferSync filePath (Buffer_from host content).

Definition copySync (srcPath destPath : string) : M unit :=
  content <- readBufferSync srcPath ;;
  writeBufferSync destPath content.

(** What a getter hands to its caller: the very object a field holds, so
    that the caller sees every later [push], [set] and [delete] on it (the
    class never assigns these fields again), or an array made for the
    occasion. *)
Inductive Handle (A : Type) : Type :=
| FieldObject (field : StagedFileSystem -> A)
| NewArray (elements : A).

Arguments FieldObject {A} field.
Arguments NewArray {A} elements.

(** What the holder of a handle reads through it once the instance is in
    state [fs]. *)
Definition deref {A} (h : Handle A) (fs : StagedFileSystem) : A :=
  match h with
  | FieldObject field => field fs
  | NewArray elements => elements
  end.

(** [return this.moveOperations]. *)
Definition getMoveOperations : M (Handle (list StagedFsMoveOperation)) :=
  ret (FieldObject moveOperations).



(** One call of a mutating method by the transformation code. *)
Inductive Call : Type :=
| mkdir (dirPath : string)
| rm (targetPath : string)
| move (srcPath destPath : string)
| copy (srcPath destPath : string)
| writeFile (filePath content : string)
| writeBuffer (filePath : string) (data : Buffer).

(** The asynchronous methods run their synchronous twin and resolve. *)
Definition perform (c : Call) : M unit :=
  match c with
  | mkdir dirPath => mkdirSync dirPath
  | rm targetPath => rmSync targetPath
  | move src dest => moveSync src dest
  | copy src dest => copySync src dest
  | writeFile filePath content => writeFileSync filePath content
  | writeBuffer filePath data => writeBufferSync filePath data
  end.

(** A run of calls; a caller that catches what one call throws goes on
    with the fields as that call left them. *)
Fixpoint performAll (cs : list Call) (fs : StagedFileSystem) : StagedFileSystem :=
  match cs with
  | [] => fs
  | c :: cs' => performAll cs' (snd (perform c fs))
  end.

End Methods.

(* ------------------------------------------------------------------ *)
(** *** [globSync]

    [micromatch.isMatch(str, patterns)] is not code of the repository: it
    is a parameter, which answers or throws (as it does for a malformed
    pattern; the overlay does not catch that). *)

Section Glob.

Variable host : Host.
Variable micromatch_isMatch : string -> list string -> FsError + bool.

(** [Array.isArray(patterns) ? patterns : [patterns]]. *)
Definition patternArray (patterns : string + list string) : list string :=
  match patterns with
  | inl pattern => [pattern]
  | inr array => array
  end.

(** The [for] loop of [collectAndFilter] over the entries of one directory;
    [recurse] is the closure itself, and the array [matchedFiles] it pushes
    to is threaded through. *)
Fixpoint forEntries (recurse : string -> list string -> M (list string))
  (patternArray : list string) (entries : list DirEntry) (matchedFiles : list string)
  : M (list string) :=
  match entries with
  | [] => ret matchedFiles
  | entry :: more =>
      if entry_isDirectory entry then
        matchedFiles' <- recurse (entry_path entry) matchedFiles ;;
        forEntries recurse patternArray more matchedFiles'
      else
        fs <- this ;;
        let relativePath :=
          path.relative (process_cwd host) (workingDir fs) (entry_path entry) in
        (* Skip if file should be ignored *)
        ignored <-
          (if Nat.ltb 0 (List.length (ignoredGlobs fs)) then
             match micromatch_isMatch relativePath (ignoredGlobs fs) with
             | inr b => ret b
             | inl e => throw e
             end
           else ret false) ;;
        if ignored then forEntries recurse patternArray more matchedFiles
        else
          (* Add file if it matches any pattern *)
          match micromatch_isMatch relativePath patternArray with
          | inr true =>
              forEntries recurse patternArray more (matchedFiles ++ [entry_path entry])%list
          | inr false => forEntries recurse patternArray more matchedFiles
          | inl e => throw e
          end
  end.

(** [collectAndFilter]; [fuel] bounds the depth of the recursion. *)
Fixpoint collectAndFilter (fuel : nat) (patternArray : list string) (dirPath : string)
  (matchedFiles : list string) : M (list string) :=
  match fuel with
  | O => fun s => (OutOfFuel, s)
  | S fuel' =>
      entries <- readDirSync host dirPath ;;
      forEntries (collectAndFilter fuel' patternArray) patternArray entries matchedFiles
  end.

Definition globSync (fuel : nat) (patterns : string + list string) : M (list string) :=
  fs <- this ;;
  collectAndFilter fuel (patternArray patterns) (workingDir fs) [].

End Glob.

(* ------------------------------------------------------------------ *)
(** *** The diff and what is done with it

    [format-staged-diff.ts], [apply-staged-file-system-diff.ts] and
    [enhance-error-with-context.ts].  A string is kept as the bytes of its
    UTF-8 encoding. *)

(** [StagedFileSystemDiff], as the two functions read it. *)
Module Diff.

Record StagedFileSystemDiff : Type := {
  originalPathMoveOperations : list StagedFsMoveOperation;
  deletedOriginalPaths : list string;
  stagedContentMap : JsMap.t StagedContent
}.

End Diff.

Record FormattedDiffResult : Type := {
  totalChanges : nat;
  formattedLines : list string
}.

(** [array.push(x)]. *)
Definition push {A} (array : list A) (x : A) : list A := (array ++ [x])%list.

Definition formatStagedDiff (diff : Diff.StagedFileSystemDiff) : FormattedDiffResult :=
  let formattedLines : list string := [] in
  let totalChanges :=
    List.length (Diff.originalPathMoveOperations diff)
    + List.length (Diff.deletedOriginalPaths diff)
    + List.length (Diff.stagedContentMap diff) in
  if Nat.eqb totalChanges 0 then
    {| totalChanges := totalChanges; formattedLines := formattedLines |}
  else
    (* Show deleted files *)
    let formattedLines :=
      fold_left (fun lines deletedPath => push lines ("  🗑️  Delete: " ++ deletedPath))
                (Diff.deletedOriginalPaths diff) formattedLines in
    (* Show move operations *)
    let formattedLines :=
      fold_left (fun lines moveOp =>
                   push lines ("  📝 Move: " ++ srcPath moveOp ++ " → " ++ destPath moveOp))
                (Diff.originalPathMoveOperations diff) formattedLines in
    (* Show written/created files and directories *)
    let formattedLines :=
      fold_left (fun lines '(stagedPath, content) =>
                   match content with
                   | STAGED_FILE_SYSTEM_DIRECTORY_SYMBOL =>
                       push lines ("  📁 Create directory: " ++ stagedPath)
                   | Content _ => push lines ("  📄 Write file: " ++ stagedPath)
                   end)
                (Diff.stagedContentMap diff) formattedLines in
    {| totalChanges := totalChanges; formattedLines := formattedLines |}.

(** A value that is thrown: an [Error] with its [message], [stack] and
    [cause], or anything else, of which [String(value)] is kept. *)
#[warnings="-register-all"] Inductive JsValue : Type :=
| ErrorObject (message stack : string) (cause : option JsValue)
| NotAnError (asString : string).

(** The calls into [node:fs/promises]. *)
Inductive FsCall : Type :=
| fs_rm (target : string)                    (* [{ recursive: true, force: true }] *)
| fs_rename (oldPath newPath : string)
| fs_mkdir (target : string)                 (* [{ recursive: true }] *)
| fs_writeFile (file : string) (data : Buffer).

Section Apply.

(** The stack that the engine gives [new Error(message)] at the one place
    where [enhanceErrorWithContext] makes one. *)
Variable newStack : string -> string.

Definition enhanceErrorWithContext (originalError : JsValue) (contextMessage : string)
  : JsValue :=
  (* Create a new error with combined message *)
  let message :=
    contextMessage ++ ": " ++
    match originalError with
    | ErrorObject message _ _ => message
    | NotAnError asString => asString
    end in
  (* Preserve the original stack if possible *)
  let stack :=
    match originalError with
    | ErrorObject _ stack _ => stack
    | NotAnError _ => newStack message
    end in
  ErrorObject message stack (Some originalError).

(** The real file system: a call leaves it in a new state and resolves, or
    rejects with a value. *)
Variable World : Type.
Variable nodeFs : FsCall -> World -> option JsValue * World.

(** The sign of [a.localeCompare(b)], and [Array.prototype.toSorted]. *)
Variable localeCompare : string -> string -> comparison.
Variable toSorted :
  (string * StagedContent -> string * StagedContent -> comparison) ->
  list (string * StagedContent) -> list (string * StagedContent).

(** A promise that has settled: [None] when it resolved. *)
Definition Settled : Type := World -> option JsValue * World.

(** [try { await call } catch (err) { throw enhanceErrorWithContext(err,
    context) }]. *)
Definition tryAwait (call : FsCall) (context : string) : Settled :=
  fun w =>
    match nodeFs call w with
    | (None, w') => (None, w')
    | (Some err, w') => (Some (enhanceErrorWithContext err context), w')
    end.

(** [for (const x of xs) { body }] in an [async] function. *)
Fixpoint forAwait {A} (xs : list A) (body : A -> Settled) : Settled :=
  match xs with
  | [] => fun w => (None, w)
  | x :: xs' =>
      fun w =>
        match body x w with
        | (None, w') => forAwait xs' body w'
        | rejected => rejected
        end
  end.

Definition andThen (first next : Settled) : Settled :=
  fun w =>
    match first w with
    | (None, w') => next w'
    | rejected => rejected
    end.

Definition applyStagedFileSystemDiff (diff : Diff.StagedFileSystemDiff) : Settled :=
  (* Step 1: Delete files and directories *)
  andThen
    (forAwait (Diff.deletedOriginalPaths diff) (fun deletedPath =>
       tryAwait (fs_rm deletedPath) ("Failed to delete path: " ++ deletedPath)))
  (* Step 2: Apply move operations sequentially *)
  (andThen
    (forAwait (Diff.originalPathMoveOperations diff) (fun moveOp =>
       tryAwait (fs_rename (srcPath moveOp) (destPath moveOp))
         ("Failed to move path from " ++ srcPath moveOp ++ " to " ++ destPath moveOp)))
  (* Step 3: Write staged content (files and directories) *)
    (let stagedContentFiles :=
       toSorted (fun a b => localeCompare (fst a) (fst b)) (Diff.stagedContentMap diff) in
     forAwait stagedContentFiles (fun '(stagedPath, content) =>
       match content with
       | STAGED_FILE_SYSTEM_DIRECTORY_SYMBOL =>
           (* Create directory *)
           tryAwait (fs_mkdir stagedPath) ("Failed to create directory: " ++ stagedPath)
       | Content data =>
           (* Write the file content *)
           tryAwait (fs_writeFile stagedPath data) ("Failed to write file: " ++ stagedPath)
       end))).

End Apply.


(* ================================================================== *)
(** ** A host over a fixed disk

    The overlay never writes to the disk, so one table of absolute paths
    stands for it during a whole run.  The table is used for the worked
    examples; the general statements below hold for every [Host]. *)

Inductive DiskNode : Type :=
| RegularFile (data : Buffer)
| Directory.

Definition Disk : Type := JsMap.t DiskNode.

Definition utf8 (s : string) : Buffer := list_byte_of_string s.

(** The part of [p] after [cwd ++ "/"], when [p] lies below [cwd]. *)
Definition below (cwd p : string) : option string :=
  if Js.startsWith p (cwd ++ "/") then
    Some (substring (String.length cwd + 1) (String.length p) p)
  else None.

Definition isDotSegment (seg : string) : bool := Js.startsWith seg ".".

(** [FastGlob.sync('**', { cwd, stats: true, absolute: true, ignore })] over
    the table: files only ([onlyFiles] defaults to [true]), at any depth, no
    dot segments ([dot] defaults to [false]), the ignored ones left out.  A
    missing [cwd] gives no entry (only [ENOENT] is suppressed), a [cwd] that
    is a file fails with [ENOTDIR]. *)
Definition diskGlob (isIgnored : list string -> string -> bool) (disk : Disk)
  (ignore : list string) (cwd : string) : Errno + list GlobEntry :=
  match JsMap.get disk cwd with
  | None => inr []
  | Some (RegularFile _) => inl ENOTDIR
  | Some Directory =>
      inr (flat_map
             (fun '(p, node) =>
                match node, below cwd p with
                | RegularFile _, Some rel =>
                    if existsb isDotSegment (Js.split rel) || isIgnored ignore rel
                    then []
                    else [{| glob_name := path.basename p; glob_path := p |}]
                | _, _ => []
                end)
             disk)
  end.

Definition diskReaddir (disk : Disk) (dir : string) : Errno + list Dirent :=
  match JsMap.get disk dir with
  | None => inl ENOENT
  | Some (RegularFile _) => inl ENOTDIR
  | Some Directory =>
      inr (flat_map
             (fun '(p, node) =>
                if String.eqb (path.dirname p) dir && negb (String.eqb p dir) then
                  [{| dirent_name := path.basename p;
                      dirent_isDirectory :=
                        match node with Directory => true | RegularFile _ => false end |}]
                else [])
             disk)
  end.

Definition diskHost (processCwd : string) (isIgnored : list string -> string -> bool)
  (disk : Disk) : Host :=
  {| process_cwd := processCwd;
     nodeFs_accessSync p :=
       match JsMap.get disk p with Some _ => None | None => Some ENOENT end;
     nodeFs_readFileSync p :=
       match JsMap.get disk p with
       | Some (RegularFile data) => inr data
       | Some Directory => inl EISDIR
       | None => inl ENOENT
       end;
     nodeFs_readdirSync := diskReaddir disk;
     fastGlobSync := diskGlob isIgnored disk;
     Buffer_from := list_byte_of_string;
     Buffer_toString := string_of_list_byte |}.

Definition nothingIgnored (_ : list string) (_ : string) : bool := false.

(** Running a method and what it leaves. *)
Definition outcome {A} (r : Outcome A * StagedFileSystem) : Outcome A := fst r.
Definition after {A} (r : Outcome A * StagedFileSystem) : StagedFileSystem := snd r.

(** The fixture of [staged-file-system.unit.test.ts]. *)
Module Fixture.

Definition testDir : string := "/tmp".

Definition disk : Disk :=
  [ ("/tmp", Directory);
    ("/tmp/existing-file.txt", RegularFile (utf8 "existing content"));
    ("/tmp/existing-dir", Directory);
    ("/tmp/existing-dir/nested-file.txt", RegularFile (utf8 "nested content")) ].

Definition host : Host := diskHost "/home/user" nothingIgnored disk.

Definition stagedFs : StagedFileSystem := constructor "/home/user" (Some testDir) None.

End Fixture.


(** A working directory with a real directory two levels deep. *)
Module Nested.

Definition disk : Disk :=
  [ ("/w", Directory);
    ("/w/a", Directory);
    ("/w/a/y.txt", RegularFile (utf8 "why"));
    ("/w/a/sub", Directory);
    ("/w/a/sub/x.txt", RegularFile (utf8 "ex")) ].

Definition host : Host := diskHost "/home/user" nothingIgnored disk.

Definition stagedFs : StagedFileSystem := constructor "/home/user" (Some "/w") None.

End Nested.

(** A working directory [/work] next to a directory [/workspace]. *)
Module Sibling.

Definition disk : Disk :=
  [ ("/work", Directory);
    ("/workspace", Directory);
    ("/workspace/secret.txt", RegularFile (utf8 "secret")) ].

Definition host : Host := diskHost "/home/user" nothingIgnored disk.

Definition stagedFs : StagedFileSystem := constructor "/home/user" (Some "/work") None.

End Sibling.

(* ================================================================== *)
(** ** Notions used by the statements *)

(** The path [resolvePath] computes for [filePath]. *)
Definition resolved (host : Host) (fs : StagedFileSystem) (filePath : string) : string :=
  path.resolve (process_cwd host) [workingDir fs; filePath].

(** The original path a staged key stands for ([movedPathToOriginalPathMap.get(p) ?? p]). *)
Definition originalPathOf (fs : StagedFileSystem) (p : string) : string :=
  match JsMap.get (movedPathToOriginalPathMap fs) p with
  | Some original => original
  | None => p
  end.


Definition isMove (c : Call) : bool :=
  match c with move _ _ => true | _ => false end.

(** [existsSync p] can be answered: [p] resolves inside the working
    directory and the real file system answers for its original path with
    a yes or a no. *)
Definition canProbe (host : Host) (fs : StagedFileSystem) (p : string) : bool :=
  match resolveOriginalPath host p fs with
  | (Return originalPath, _) =>
      match RealFileSystem.existsSync host (workingDir fs) originalPath with
      | inr _ => true
      | inl _ => false
      end
  | _ => false
  end.

(** The [n]-th ancestor of a path, by [path.dirname]. *)
Definition ancestor (n : nat) (p : string) : string := Nat.iter n path.dirname p.

(** [fs'] differs from [fs] in the staged-content map at most. *)
Definition SameButStaged (fs fs' : StagedFileSystem) : Prop :=
  moveOperations fs' = moveOperations fs
  /\ movedPathToOriginalPathMap fs' = movedPathToOriginalPathMap fs
  /\ deletedOriginalPaths fs' = deletedOriginalPaths fs
  /\ workingDir fs' = workingDir fs
  /\ ignoredGlobs fs' = ignoredGlobs fs.

(** [map'] is [map] with directory markers put on some keys. *)
Definition OnlyMarkersAdded (map map' : JsMap.t StagedContent) : Prop :=
  forall k,
    JsMap.get map' k = JsMap.get map k
    \/ JsMap.get map' k = Some STAGED_FILE_SYSTEM_DIRECTORY_SYMBOL.

(** A segment that [normalizeString] keeps as it is: not empty, not ["."],
    not [".."], and without a separator. *)
Definition cleanSegment (seg : string) : bool :=
  negb (String.eqb seg "") && negb (String.eqb seg ".") && negb (String.eqb seg "..")
  && forallb (fun c => negb (Js.isSlash c)) (Js.chars seg).

Definition slashFree (cs : list ascii) : bool :=
  forallb (fun c => negb (Js.isSlash c)) cs.

(** The absolute path made of the given segments. *)
Definition absolutePath (segs : list string) : string := "/" ++ Js.join segs.

(** The state [moveSync] is in once it has registered a binding for every
    entry that [FastGlob.sync] found. *)
Definition bindAll (resolvedDestPath : string) (paths : list GlobEntry)
  (fs : StagedFileSystem) : StagedFileSystem :=
  fold_left
    (fun fs pathEntry =>
       with_movedPathToOriginalPathMap
         (JsMap.set (movedPathToOriginalPathMap fs)
                    (path.join [resolvedDestPath; glob_name pathEntry])
                    (glob_path pathEntry)) fs)
    paths fs.

(** The loop of [renameMapKeys], over what is left of the copied entries. *)
Definition renameLoop {V} (host : Host) (oldBasePath newBasePath : string)
  (entries : list (string * V)) (map : JsMap.t V) : JsMap.t V :=
  fold_left
    (fun map '(key, value) =>
       if isNestedPath oldBasePath key then
         JsMap.set (JsMap.delete map key)
                   (renamedKey host oldBasePath newBasePath key) value
       else map)
    entries map.

(** [map'] keeps the entry of [map] at every key that is neither under
    [oldBasePath] nor the new place of a key that is. *)
Definition KeptOutside {V} (host : Host) (oldBasePath newBasePath : string)
  (map map' : JsMap.t V) : Prop :=
  forall x,
    isNestedPath oldBasePath x = false ->
    (forall k, In k (JsMap.keys map) -> isNestedPath oldBasePath k = true ->
               renamedKey host oldBasePath newBasePath k <> x) ->
    JsMap.get map' x = JsMap.get map x.

(** No rewritten key of [map] is under [oldBasePath] again, and no two
    keys are rewritten to the same key. *)
Definition RewritesApart {V} (host : Host) (oldBasePath newBasePath : string)
  (map : JsMap.t V) : Prop :=
  NoDup (JsMap.keys map)
  /\ (forall k, In k (JsMap.keys map) -> isNestedPath oldBasePath k = true ->
                isNestedPath oldBasePath (renamedKey host oldBasePath newBasePath k) = false)
  /\ (forall k k', In k (JsMap.keys map) -> In k' (JsMap.keys map) ->
                   isNestedPath oldBasePath k = true ->
                   isNestedPath oldBasePath k' = true ->
                   renamedKey host oldBasePath newBasePath k
                   = renamedKey host oldBasePath newBasePath k' -> k = k').

(** [map'] holds the value of every key of [map] under [oldBasePath] at
    the rewritten key, and nothing at the key itself. *)
Definition MovedInside {V} (host : Host) (oldBasePath newBasePath : string)
  (map map' : JsMap.t V) : Prop :=
  forall k v,
    JsMap.get map k = Some v -> isNestedPath oldBasePath k = true ->
    JsMap.get map' (renamedKey host oldBasePath newBasePath k) = Some v
    /\ JsMap.get map' k = None.

(** A working directory in which sibling names share a prefix. *)
Module Dirs.

Definition disk : Disk := [ ("/a", Directory) ].

Definition host : Host := diskHost "/home/user" nothingIgnored disk.

Definition stagedFs : StagedFileSystem :=
  performAll host
    [ mkdir "/a/dir1"; writeFile "/a/dir1/f.txt" "one";
      mkdir "/a/dir10"; writeFile "/a/dir10/g.txt" "ten" ]
    (constructor "/home/user" (Some "/a") None).

(** Two files written side by side. *)
Definition twoFiles : StagedFileSystem :=
  performAll host
    [ writeFile "/a/x" "1"; writeFile "/a/y" "2" ]
    (constructor "/home/user" (Some "/a") None).

End Dirs.

(** What a call into [this.realFs] gives the method that makes it. *)
Definition fromReal {A} (r : FsError + A) : Outcome A :=
  match r with
  | inr a => Return a
  | inl e => Throw e
  end.

(** A path that [globSync] may hand out: its path relative to the working
    directory matches one of the patterns and, where there are ignored
    globs, none of those. *)
Definition globAccepts (host : Host)
  (micromatch_isMatch : string -> list string -> FsError + bool)
  (fs : StagedFileSystem) (patternArray : list string) (file : string) : Prop :=
  let relativePath := path.relative (process_cwd host) (workingDir fs) file in
  micromatch_isMatch relativePath patternArray = inr true
  /\ (ignoredGlobs fs = []
      \/ micromatch_isMatch relativePath (ignoredGlobs fs) = inr false).

(** Every key of a map is an absolute path. *)
Definition KeysAbsolute {V} (map : JsMap.t V) : Prop :=
  forall k, In k (JsMap.keys map) -> path.isAbsolute k = true.


(** A stand-in for [micromatch.isMatch] that knows the patterns of the unit
    tests ([**/*], [**/*.txt], [**/*.js]) and takes any other pattern for a
    literal path. *)
Module Micromatch.

Definition endsWith (s searchString : string) : bool :=
  Js.startsWith (Js.str (rev (Js.chars s))) (Js.str (rev (Js.chars searchString))).

Definition matchesOne (str pattern : string) : bool :=
  if String.eqb pattern "**/*" then true
  else if String.eqb pattern "**/*.txt" then endsWith str ".txt"
  else if String.eqb pattern "**/*.js" then endsWith str ".js"
  else String.eqb pattern str.

Definition isMatch (str : string) (patterns : list string) : FsError + bool :=
  inr (existsb (matchesOne str) patterns).

End Micromatch.

(** The file structure that the glob tests set up. *)
Module GlobFixture.

Definition stagedFs (ignored : option (list string)) : StagedFileSystem :=
  performAll Fixture.host
    [ writeFile "/tmp/file1.txt" "content1";
      writeFile "/tmp/file2.js" "content2";
      mkdir "/tmp/subdir";
      writeFile "/tmp/subdir/file3.txt" "content3";
      writeFile "/tmp/subdir/file4.js" "content4" ]
    (constructor "/home/user" (Some Fixture.testDir) ignored).

End GlobFixture.

(** The lines of [formatStagedDiff], one per change. *)
Definition deleteLine (deletedPath : string) : string :=
  "  🗑️  Delete: " ++ deletedPath.

Definition moveLine (moveOp : StagedFsMoveOperation) : string :=
  "  📝 Move: " ++ srcPath moveOp ++ " → " ++ destPath moveOp.

Definition stagedLine (entry : string * StagedContent) : string :=
  match snd entry with
  | STAGED_FILE_SYSTEM_DIRECTORY_SYMBOL => "  📁 Create directory: " ++ fst entry
  | Content _ => "  📄 Write file: " ++ fst entry
  end.

(** The calls that [applyStagedFileSystemDiff] is to make, in their order,
    each with the context it gives to a failure. *)
Definition plannedCalls (localeCompare : string -> string -> comparison)
  (toSorted : (string * StagedContent -> string * StagedContent -> comparison) ->
              list (string * StagedContent) -> list (string * StagedContent))
  (diff : Diff.StagedFileSystemDiff) : list (FsCall * string) :=
  let deletions :=
    map (fun deletedPath =>
           (fs_rm deletedPath, "Failed to delete path: " ++ deletedPath))
        (Diff.deletedOriginalPaths diff) in
  let moves :=
    map (fun moveOp =>
           (fs_rename (srcPath moveOp) (destPath moveOp),
            "Failed to move path from " ++ srcPath moveOp ++ " to " ++ destPath moveOp))
        (Diff.originalPathMoveOperations diff) in
  let writes :=
    map (fun entry =>
           match snd entry with
           | STAGED_FILE_SYSTEM_DIRECTORY_SYMBOL =>
               (fs_mkdir (fst entry), "Failed to create directory: " ++ fst entry)
           | Content data =>
               (fs_writeFile (fst entry) data, "Failed to write file: " ++ fst entry)
           end)
        (toSorted (fun a b => localeCompare (fst a) (fst b))
                  (Diff.stagedContentMap diff)) in
  (deletions ++ moves ++ writes)%list.

(** The real file system after the given calls, made one after the other. *)
Definition worldAfter {World} (nodeFs : FsCall -> World -> option JsValue * World)
  (calls : list FsCall) (w : World) : World :=
  fold_left (fun w call => snd (nodeFs call w)) calls w.

(** A real file system that only keeps a log of the calls made, and on which
    [rename] fails. *)
Module Logged.

Definition World : Type := list FsCall.

Definition ENOENT_rename : JsValue :=
  ErrorObject "ENOENT: no such file or directory, rename" "Error: ENOENT" None.

Definition nodeFs (renameFails : bool) (call : FsCall) (w : World)
  : option JsValue * World :=
  (match call with
   | fs_rename _ _ => if renameFails then Some ENOENT_rename else None
   | _ => None
   end, (w ++ [call])%list).

(** Insertion sort: a stable [toSorted]. *)
Fixpoint insert {A} (cmp : A -> A -> comparison) (x : A) (sorted : list A) : list A :=
  match sorted with
  | [] => [x]
  | y :: rest =>
      match cmp x y with
      | Lt => x :: sorted
      | _ => y :: insert cmp x rest
      end
  end.

Definition toSorted {A} (cmp : A -> A -> comparison) (l : list A) : list A :=
  fold_left (fun sorted x => insert cmp x sorted) l [].

Definition localeCompare (a b : string) : comparison := String.compare a b.

Definition newStack (message : string) : string := "Error: " ++ message.

(** The diff of the test [should format mixed operations]. *)
Definition mixed : Diff.StagedFileSystemDiff :=
  {| Diff.originalPathMoveOperations :=
       [ {| srcPath := "/tmp/old.txt"; destPath := "/tmp/moved.txt" |} ];
     Diff.deletedOriginalPaths := [ "/tmp/deleted.txt" ];
     Diff.stagedContentMap :=
       [ ("/tmp/newfile.txt", Content (utf8 "content"));
         ("/tmp/newdir", STAGED_FILE_SYSTEM_DIRECTORY_SYMBOL) ] |}.

End Logged.

(** The directories that the search of [globSync] comes to from [start]:
    [start] itself, and on from every directory entry of the listing of a
    directory it comes to. *)
Inductive ReachesFrom (host : Host) (fs : StagedFileSystem) : string -> string -> Prop :=
| reaches_start start : ReachesFrom host fs start start
| reaches_below start entries entry dirPath :
    outcome (readDirSync host start fs) = Return entries ->
    In entry entries ->
    entry_isDirectory entry = true ->
    ReachesFrom host fs (entry_path entry) dirPath ->
    ReachesFrom host fs start dirPath.

(* ================================================================== *)
(** * Properties *)

Local Open Scope js_scope.
Unset Implicit Arguments.

(** ** Maps and sets *)

Section MapFacts.

Context {V : Type}.
Implicit Types (m : JsMap.t V) (k : string) (v : V).

Lemma get_set_same m k v : JsMap.get (JsMap.set m k v) k = Some v.
Proof.
  induction m as [|[k' v'] m IH]; simpl.
  - now rewrite String.eqb_refl.
  - destruct (String.eqb k' k) eqn:E; simpl; rewrite E; auto.
Qed.

Lemma get_set_other m k k' v :
  k <> k' -> JsMap.get (JsMap.set m k v) k' = JsMap.get m k'.
Proof.
  intros Hne. induction m as [|[k0 v0] m IH]; simpl.
  - destruct (String.eqb k k') eqn:E; auto.
    apply String.eqb_eq in E. contradiction.
  - destruct (String.eqb k0 k) eqn:E; simpl.
    + apply String.eqb_eq in E. subst k0.
      destruct (String.eqb k k') eqn:E'; auto.
      apply String.eqb_eq in E'. contradiction.
    + now rewrite IH.
Qed.

Lemma get_delete_same m k : JsMap.get (JsMap.delete m k) k = None.
Proof.
  induction m as [|[k' v'] m IH]; simpl; auto.
  destruct (String.eqb k' k) eqn:E; simpl; auto.
  now rewrite E.
Qed.

Lemma get_delete_other m k k' :
  k <> k' -> JsMap.get (JsMap.delete m k) k' = JsMap.get m k'.
Proof.
  intros Hne. induction m as [|[k0 v0] m IH]; simpl; auto.
  destruct (String.eqb k0 k) eqn:E; simpl.
  - apply String.eqb_eq in E. subst k0.
    destruct (String.eqb k k') eqn:E'; auto.
    apply String.eqb_eq in E'. contradiction.
  - now rewrite IH.
Qed.

Lemma has_set_same m k v : JsMap.has (JsMap.set m k v) k = true.
Proof. unfold JsMap.has. now rewrite get_set_same. Qed.

Lemma has_set_mono m k k' v :
  JsMap.has m k' = true -> JsMap.has (JsMap.set m k v) k' = true.
Proof.
  unfold JsMap.has. destruct (string_dec k k') as [->|Hne].
  - now rewrite get_set_same.
  - now rewrite get_set_other.
Qed.

End MapFacts.

Lemma set_has_add_same s x : JsSet.has (JsSet.add s x) x = true.
Proof.
  unfold JsSet.add. destruct (JsSet.has s x) eqn:E; auto.
  unfold JsSet.has. rewrite existsb_app. simpl.
  rewrite String.eqb_refl. apply orb_true_iff. right. reflexivity.
Qed.

Lemma set_has_add_mono s x y :
  JsSet.has s y = true -> JsSet.has (JsSet.add s x) y = true.
Proof.
  intros H. unfold JsSet.add. destruct (JsSet.has s x); auto.
  unfold JsSet.has in *. rewrite existsb_app, H. reflexivity.
Qed.

Lemma set_has_add_other s x y :
  x <> y -> JsSet.has (JsSet.add s x) y = JsSet.has s y.
Proof.
  intros Hne. unfold JsSet.add. destruct (JsSet.has s x); auto.
  unfold JsSet.has. rewrite existsb_app. simpl.
  destruct (String.eqb y x) eqn:E.
  - apply String.eqb_eq in E. congruence.
  - now rewrite !orb_false_r.
Qed.

Lemma set_has_delete_same s x : JsSet.has (JsSet.delete s x) x = false.
Proof.
  unfold JsSet.has, JsSet.delete. induction s as [|y s IH]; simpl; auto.
  destruct (String.eqb y x) eqn:E; simpl; auto.
  rewrite String.eqb_sym, E. exact IH.
Qed.

Lemma set_has_delete_false s x y :
  JsSet.has s y = false -> JsSet.has (JsSet.delete s x) y = false.
Proof.
  unfold JsSet.has, JsSet.delete. induction s as [|z s IH]; simpl; auto.
  intros H. apply orb_false_iff in H. destruct H as [H1 H2].
  destruct (String.eqb z x); simpl; auto.
  now rewrite H1, IH.
Qed.

(** ** [node:path] *)

Lemma startsWith_append s t : Js.startsWith (s ++ t) s = true.
Proof.
  unfold Js.startsWith. induction s as [|c s IH]; simpl.
  - destruct t; reflexivity.
  - destruct (ascii_dec c c) as [_|N]; [exact IH|contradiction].
Qed.


Lemma prefix_append_cancel s a b : String.prefix (s ++ a) (s ++ b) = String.prefix a b.
Proof.
  induction s as [|c s IH]; simpl; auto.
  destruct (ascii_dec c c) as [_|N]; [exact IH|contradiction].
Qed.

Lemma length_append s t : String.length (s ++ t) = String.length s + String.length t.
Proof. induction s as [|c s IH]; simpl; auto. Qed.

Lemma append_nonempty_neq s c t : s ++ String c t <> s.
Proof.
  intros H. apply (f_equal String.length) in H.
  rewrite length_append in H. simpl in H. lia.
Qed.

(** *** [path.dirname] *)

Lemma length_chars s : List.length (Js.chars s) = String.length s.
Proof. induction s as [|c s IH]; simpl; auto. Qed.

Lemma length_str cs : String.length (Js.str cs) = List.length cs.
Proof. induction cs as [|c cs IH]; simpl; auto. Qed.

Lemma dropWhile_length {A} (f : A -> bool) l :
  List.length (Js.dropWhile f l) <= List.length l.
Proof. induction l as [|x l IH]; simpl; auto. destruct (f x); simpl; lia. Qed.

Lemma dropWhile_head {A} (f : A -> bool) l x t :
  Js.dropWhile f l = x :: t -> f x = false.
Proof.
  induction l as [|y l IH]; simpl; [discriminate|].
  destruct (f y) eqn:E; auto. intros H. inversion H. subst. exact E.
Qed.

(** When something is left after the two scans of [path.dirname], the
    string had two characters at least. *)
Lemma dropWhile_shorter {A} (f : A -> bool) l x t :
  Js.dropWhile f l <> [ ] ->
  Js.dropWhile (fun y => negb (f y)) (Js.dropWhile f l) = x :: t ->
  2 <= List.length l.
Proof.
  intros Hne Ht.
  pose proof (dropWhile_length f l) as Hl.
  destruct (Js.dropWhile f l) as [|y l'] eqn:El; [contradiction|].
  pose proof (dropWhile_head f l y l' El) as Hy.
  simpl in Ht. rewrite Hy in Ht. simpl in Ht.
  pose proof (dropWhile_length (fun y => negb (f y)) l') as Hl'.
  rewrite Ht in Hl'. simpl in Hl, Hl'. lia.
Qed.

(** [path.dirname] shortens every string of two characters or more. *)
Lemma dirname_shorter p :
  2 <= String.length p -> String.length (path.dirname p) < String.length p.
Proof.
  rewrite <- (length_chars p). unfold path.dirname.
  destruct (Js.chars p) as [|c0 rest] eqn:Ep; [simpl; lia|].
  cbn [List.length]. intros Hlen.
  pose proof (dropWhile_length Js.isSlash (rev rest)) as H1.
  pose proof (dropWhile_length (fun c => negb (Js.isSlash c))
                (Js.dropWhile Js.isSlash (rev rest))) as H2.
  rewrite length_rev in H1.
  destruct (Js.dropWhile (fun c => negb (Js.isSlash c))
              (Js.dropWhile Js.isSlash (rev rest))) as [|x before] eqn:Eb.
  - destruct (Js.isSlash c0); simpl; lia.
  - destruct before as [|b before'].
    + destruct (Js.isSlash c0); [|simpl; lia].
      enough (2 <= List.length (rev rest)) by (rewrite length_rev in *; simpl; lia).
      apply (dropWhile_shorter Js.isSlash (rev rest) x [ ]).
      * intros E. rewrite E in Eb. simpl in Eb. discriminate.
      * exact Eb.
    + rewrite length_str. cbn [List.length] in *.
      rewrite length_rev. cbn [List.length]. lia.
Qed.

(** On a string of at most one character it yields ["/"] or ["."], which
    it maps to themselves. *)
Lemma dirname_short_fixed p :
  String.length p <= 1 -> path.dirname (path.dirname p) = path.dirname p.
Proof.
  destruct p as [|c [|c' p]]; cbn [String.length]; intros H; [reflexivity| |lia].
  assert (E : path.dirname (String c "") = if Js.isSlash c then "/" else ".")
    by reflexivity.
  rewrite E. destruct (Js.isSlash c); reflexivity.
Qed.

Lemma ancestor_succ n p : ancestor (S n) p = ancestor n (path.dirname p).
Proof. unfold ancestor. induction n as [|n IH]; simpl in *; congruence. Qed.

Lemma ancestor_fixed n p : path.dirname p = p -> ancestor n p = p.
Proof. intros H. unfold ancestor. induction n as [|n IH]; simpl; congruence. Qed.

(** Whatever is an ancestor of [p] is one within [length p + 1] steps. *)
Lemma ancestor_bound n p w :
  ancestor n p = w ->
  exists n', n' <= n /\ n' <= String.length p + 1 /\ ancestor n' p = w.
Proof.
  revert p. induction n as [|n IH]; intros p H.
  - exists 0. repeat split; auto; lia.
  - rewrite ancestor_succ in H.
    destruct (le_lt_dec (String.length p) 1) as [Hshort|Hlong].
    + exists 1. repeat split; try lia.
      rewrite ancestor_succ. simpl.
      rewrite ancestor_fixed in H by (now apply dirname_short_fixed).
      exact H.
    + destruct (IH _ H) as (n' & Hle & Hlen & Hn').
      pose proof (dirname_shorter p) as Hs.
      exists (S n'). repeat split; try lia.
      now rewrite ancestor_succ.
Qed.

(** *** Resolved paths *)

Lemma chars_str cs : Js.chars (Js.str cs) = cs.
Proof. apply list_ascii_of_string_of_list_ascii. Qed.

Lemma str_chars s : Js.str (Js.chars s) = s.
Proof. apply string_of_list_ascii_of_string. Qed.

Lemma chars_append s t : Js.chars (s ++ t) = (Js.chars s ++ Js.chars t)%list.
Proof. induction s as [|c s IH]; simpl; [reflexivity|]. now rewrite <- IH. Qed.

Lemma splitSlash_run cs rest :
  slashFree cs = true ->
  Js.splitSlash (cs ++ "/"%char :: rest) = cs :: Js.splitSlash rest.
Proof.
  induction cs as [|c cs IH]; simpl; intros H; [reflexivity|].
  apply andb_true_iff in H. destruct H as [Hc Hcs].
  apply negb_true_iff in Hc. rewrite Hc, (IH Hcs). reflexivity.
Qed.

Lemma splitSlash_slashFree cs : Forall (fun seg => slashFree seg = true) (Js.splitSlash cs).
Proof.
  induction cs as [|c cs IH]; simpl.
  - repeat constructor.
  - destruct (Js.isSlash c) eqn:Ec.
    + constructor; [reflexivity|exact IH].
    + destruct (Js.splitSlash cs) as [|seg segs]; [repeat constructor; simpl; now rewrite Ec|].
      inversion IH; subst. constructor; auto. simpl. now rewrite Ec.
Qed.

Lemma cleanSegment_step acc seg :
  cleanSegment seg = true -> path.normalizeStep false acc seg = seg :: acc.
Proof.
  unfold cleanSegment, path.normalizeStep. intros H.
  repeat (apply andb_true_iff in H; destruct H as [H ?]).
  apply negb_true_iff in H. rewrite H.
  repeat match goal with E : negb _ = true |- _ => apply negb_true_iff in E; rewrite E end.
  reflexivity.
Qed.

(** The segments [normalizeString] keeps, when it may not climb above the
    root, are clean. *)
Lemma normalizeStep_clean acc seg :
  slashFree (Js.chars seg) = true ->
  forallb cleanSegment acc = true ->
  forallb cleanSegment (path.normalizeStep false acc seg) = true.
Proof.
  intros Hseg Hacc. unfold path.normalizeStep.
  destruct (String.eqb seg "") eqn:E1; [exact Hacc|].
  destruct (String.eqb seg ".") eqn:E2; [exact Hacc|].
  destruct (String.eqb seg "..") eqn:E3.
  - destruct acc as [|top below]; [reflexivity|].
    destruct (String.eqb top ".."); [exact Hacc|].
    simpl in Hacc. apply andb_true_iff in Hacc. tauto.
  - simpl. rewrite Hacc. unfold cleanSegment. rewrite E1, E2, E3.
    unfold slashFree in Hseg. now rewrite Hseg.
Qed.

Lemma normalizeFold_clean segs : forall acc,
  Forall (fun seg => slashFree (Js.chars seg) = true) segs ->
  forallb cleanSegment acc = true ->
  forallb cleanSegment (fold_left (path.normalizeStep false) segs acc) = true.
Proof.
  induction segs as [|seg segs IH]; intros acc Hsegs Hacc; simpl; [exact Hacc|].
  inversion Hsegs; subst. apply IH; auto. now apply normalizeStep_clean.
Qed.

Lemma forallb_rev {A} (f : A -> bool) l : forallb f (rev l) = forallb f l.
Proof.
  induction l as [|x l IH]; simpl; [reflexivity|].
  rewrite forallb_app, IH. simpl. rewrite andb_true_r. apply andb_comm.
Qed.

Lemma split_slashFree p : Forall (fun seg => slashFree (Js.chars seg) = true) (Js.split p).
Proof.
  unfold Js.split. apply Forall_map.
  eapply Forall_impl; [|apply splitSlash_slashFree].
  intros seg H. now rewrite chars_str.
Qed.

Lemma normalizeSegments_clean p :
  forallb cleanSegment (path.normalizeSegments false (Js.split p)) = true.
Proof.
  unfold path.normalizeSegments. rewrite forallb_rev.
  apply normalizeFold_clean; [apply split_slashFree|reflexivity].
Qed.

(** Reading clean segments back: [normalizeString] meets each of them
    between two separators and keeps it. *)
Lemma normalizeFold_join segs : forall rest acc,
  forallb cleanSegment segs = true ->
  fold_left (path.normalizeStep false)
    (map Js.str (Js.splitSlash (Js.chars (Js.join segs) ++ "/"%char :: rest))) acc
  = fold_left (path.normalizeStep false)
      (map Js.str (Js.splitSlash rest)) (rev segs ++ acc)%list.
Proof.
  induction segs as [|seg segs IH]; intros rest acc Hclean.
  - reflexivity.
  - simpl in Hclean. apply andb_true_iff in Hclean. destruct Hclean as [Hseg Hsegs].
    assert (Hfree : slashFree (Js.chars seg) = true).
    { unfold cleanSegment in Hseg. apply andb_true_iff in Hseg. apply Hseg. }
    destruct segs as [|seg' segs'].
    + simpl Js.join. rewrite splitSlash_run by exact Hfree.
      simpl. rewrite str_chars, cleanSegment_step by exact Hseg. reflexivity.
    + change (Js.join (seg :: seg' :: segs')) with (seg ++ "/" ++ Js.join (seg' :: segs')).
      rewrite !chars_append. change (Js.chars "/") with ["/"%char].
      rewrite <- !app_assoc. simpl app at 2.
      rewrite splitSlash_run by exact Hfree.
      simpl map. simpl fold_left at 1.
      rewrite str_chars, cleanSegment_step by exact Hseg.
      rewrite IH by exact Hsegs.
      simpl rev. now rewrite <- !app_assoc.
Qed.

Lemma normalizeString_absolutePath segs :
  forallb cleanSegment segs = true ->
  path.normalizeString (absolutePath segs ++ "/") false = Js.join segs.
Proof.
  intros Hclean. unfold path.normalizeString, path.normalizeSegments, Js.split, absolutePath.
  rewrite !chars_append. change (Js.chars "/") with ["/"%char]. simpl app at 1.
  change (Js.splitSlash ("/"%char :: ?x)) with ([] :: Js.splitSlash x).
  simpl map. simpl fold_left at 1.
  change (path.normalizeStep false [] (Js.str [])) with (@nil string).
  rewrite normalizeFold_join by exact Hclean.
  rewrite app_nil_r.
  change (fold_left (path.normalizeStep false) (map Js.str (Js.splitSlash [])) (rev segs))
    with (rev segs).
  now rewrite rev_involutive.
Qed.

Lemma isAbsolute_nonempty p : path.isAbsolute p = true -> String.eqb p "" = false.
Proof. destruct p; [discriminate|reflexivity]. Qed.

Lemma resolveLoop_absolute processCwd args : forall acc,
  path.isAbsolute processCwd = true ->
  exists resolvedPath,
    path.resolveLoop (args ++ [processCwd])%list acc = (resolvedPath, true).
Proof.
  induction args as [|p args IH]; intros acc Habs; simpl.
  - rewrite (isAbsolute_nonempty _ Habs), Habs. eauto.
  - destruct (String.eqb p ""); [now apply IH|].
    destruct (path.isAbsolute p); [eauto|now apply IH].
Qed.

(** With an absolute [process.cwd()], as Node has it, [path.resolve]
    returns an absolute path of clean segments. *)
Lemma resolve_absolutePath processCwd args :
  path.isAbsolute processCwd = true ->
  exists segs, forallb cleanSegment segs = true
               /\ path.resolve processCwd args = absolutePath segs.
Proof.
  intros Habs. unfold path.resolve.
  destruct (resolveLoop_absolute processCwd (rev args) "" Habs) as [resolvedPath E].
  rewrite E. simpl negb. cbv iota.
  exists (path.normalizeSegments false (Js.split resolvedPath)).
  split; [apply normalizeSegments_clean|reflexivity].
Qed.

(** Such a path resolves to itself. *)
Lemma resolve_of_absolutePath processCwd base segs :
  forallb cleanSegment segs = true ->
  path.resolve processCwd [base; absolutePath segs] = absolutePath segs.
Proof.
  intros Hclean. unfold path.resolve. simpl rev. simpl app.
  unfold path.resolveLoop.
  assert (Habs : path.isAbsolute (absolutePath segs) = true)
    by apply startsWith_append.
  rewrite (isAbsolute_nonempty _ Habs), Habs.
  change (absolutePath segs ++ "/" ++ "") with (absolutePath segs ++ "/").
  simpl negb. cbv iota.
  now rewrite normalizeString_absolutePath.
Qed.

Lemma resolved_idempotent host fs p :
  path.isAbsolute (process_cwd host) = true ->
  resolved host fs (resolved host fs p) = resolved host fs p.
Proof.
  intros Habs. unfold resolved.
  destruct (resolve_absolutePath (process_cwd host) [workingDir fs; p] Habs)
    as (segs & Hclean & ->).
  now apply resolve_of_absolutePath.
Qed.

(** *** Paths under a resolved path *)

Lemma splitSlash_nonempty cs : Js.splitSlash cs <> [].
Proof.
  induction cs as [|c cs IH]; simpl; [discriminate|].
  destruct (Js.isSlash c); [discriminate|].
  destruct (Js.splitSlash cs); discriminate.
Qed.

Lemma splitSlash_snoc cs :
  Js.splitSlash (cs ++ ["/"%char]) = (Js.splitSlash cs ++ [[]])%list.
Proof.
  induction cs as [|c cs IH]; [reflexivity|].
  simpl. rewrite IH. destruct (Js.isSlash c); [reflexivity|].
  destruct (Js.splitSlash cs) as [|seg segs] eqn:E; [|reflexivity].
  now apply splitSlash_nonempty in E.
Qed.

Lemma normalizeFold_snoc segs acc :
  fold_left (path.normalizeStep false) (segs ++ [""])%list acc
  = fold_left (path.normalizeStep false) segs acc.
Proof. now rewrite fold_left_app. Qed.

(** The segments of a joined list of clean segments are read back as they
    are. *)
Lemma normalizeFold_join_end segs acc :
  forallb cleanSegment segs = true ->
  fold_left (path.normalizeStep false)
    (map Js.str (Js.splitSlash (Js.chars (Js.join segs)))) acc
  = (rev segs ++ acc)%list.
Proof.
  intros Hclean.
  rewrite <- normalizeFold_snoc.
  change [""] with (map Js.str [[]]). rewrite <- map_app, <- splitSlash_snoc.
  now rewrite normalizeFold_join.
Qed.

Lemma normalizeSegments_absolutePath segs :
  forallb cleanSegment segs = true ->
  path.normalizeSegments false (Js.split (absolutePath segs)) = segs.
Proof.
  intros Hclean. unfold path.normalizeSegments, Js.split, absolutePath.
  rewrite chars_append. change (Js.chars "/") with ["/"%char]. simpl app.
  change (Js.splitSlash ("/"%char :: ?x)) with ([] :: Js.splitSlash x).
  simpl map. simpl fold_left.
  change (path.normalizeStep false [] (Js.str [])) with (@nil string).
  rewrite normalizeFold_join_end by exact Hclean.
  now rewrite app_nil_r, rev_involutive.
Qed.

(** So two lists of clean segments that make the same path are the same. *)
Lemma absolutePath_inj segs segs' :
  forallb cleanSegment segs = true -> forallb cleanSegment segs' = true ->
  absolutePath segs = absolutePath segs' -> segs = segs'.
Proof.
  intros H H' E.
  rewrite <- (normalizeSegments_absolutePath segs H).
  rewrite <- (normalizeSegments_absolutePath segs' H').
  now rewrite E.
Qed.

Lemma resolve_last_absolutePath processCwd args segs :
  forallb cleanSegment segs = true ->
  path.resolve processCwd (args ++ [absolutePath segs]) = absolutePath segs.
Proof.
  intros Hclean. unfold path.resolve. rewrite rev_app_distr. simpl rev. simpl app.
  assert (Habs : path.isAbsolute (absolutePath segs) = true)
    by apply startsWith_append.
  simpl path.resolveLoop. rewrite Habs.
  change (String "/" (Js.join segs ++ "/")) with (absolutePath segs ++ "/").
  simpl negb. cbv iota.
  now rewrite normalizeString_absolutePath.
Qed.

Lemma stripCommon_app os rs : path.stripCommon os (os ++ rs) = ([], rs).
Proof.
  induction os as [|seg os IH]; simpl.
  - destruct rs; reflexivity.
  - now rewrite String.eqb_refl.
Qed.

(** [path.relative] from a resolved path to a path under it is what the
    longer one adds. *)
Lemma relative_under processCwd os rs :
  forallb cleanSegment os = true -> forallb cleanSegment rs = true ->
  path.relative processCwd (absolutePath os) (absolutePath (os ++ rs)) = Js.join rs.
Proof.
  intros Hos Hrs.
  assert (Hall : forallb cleanSegment (os ++ rs) = true)
    by (rewrite forallb_app, Hos, Hrs; reflexivity).
  assert (Hsame : absolutePath os = absolutePath (os ++ rs) -> rs = []).
  { intros E. apply absolutePath_inj in E; auto.
    rewrite <- (app_nil_r os) in E at 1. now apply app_inv_head in E. }
  unfold path.relative.
  destruct (String.eqb (absolutePath os) (absolutePath (os ++ rs))) eqn:E.
  { apply String.eqb_eq in E. now rewrite (Hsame E). }
  pose proof (resolve_last_absolutePath processCwd [] os Hos) as R1.
  pose proof (resolve_last_absolutePath processCwd [] (os ++ rs) Hall) as R2.
  simpl app in R1, R2. rewrite R1, R2, E.
  rewrite !normalizeSegments_absolutePath by auto.
  now rewrite stripCommon_app.
Qed.

Lemma append_assoc (a b c : string) : (a ++ b) ++ c = a ++ b ++ c.
Proof. induction a as [|x a IH]; simpl; congruence. Qed.

Lemma append_snoc_nonempty s c : String.eqb (s ++ String c "") "" = false.
Proof. destruct s; reflexivity. Qed.

Lemma endsWithSlash_snoc s c : path.endsWithSlash (s ++ String c "") = Js.isSlash c.
Proof.
  unfold path.endsWithSlash. rewrite chars_append, rev_app_distr. reflexivity.
Qed.

Lemma cleanSegment_ends seg :
  cleanSegment seg = true ->
  exists s c, seg = s ++ String c "" /\ Js.isSlash c = false.
Proof.
  unfold cleanSegment. intros H.
  repeat (apply andb_true_iff in H; destruct H as [H ?]).
  apply negb_true_iff in H. apply String.eqb_neq in H.
  destruct (exists_last (l := Js.chars seg)) as (init & c & E).
  { intros E. apply H. rewrite <- (str_chars seg), E. reflexivity. }
  exists (Js.str init), c. split.
  - rewrite <- (str_chars seg), E.
    rewrite <- (str_chars (Js.str init ++ String c "")), chars_append, chars_str.
    reflexivity.
  - match goal with F : forallb _ _ = true |- _ => rewrite E, forallb_app in F;
      apply andb_true_iff in F; destruct F as [_ F]; simpl in F end.
    rewrite andb_true_r in *. now apply negb_true_iff.
Qed.

Lemma join_ends segs :
  forallb cleanSegment segs = true -> segs <> [] ->
  exists s c, Js.join segs = s ++ String c "" /\ Js.isSlash c = false.
Proof.
  induction segs as [|seg segs IH]; intros Hclean Hne; [contradiction|].
  simpl in Hclean. apply andb_true_iff in Hclean. destruct Hclean as [Hseg Hsegs].
  destruct segs as [|seg' segs'].
  - now apply cleanSegment_ends.
  - destruct (IH Hsegs ltac:(discriminate)) as (s & c & E & Hc).
    exists (seg ++ "/" ++ s), c. split; [|exact Hc].
    change (Js.join (seg :: seg' :: segs')) with (seg ++ "/" ++ Js.join (seg' :: segs')).
    rewrite E. now rewrite !append_assoc.
Qed.

Lemma join_app a b :
  a <> [] -> b <> [] -> Js.join (a ++ b) = Js.join a ++ "/" ++ Js.join b.
Proof.
  induction a as [|x a IH]; intros Ha Hb; [contradiction|].
  destruct a as [|y a'].
  - destruct b as [|z b']; [contradiction|reflexivity].
  - change (Js.join ((x :: y :: a') ++ b)) with (x ++ "/" ++ Js.join ((y :: a') ++ b)).
    rewrite IH by (auto; discriminate).
    change (Js.join (x :: y :: a')) with (x ++ "/" ++ Js.join (y :: a')).
    now rewrite !append_assoc.
Qed.

Lemma normalizeString_joined ns rs :
  forallb cleanSegment ns = true -> forallb cleanSegment rs = true ->
  path.normalizeString (absolutePath ns ++ "/" ++ Js.join rs) false = Js.join (ns ++ rs).
Proof.
  intros Hns Hrs. unfold path.normalizeString, path.normalizeSegments, Js.split, absolutePath.
  rewrite !chars_append. change (Js.chars "/") with ["/"%char].
  rewrite <- !app_assoc. simpl app.
  change (Js.splitSlash ("/"%char :: ?x)) with ([] :: Js.splitSlash x).
  simpl map. simpl fold_left.
  change (path.normalizeStep false [] (Js.str [])) with (@nil string).
  rewrite normalizeFold_join by exact Hns.
  rewrite normalizeFold_join_end by exact Hrs.
  now rewrite app_nil_r, <- rev_app_distr, rev_involutive.
Qed.

Lemma normalizeString_of_absolutePath segs :
  forallb cleanSegment segs = true ->
  path.normalizeString (absolutePath segs) false = Js.join segs.
Proof.
  intros H. unfold path.normalizeString.
  now rewrite normalizeSegments_absolutePath.
Qed.

Lemma isAbsolute_absolutePath segs t : path.isAbsolute (absolutePath segs ++ t) = true.
Proof. unfold absolutePath. rewrite append_assoc. apply startsWith_append. Qed.

(** [path.join] of a resolved path and clean segments appends them. *)
Lemma join_under ns rs :
  forallb cleanSegment ns = true -> forallb cleanSegment rs = true ->
  path.join [absolutePath ns; Js.join rs] = absolutePath (ns ++ rs).
Proof.
  intros Hns Hrs. unfold path.join. simpl filter.
  destruct rs as [|r rs'].
  - simpl. rewrite app_nil_r. unfold path.normalize.
    change (String "/" (Js.join ns)) with (absolutePath ns).
    rewrite (isAbsolute_nonempty (absolutePath ns)) by apply startsWith_append.
    assert (Habs : path.isAbsolute (absolutePath ns) = true) by apply startsWith_append.
    rewrite Habs. simpl negb. rewrite normalizeString_of_absolutePath by exact Hns.
    destruct ns as [|n ns']; [reflexivity|].
    destruct (join_ends (n :: ns') Hns ltac:(discriminate)) as (s & c & E & Hc).
    rewrite E, append_snoc_nonempty.
    unfold absolutePath. rewrite E, <- append_assoc, endsWithSlash_snoc, Hc.
    reflexivity.
  - destruct (join_ends (r :: rs') Hrs ltac:(discriminate)) as (s & c & E & Hc).
    assert (Hne : String.eqb (Js.join (r :: rs')) "" = false)
      by (rewrite E; apply append_snoc_nonempty).
    rewrite Hne. simpl negb. cbv iota.
    change (Js.join [absolutePath ns; Js.join (r :: rs')])
      with (absolutePath ns ++ "/" ++ Js.join (r :: rs')).
    assert (Habs : path.isAbsolute (absolutePath ns ++ "/" ++ Js.join (r :: rs')) = true)
      by apply isAbsolute_absolutePath.
    rewrite (isAbsolute_nonempty _ Habs).
    unfold path.normalize.
    rewrite (isAbsolute_nonempty _ Habs).
    rewrite Habs. simpl negb.
    rewrite normalizeString_joined by auto.
    assert (Hall : forallb cleanSegment (ns ++ r :: rs') = true)
      by (rewrite forallb_app, Hns, Hrs; reflexivity).
    destruct (join_ends (ns ++ r :: rs') Hall
                ltac:(intros F; apply app_eq_nil in F; destruct F; discriminate))
      as (s' & c' & E' & Hc').
    rewrite E' at 1. rewrite append_snoc_nonempty.
    rewrite E at 1. rewrite <- !append_assoc, endsWithSlash_snoc, Hc.
    reflexivity.
Qed.

(** For resolved paths the rewritten key is the key with the old base
    replaced by the new one. *)
Lemma renamedKey_replaces_base host os ns rs :
  forallb cleanSegment os = true -> forallb cleanSegment ns = true ->
  forallb cleanSegment rs = true ->
  renamedKey host (absolutePath os) (absolutePath ns) (absolutePath (os ++ rs))
  = absolutePath (ns ++ rs).
Proof.
  intros Hos Hns Hrs. unfold renamedKey.
  rewrite relative_under by auto. now apply join_under.
Qed.

Lemma nested_under os rs :
  os <> [] \/ rs = [] ->
  isNestedPath (absolutePath os) (absolutePath (os ++ rs)) = true.
Proof.
  intros H. unfold isNestedPath. apply orb_true_iff.
  destruct rs as [|r rs'].
  - right. rewrite app_nil_r. apply String.eqb_refl.
  - left. destruct H as [H|H]; [|discriminate].
    unfold absolutePath, path.sep.
    rewrite join_app by (auto; discriminate).
    rewrite <- !append_assoc. apply startsWith_append.
Qed.

(** *** Parents of a resolved path *)

Lemma dropWhile_app_stop {A} (f : A -> bool) l x rest :
  forallb f l = true -> f x = false ->
  Js.dropWhile f (l ++ x :: rest) = x :: rest.
Proof.
  induction l as [|y l IH]; simpl; intros Hl Hx.
  - now rewrite Hx.
  - apply andb_true_iff in Hl. destruct Hl as [Hy Hl]. rewrite Hy. now apply IH.
Qed.

Lemma dropWhile_all {A} (f : A -> bool) l :
  forallb f l = true -> Js.dropWhile f l = [].
Proof.
  induction l as [|y l IH]; simpl; intros Hl; [reflexivity|].
  apply andb_true_iff in Hl. destruct Hl as [Hy Hl]. rewrite Hy. now apply IH.
Qed.

Lemma dropWhile_slash_of_slashFree cs rest :
  slashFree cs = true -> cs <> [] ->
  Js.dropWhile Js.isSlash (rev cs ++ rest) = (rev cs ++ rest)%list.
Proof.
  intros Hfree Hne.
  destruct (rev cs) as [|c cs'] eqn:E.
  - apply (f_equal (@rev ascii)) in E. rewrite rev_involutive in E. contradiction.
  - assert (Hc : Js.isSlash c = false).
    { unfold slashFree in Hfree. rewrite <- forallb_rev, E in Hfree. simpl in Hfree.
      apply andb_true_iff in Hfree. destruct Hfree as [Hc _].
      now apply negb_true_iff. }
    simpl. now rewrite Hc.
Qed.

Lemma dirname_top cs :
  slashFree cs = true -> cs <> [] -> path.dirname (Js.str ("/"%char :: cs)) = "/".
Proof.
  intros Hfree Hne. unfold path.dirname. rewrite chars_str.
  rewrite <- (app_nil_r (rev cs)).
  rewrite dropWhile_slash_of_slashFree by auto.
  rewrite app_nil_r, dropWhile_all; [reflexivity|].
  unfold slashFree in Hfree. now rewrite forallb_rev.
Qed.

Lemma dirname_under pre cs :
  slashFree cs = true -> cs <> [] -> pre <> [] ->
  path.dirname (Js.str ("/"%char :: pre ++ "/"%char :: cs)) = Js.str ("/"%char :: pre).
Proof.
  intros Hfree Hne Hpre. unfold path.dirname. rewrite chars_str.
  rewrite rev_app_distr. simpl rev. rewrite <- app_assoc. simpl app.
  rewrite dropWhile_slash_of_slashFree by auto.
  rewrite dropWhile_app_stop;
    [|unfold slashFree in Hfree; now rewrite forallb_rev|reflexivity].
  destruct (rev pre) as [|b before] eqn:E.
  - apply (f_equal (@rev ascii)) in E. rewrite rev_involutive in E. contradiction.
  - rewrite <- E, rev_involutive. reflexivity.
Qed.

Lemma cleanSegment_slashFree seg :
  cleanSegment seg = true -> slashFree (Js.chars seg) = true /\ Js.chars seg <> [].
Proof.
  intros H. destruct (cleanSegment_ends seg H) as (s & c & E & _).
  unfold cleanSegment in H. apply andb_true_iff in H. destruct H as [_ Hfree].
  split; [exact Hfree|].
  rewrite E, chars_append. simpl. intros F. apply app_eq_nil in F.
  destruct F; discriminate.
Qed.

(** The parent of a resolved path is the path of all but its last
    segment. *)
Lemma dirname_absolutePath segs seg :
  forallb cleanSegment segs = true -> cleanSegment seg = true ->
  path.dirname (absolutePath (segs ++ [seg])) = absolutePath segs.
Proof.
  intros Hsegs Hseg.
  destruct (cleanSegment_slashFree seg Hseg) as [Hfree Hne].
  destruct segs as [|s0 segs'].
  - change (absolutePath ([] ++ [seg])) with ("/" ++ seg).
    rewrite <- (str_chars ("/" ++ seg)), chars_append.
    change (Js.chars "/" ++ Js.chars seg)%list with ("/"%char :: Js.chars seg).
    now apply dirname_top.
  - assert (Hpre : Js.chars (Js.join (s0 :: segs')) <> []).
    { destruct (join_ends (s0 :: segs') Hsegs ltac:(discriminate)) as (s & c & E & _).
      rewrite E, chars_append. simpl. intros F. apply app_eq_nil in F.
      destruct F; discriminate. }
    unfold absolutePath. rewrite join_app by discriminate.
    change (Js.join [seg]) with seg.
    set (pre := Js.join (s0 :: segs')) in *.
    rewrite <- (str_chars ("/" ++ pre ++ "/" ++ seg)).
    rewrite !chars_append. change (Js.chars "/") with ["/"%char]. simpl app.
    rewrite dirname_under by auto.
    rewrite <- (str_chars ("/" ++ pre)), chars_append. reflexivity.
Qed.

(** Taking as many parents as a path has segments below a base leads to
    the base. *)
Lemma ancestor_absolutePath ws rs :
  forallb cleanSegment ws = true -> forallb cleanSegment rs = true ->
  ancestor (List.length rs) (absolutePath (ws ++ rs)) = absolutePath ws.
Proof.
  intros Hws. induction rs as [|r rs IH] using rev_ind; intros Hrs.
  - simpl. now rewrite app_nil_r.
  - rewrite forallb_app in Hrs. apply andb_true_iff in Hrs. destruct Hrs as [Hrs Hr].
    simpl in Hr. rewrite andb_true_r in Hr.
    rewrite length_app. simpl. rewrite Nat.add_1_r, ancestor_succ.
    rewrite app_assoc, dirname_absolutePath; auto.
    rewrite forallb_app, Hws, Hrs. reflexivity.
Qed.

Lemma ancestor_absolutePath_firstn ws rs j :
  forallb cleanSegment ws = true -> forallb cleanSegment rs = true ->
  j <= List.length rs ->
  ancestor j (absolutePath (ws ++ rs))
  = absolutePath (ws ++ firstn (List.length rs - j) rs).
Proof.
  intros Hws Hrs Hj.
  rewrite <- (firstn_skipn (List.length rs - j) rs) at 1.
  assert (Hlen : List.length (skipn (List.length rs - j) rs) = j)
    by (rewrite length_skipn; lia).
  rewrite <- Hlen at 1. rewrite app_assoc.
  rewrite <- (firstn_skipn (List.length rs - j) rs), forallb_app in Hrs.
  apply andb_true_iff in Hrs. destruct Hrs as [H1 H2].
  apply ancestor_absolutePath; auto.
  rewrite forallb_app, Hws, H1. reflexivity.
Qed.
Lemma append_empty s : s ++ "" = s.
Proof. induction s as [|c s IH]; simpl; congruence. Qed.

(** A resolved path extended by segments starts with itself. *)
Lemma startsWith_absolutePath ws rs :
  Js.startsWith (absolutePath (ws ++ rs)) (absolutePath ws) = true.
Proof.
  destruct rs as [|r rs'].
  - rewrite app_nil_r. rewrite <- (append_empty (absolutePath ws)) at 1.
    apply startsWith_append.
  - destruct ws as [|w ws'].
    + apply startsWith_append.
    + unfold absolutePath. rewrite join_app by discriminate.
      rewrite <- append_assoc. apply startsWith_append.
Qed.

(** ** How the methods run *)

Section Runs.

Variable host : Host.

Lemma resolvePath_run fs p :
  resolvePath host p fs =
    (if Js.startsWith (resolved host fs p) (workingDir fs)
     then Return (resolved host fs p)
     else Throw (PlainError (outOfWorkingDirectory ++ p)), fs).
Proof.
  unfold resolvePath, bind, this, resolved. simpl.
  destruct (Js.startsWith _ _); reflexivity.
Qed.

Lemma resolvePath_returns fs p rp :
  outcome (resolvePath host p fs) = Return rp ->
  resolvePath host p fs = (Return rp, fs) /\ rp = resolved host fs p
  /\ Js.startsWith rp (workingDir fs) = true.
Proof.
  rewrite resolvePath_run. unfold outcome. simpl.
  destruct (Js.startsWith _ _) eqn:E; intros H; inversion H; subst; auto.
Qed.

Lemma resolveOriginalPath_run fs p rp :
  outcome (resolvePath host p fs) = Return rp ->
  resolveOriginalPath host p fs = (Return (originalPathOf fs rp), fs).
Proof.
  intros H. apply resolvePath_returns in H. destruct H as [H _].
  unfold resolveOriginalPath, bind. rewrite H. reflexivity.
Qed.

(** [resolvePath] reads [workingDir] only. *)
Lemma resolvePath_workingDir fs fs' p :
  workingDir fs' = workingDir fs ->
  outcome (resolvePath host p fs') = outcome (resolvePath host p fs).
Proof.
  intros H. rewrite !resolvePath_run. unfold resolved. rewrite H. reflexivity.
Qed.

Lemma resolvePath_keeps fs fs' p rp :
  workingDir fs' = workingDir fs ->
  outcome (resolvePath host p fs) = Return rp ->
  outcome (resolvePath host p fs') = Return rp.
Proof. intros H H'. now rewrite (resolvePath_workingDir _ _ _ H). Qed.

Lemma realFs_run {A} (call : string -> FsError + A) fs :
  realFs call fs =
    (match call (workingDir fs) with inr a => Return a | inl e => Throw e end, fs).
Proof. unfold realFs. destruct (call _); reflexivity. Qed.

Lemma existsSync_run fs p rp :
  outcome (resolvePath host p fs) = Return rp ->
  existsSync host p fs =
    (if JsSet.has (deletedOriginalPaths fs) (originalPathOf fs rp) then Return false
     else if JsMap.has (stagedPathToContentMap fs) rp then Return true
     else match RealFileSystem.existsSync host (workingDir fs) (originalPathOf fs rp) with
          | inr b => Return b
          | inl e => Throw e
          end, fs).
Proof.
  intros H. unfold existsSync, bind.
  rewrite (resolveOriginalPath_run _ _ _ H).
  apply resolvePath_returns in H. destruct H as [H _]. rewrite H.
  unfold this. simpl.
  destruct (JsSet.has _ _); [reflexivity|].
  destruct (JsMap.has _ _); [reflexivity|].
  apply realFs_run.
Qed.

Lemma existsSync_throws fs p e :
  outcome (resolvePath host p fs) = Throw e ->
  existsSync host p fs = (Throw e, fs).
Proof.
  rewrite resolvePath_run. unfold outcome. simpl. intros H.
  unfold existsSync, resolveOriginalPath, bind. rewrite resolvePath_run.
  destruct (Js.startsWith _ _); inversion H. reflexivity.
Qed.

Lemma rmSync_run fs p rp :
  outcome (resolvePath host p fs) = Return rp ->
  rmSync host p fs =
    (Return tt,
     with_deletedOriginalPaths
       (JsSet.add (deletedOriginalPaths fs) (originalPathOf fs rp))
       (with_stagedPathToContentMap
          (JsMap.delete (stagedPathToContentMap fs) rp) fs)).
Proof.
  intros H. unfold rmSync, bind.
  rewrite (resolveOriginalPath_run _ _ _ H).
  apply resolvePath_returns in H. destruct H as [H _]. rewrite H.
  reflexivity.
Qed.

End Runs.

(** ** Deleting, then asking *)

(** C7.  For every path [p] that resolves inside the working directory, in
    every state of the overlay and over every real file system (so for a
    staged-only [p], a real-backed [p] and a [p] that has been moved
    alike), [rm(p)] returns and [exists(p)] is then [false]. *)
Theorem rm_then_exists_is_false host fs p rp :
  outcome (resolvePath host p fs) = Return rp ->
  outcome ((rmSync host p ;;; existsSync host p) fs) = Return false.
Proof.
  intros H. unfold bind. rewrite (rmSync_run host _ _ _ H).
  set (fs' := with_deletedOriginalPaths _ _).
  assert (H' : outcome (resolvePath host p fs') = Return rp)
    by (apply (resolvePath_keeps host fs); auto).
  rewrite (existsSync_run host _ _ _ H').
  unfold fs', originalPathOf. simpl.
  now rewrite set_has_add_same.
Qed.

Lemma rm_then_exists_is_false_witness :
  (* a file of the real disk *)
  (outcome (existsSync Fixture.host "/tmp/existing-file.txt" Fixture.stagedFs)
     = Return true
   /\ outcome ((rmSync Fixture.host "/tmp/existing-file.txt" ;;;
                existsSync Fixture.host "/tmp/existing-file.txt") Fixture.stagedFs)
      = Return false)
  (* a file that is in the overlay only *)
  /\ (let written := after (writeFileSync Fixture.host "/tmp/test.txt" "test"
                              Fixture.stagedFs) in
      outcome (existsSync Fixture.host "/tmp/test.txt" written) = Return true
      /\ outcome ((rmSync Fixture.host "/tmp/test.txt" ;;;
                   existsSync Fixture.host "/tmp/test.txt") written) = Return false)
  (* a file of the real disk that was moved with its directory *)
  /\ (let moved := after (moveSync Nested.host "/w/a" "/w/b" Nested.stagedFs) in
      outcome (existsSync Nested.host "/w/b/y.txt" moved) = Return true
      /\ outcome ((rmSync Nested.host "/w/b/y.txt" ;;;
                   existsSync Nested.host "/w/b/y.txt") moved) = Return false).
Proof.
  split; [|split].
  - split; [vm_compute; reflexivity|].
    apply (rm_then_exists_is_false Fixture.host Fixture.stagedFs
             "/tmp/existing-file.txt" "/tmp/existing-file.txt").
    vm_compute; reflexivity.
  - intros written. split; [vm_compute; reflexivity|].
    apply (rm_then_exists_is_false Fixture.host written "/tmp/test.txt" "/tmp/test.txt").
    vm_compute; reflexivity.
  - intros moved. split; [vm_compute; reflexivity|].
    apply (rm_then_exists_is_false Nested.host moved "/w/b/y.txt" "/w/b/y.txt").
    vm_compute; reflexivity.
Defined.

(** ** The pending move log *)

Section MoveLog.

Variable host : Host.

Lemma existsSync_state fs p : after (existsSync host p fs) = fs.
Proof.
  destruct (outcome (resolvePath host p fs)) eqn:E.
  - now rewrite (existsSync_run host _ _ _ E).
  - now rewrite (existsSync_throws host _ _ _ E).
  - rewrite resolvePath_run in E. unfold outcome in E. simpl in E.
    destruct (Js.startsWith _ _); discriminate.
Qed.

Lemma forOf_assign {A} (f : A -> StagedFileSystem -> StagedFileSystem) xs fs :
  forOf xs (fun x => assign (f x)) fs
  = (Return tt, fold_left (fun fs x => f x fs) xs fs).
Proof.
  revert fs. induction xs as [|x xs IH]; intros fs; simpl; auto.
  unfold bind, assign at 1. apply IH.
Qed.

Lemma bindAll_frame dest paths fs :
  moveOperations (bindAll dest paths fs) = moveOperations fs
  /\ stagedPathToContentMap (bindAll dest paths fs) = stagedPathToContentMap fs
  /\ deletedOriginalPaths (bindAll dest paths fs) = deletedOriginalPaths fs
  /\ workingDir (bindAll dest paths fs) = workingDir fs.
Proof.
  unfold bindAll. revert fs. induction paths as [|e paths IH]; intros fs; simpl; auto.
  destruct (IH (with_movedPathToOriginalPathMap
                  (JsMap.set (movedPathToOriginalPathMap fs)
                     (path.join [dest; glob_name e]) (glob_path e)) fs))
    as (H1 & H2 & H3 & H4).
  rewrite H1, H2, H3, H4. auto.
Qed.

Lemma existsSync_true_resolves fs p b :
  outcome (existsSync host p fs) = Return b ->
  outcome (resolvePath host p fs) = Return (resolved host fs p).
Proof.
  intros H. rewrite resolvePath_run. unfold outcome. simpl.
  destruct (Js.startsWith _ _) eqn:E; auto.
  rewrite (existsSync_throws host fs p (PlainError (outOfWorkingDirectory ++ p))) in H.
  - discriminate.
  - rewrite resolvePath_run, E. reflexivity.
Qed.

(** What a call of [moveSync] that returns has done.  The method resolves
    the source a second time on its way to the original path. *)
Lemma moveSync_returns fs srcPath destPath fs' :
  moveSync host srcPath destPath fs = (Return tt, fs') ->
  let src := resolved host fs srcPath in
  let dest := resolved host fs destPath in
  exists paths,
    fastGlobSync host (ignoredGlobs fs)
      (originalPathOf fs (resolved host fs src)) = inr paths
    /\ outcome (resolvePath host srcPath fs) = Return src
    /\ outcome (resolvePath host destPath fs) = Return dest
    /\ outcome (existsSync host src fs) = Return true
    /\ outcome (existsSync host (path.dirname dest) fs) = Return true
    /\ fs' =
       let fs1 := bindAll dest paths fs in
       let fs2 := with_moveOperations
                    (moveOperations fs1 ++ [{| srcPath := src; destPath := dest |}])%list
                    fs1 in
       let fs3 := with_movedPathToOriginalPathMap
                    (renameMapKeys host src dest (movedPathToOriginalPathMap fs2)) fs2 in
       with_stagedPathToContentMap
         (renameMapKeys host src dest (stagedPathToContentMap fs3)) fs3.
Proof.
  intros Hrun src dest. revert Hrun.
  unfold moveSync, bind at 1.
  rewrite resolvePath_run. fold src.
  destruct (Js.startsWith src _) eqn:Es; [|discriminate].
  unfold bind at 1. rewrite resolvePath_run. fold dest.
  destruct (Js.startsWith dest _) eqn:Ed; [|discriminate].
  unfold bind at 1.
  pose proof (existsSync_state fs src) as St1.
  destruct (existsSync host src fs) as [o1 s1] eqn:E1.
  unfold after in St1; simpl in St1; subst s1.
  destruct o1 as [[|]| |]; simpl; try discriminate.
  unfold bind at 1.
  pose proof (existsSync_state fs (path.dirname dest)) as St2.
  destruct (existsSync host (path.dirname dest) fs) as [o2 s2] eqn:E2.
  unfold after in St2; simpl in St2; subst s2.
  destruct o2 as [[|]| |]; simpl; try discriminate.
  unfold bind at 1.
  assert (Hres : outcome (resolvePath host src fs) = Return (resolved host fs src))
    by (apply (existsSync_true_resolves fs src true); now rewrite E1).
  rewrite (resolveOriginalPath_run host _ _ _ Hres).
  unfold bind at 1, FastGlob_sync, bind at 1, this.
  destruct (fastGlobSync host (ignoredGlobs fs) _) as [code|paths] eqn:Eg;
    [discriminate|].
  unfold ret at 1. unfold bind at 1.
  rewrite forOf_assign. fold (bindAll dest paths fs).
  unfold bind at 1, assign at 1.
  unfold executeMoveOperation, updateNestedPathMappings, bind, assign.
  intros H. inversion H. exists paths. repeat split; auto.
Qed.

(** A call of [moveSync] that returns has appended one entry to
    [moveOperations], whatever the source is: its resolved source and
    destination. *)
Lemma moveSync_appends_one fs srcPath destPath fs' :
  moveSync host srcPath destPath fs = (Return tt, fs') ->
  moveOperations fs' =
    (moveOperations fs ++ [{| srcPath := resolved host fs srcPath;
                              destPath := resolved host fs destPath |}])%list.
Proof.
  intros H. apply moveSync_returns in H.
  destruct H as (paths & _ & _ & _ & _ & _ & ->). simpl.
  destruct (bindAll_frame (resolved host fs destPath) paths fs) as (-> & _).
  reflexivity.
Qed.

End MoveLog.

(** C1.  A file that was only ever written into the overlay
    ([/tmp/src.txt] is not on the disk) is moved, and [getMoveOperations]
    then holds one entry, where the specification, and the unit tests of
    the repository, expect none. *)
Theorem staged_only_move_is_logged :
  let run := (writeFileSync Fixture.host "/tmp/src.txt" "test" ;;;
              moveSync Fixture.host "/tmp/src.txt" "/tmp/dest.txt" ;;;
              getMoveOperations) Fixture.stagedFs in
  nodeFs_accessSync Fixture.host "/tmp/src.txt" = Some ENOENT
  /\ exists moveOps,
      outcome run = Return moveOps
      /\ deref moveOps (after run)
         = [{| srcPath := "/tmp/src.txt"; destPath := "/tmp/dest.txt" |}].
Proof.
  split; [reflexivity|].
  eexists. split; reflexivity.
Qed.

(** ** Moving a real directory *)

(** C2.  A real directory with a file two levels down is moved.  The
    entries of [FastGlob.sync] carry the base name in [name], so the file
    [/w/a/sub/x.txt] is bound at [/w/b/x.txt], not at [/w/b/sub/x.txt], and
    reading it at its new location finds nothing; the file directly under
    the directory is bound at its new location. *)
Theorem nested_descendant_is_bound_by_base_name :
  let run := moveSync Nested.host "/w/a" "/w/b" Nested.stagedFs in
  outcome run = Return tt
  /\ nodeFs_readFileSync Nested.host "/w/a/sub/x.txt" = inr (utf8 "ex")
  /\ movedPathToOriginalPathMap (after run)
     = [("/w/b/y.txt", "/w/a/y.txt"); ("/w/b/x.txt", "/w/a/sub/x.txt")]
  /\ outcome (readBufferSync Nested.host "/w/b/sub/x.txt" (after run))
     = Throw (NotFoundError "/w/b/sub/x.txt")
  /\ outcome (readBufferSync Nested.host "/w/b/y.txt" (after run))
     = Return (utf8 "why").
Proof. repeat split; reflexivity. Qed.

(** ** Deleting a real directory *)

(** C3.  A real directory is removed.  Its own path is tombstoned and no
    longer exists, its parent no longer lists it and it can no longer be
    listed itself, but the file below it is still reported as existing and
    still read: the deletion check compares whole paths only. *)
Theorem descendant_of_deleted_directory_still_exists :
  let run := rmSync Fixture.host "/tmp/existing-dir" Fixture.stagedFs in
  outcome run = Return tt
  /\ deletedOriginalPaths (after run) = ["/tmp/existing-dir"]
  /\ outcome (existsSync Fixture.host "/tmp/existing-dir" (after run)) = Return false
  /\ outcome (readDirSync Fixture.host "/tmp" (after run))
     = Return [{| entry_name := "existing-file.txt";
                  entry_path := "/tmp/existing-file.txt";
                  entry_isDirectory := false |}]
  /\ outcome (readDirSync Fixture.host "/tmp/existing-dir" (after run))
     = Throw (NotFoundError "/tmp/existing-dir")
  /\ outcome (existsSync Fixture.host "/tmp/existing-dir/nested-file.txt" (after run))
     = Return true
  /\ outcome (readBufferSync Fixture.host "/tmp/existing-dir/nested-file.txt" (after run))
     = Return (utf8 "nested content").
Proof. repeat split; reflexivity. Qed.

(** ** Paths outside the working directory *)

Section OutOfRoot.

Variable host : Host.

(** The check accepts the working directory and everything that extends
    it. *)
Lemma resolvePath_accepts_inside fs p rest :
  resolved host fs p = workingDir fs ++ rest ->
  outcome (resolvePath host p fs) = Return (resolved host fs p).
Proof.
  intros H. rewrite resolvePath_run. unfold outcome. simpl.
  rewrite H at 1. now rewrite startsWith_append.
Qed.

Lemma resolvePath_rejects fs p :
  Js.startsWith (resolved host fs p) (workingDir fs) = false ->
  resolvePath host p fs = (Throw (PlainError (outOfWorkingDirectory ++ p)), fs).
Proof. intros H. now rewrite resolvePath_run, H. Qed.

(** A path that [resolvePath] rejects makes every method throw that error
    before any field is touched. *)
Lemma rejected_path_throws_everywhere fs p e :
  resolvePath host p fs = (Throw e, fs) ->
  (forall data, writeBufferSync host p data fs = (Throw e, fs))
  /\ readBufferSync host p fs = (Throw e, fs)
  /\ existsSync host p fs = (Throw e, fs)
  /\ rmSync host p fs = (Throw e, fs)
  /\ mkdirSync host p fs = (Throw e, fs)
  /\ readDirSync host p fs = (Throw e, fs)
  /\ (forall dest, moveSync host p dest fs = (Throw e, fs))
  /\ (forall dest, copySync host p dest fs = (Throw e, fs)).
Proof.
  intros H.
  assert (Hx : existsSync host p fs = (Throw e, fs))
    by (apply existsSync_throws; now rewrite H).
  repeat split; intros;
    unfold writeBufferSync, readBufferSync, rmSync, mkdirSync, readDirSync,
      moveSync, copySync, readBufferSync, resolveOriginalPath, bind;
    rewrite ?Hx, ?H; reflexivity.
Qed.

End OutOfRoot.

(** C4.  The working directory is [/work]; the path [/workspace/secret.txt]
    lies in a sibling directory, not under it.  The check is a plain
    [startsWith], so the path is accepted by the overlay and by the real
    file system alike, and the file outside the working directory is read. *)
Theorem sibling_directory_is_accepted :
  workingDir Sibling.stagedFs = "/work"
  /\ outcome (resolvePath Sibling.host "/workspace/secret.txt" Sibling.stagedFs)
     = Return "/workspace/secret.txt"
  /\ RealFileSystem.resolvePath Sibling.host "/work" "/workspace/secret.txt"
     = inr "/workspace/secret.txt"
  /\ outcome (existsSync Sibling.host "/workspace/secret.txt" Sibling.stagedFs)
     = Return true
  /\ outcome (readBufferSync Sibling.host "/workspace/secret.txt" Sibling.stagedFs)
     = Return (utf8 "secret")
  /\ outcome (resolvePath Sibling.host "../etc/passwd" Sibling.stagedFs)
     = Throw (PlainError "Cannot resolve path outside of working directory: ../etc/passwd").
Proof. repeat split; reflexivity. Qed.

(** ** Rewriting the keys under a moved path *)

Section Rename.

Variable host : Host.
Variables oldBasePath newBasePath : string.

Local Abbreviation nested := (isNestedPath oldBasePath).
Local Abbreviation renamed := (renamedKey host oldBasePath newBasePath).
Local Abbreviation renameLoop := (renameLoop host oldBasePath newBasePath).

Lemma renameLoop_cons {V} key (value : V) entries map :
  renameLoop ((key, value) :: entries) map =
    renameLoop entries
      (if nested key then JsMap.set (JsMap.delete map key) (renamed key) value
       else map).
Proof. reflexivity. Qed.

(** A key outside the moved path keeps its entry, unless a rewritten key
    lands on it. *)
Lemma renameLoop_frame {V} (entries : list (string * V)) map x :
  nested x = false ->
  (forall k, In k (JsMap.keys entries) -> nested k = true -> renamed k <> x) ->
  JsMap.get (renameLoop entries map) x = JsMap.get map x.
Proof.
  intros Hx. revert map.
  induction entries as [|[k v] entries IH]; intros map Hfree; [reflexivity|].
  rewrite renameLoop_cons, IH.
  - destruct (nested k) eqn:Ek; [|reflexivity].
    rewrite get_set_other by (apply Hfree; simpl; auto).
    apply get_delete_other. intros ->. congruence.
  - intros k' Hin. apply Hfree. simpl. auto.
Qed.

(** A key under the moved path is gone once the loop has met it. *)
Lemma renameLoop_removes {V} (entries : list (string * V)) map x :
  nested x = true ->
  (forall k, In k (JsMap.keys entries) -> nested k = true -> nested (renamed k) = false) ->
  JsMap.get (renameLoop entries map) x =
    if in_dec string_dec x (JsMap.keys entries) then None else JsMap.get map x.
Proof.
  intros Hx. revert map.
  induction entries as [|[k v] entries IH]; intros map Hout; [reflexivity|].
  rewrite renameLoop_cons, IH by (intros k' Hin; apply Hout; simpl; auto).
  simpl JsMap.keys.
  destruct (in_dec string_dec x (JsMap.keys entries)) as [Hin|Hnin].
  - destruct (in_dec string_dec x (k :: JsMap.keys entries)) as [_|N]; auto.
    exfalso. apply N. simpl. auto.
  - destruct (nested k) eqn:Ek.
    + assert (Hrk : renamed k <> x).
      { intros E. specialize (Hout k (or_introl eq_refl) Ek). congruence. }
      rewrite get_set_other by exact Hrk.
      destruct (string_dec k x) as [->|Hne].
      * rewrite get_delete_same.
        destruct (in_dec string_dec x (x :: JsMap.keys entries)) as [_|N]; auto.
        exfalso. apply N. simpl. auto.
      * rewrite get_delete_other by exact Hne.
        destruct (in_dec string_dec x (k :: JsMap.keys entries)) as [[E|Hin]|_];
          [contradiction|contradiction|reflexivity].
    + destruct (in_dec string_dec x (k :: JsMap.keys entries)) as [[E|Hin]|_];
        [congruence|contradiction|reflexivity].
Qed.

(** The value of a key under the moved path ends up at the rewritten key. *)
Lemma renameLoop_moves {V} (entries : list (string * V)) map k v :
  NoDup (JsMap.keys entries) ->
  (forall k, In k (JsMap.keys entries) -> nested k = true -> nested (renamed k) = false) ->
  (forall k k', In k (JsMap.keys entries) -> In k' (JsMap.keys entries) ->
                nested k = true -> nested k' = true -> renamed k = renamed k' -> k = k') ->
  In (k, v) entries -> nested k = true ->
  JsMap.get (renameLoop entries map) (renamed k) = Some v.
Proof.
  revert map.
  induction entries as [|[k0 v0] entries IH]; intros map Hnd Hout Hinj Hin Hk;
    [contradiction|].
  simpl in Hnd. inversion Hnd as [|? ? Hk0 Hnd']; subst.
  rewrite renameLoop_cons.
  destruct Hin as [E|Hin].
  - inversion E; subst k0 v0. rewrite Hk.
    rewrite renameLoop_frame.
    + apply get_set_same.
    + apply Hout; simpl; auto.
    + intros k' Hin' Hk' E'.
      apply Hinj in E'; simpl; auto. subst k'. contradiction.
  - apply IH; auto.
    + intros k' Hin'. apply Hout. simpl. auto.
    + intros k1 k2 H1 H2. apply Hinj; simpl; auto.
Qed.

Lemma get_In {V} (m : JsMap.t V) k v : JsMap.get m k = Some v -> In (k, v) m.
Proof.
  induction m as [|[k' v'] m IH]; simpl; [discriminate|].
  destruct (String.eqb k' k) eqn:E.
  - apply String.eqb_eq in E. intros H. inversion H. subst. auto.
  - auto.
Qed.

Lemma In_keys {V} (m : JsMap.t V) k v : In (k, v) m -> In k (JsMap.keys m).
Proof. intros H. apply (in_map fst) in H. exact H. Qed.

End Rename.

(** A sibling whose name merely continues the name of the moved path is not
    under it. *)
Lemma sibling_is_not_nested old c rest :
  c <> "/"%char -> isNestedPath old (old ++ String c rest) = false.
Proof.
  intros Hc. unfold isNestedPath, Js.startsWith, path.sep.
  rewrite prefix_append_cancel.
  change (String.prefix "/" (String c rest))
    with (if ascii_dec "/"%char c then String.prefix "" rest else false).
  destruct (ascii_dec "/"%char c) as [E|_]; [congruence|].
  rewrite orb_false_l.
  apply String.eqb_neq, append_nonempty_neq.
Qed.

Section RenameMap.

Variable host : Host.
Variables oldBasePath newBasePath : string.

Lemma renameMapKeys_loop {V} (map : JsMap.t V) :
  renameMapKeys host oldBasePath newBasePath map
  = renameLoop host oldBasePath newBasePath map map.
Proof. reflexivity. Qed.

Lemma renameMapKeys_kept {V} (map : JsMap.t V) :
  KeptOutside host oldBasePath newBasePath map
    (renameMapKeys host oldBasePath newBasePath map).
Proof.
  intros x Hx Hfree. rewrite renameMapKeys_loop.
  now apply renameLoop_frame.
Qed.

Lemma renameMapKeys_moved {V} (map : JsMap.t V) :
  RewritesApart host oldBasePath newBasePath map ->
  MovedInside host oldBasePath newBasePath map
    (renameMapKeys host oldBasePath newBasePath map).
Proof.
  intros (Hnd & Hout & Hinj) k v Hget Hk. rewrite renameMapKeys_loop. split.
  - apply renameLoop_moves; auto. now apply get_In.
  - rewrite renameLoop_removes by auto.
    destruct (in_dec string_dec k (JsMap.keys map)) as [_|N]; auto.
    exfalso. apply N. apply (In_keys map k v). now apply get_In.
Qed.

End RenameMap.

Lemma bindAll_get_other dest paths fs x :
  (forall e, In e paths -> path.join [dest; glob_name e] <> x) ->
  JsMap.get (movedPathToOriginalPathMap (bindAll dest paths fs)) x
  = JsMap.get (movedPathToOriginalPathMap fs) x.
Proof.
  unfold bindAll. revert fs.
  induction paths as [|e paths IH]; intros fs Hne; simpl; auto.
  rewrite IH by (intros e' Hin; apply Hne; simpl; auto).
  simpl. apply get_set_other. apply Hne. simpl. auto.
Qed.

(** C5, as amended.  A call [move(src, dest)] that returns has run
    [renameMapKeys] over the staged-content map and over the rename-binding
    map (the latter after the bindings for the real descendants were
    registered).  In either map every key that is neither equal to the
    resolved [src] nor under [src + "/"], and on which no rewritten key
    lands, keeps its entry; in particular a key that continues the name of
    [src] without a separator is not rewritten.  Every key that is [src] or
    under it has its value at [path.join(dest, path.relative(src, key))]
    and nothing at the key itself, provided the rewritten keys stay apart.
    With Node's absolute [process.cwd()], [src] and [dest] are absolute
    paths of clean segments, and the rewritten key of [src] followed by
    further segments is [dest] followed by the same segments. *)
Theorem move_rewrites_nested_keys host fs srcPath destPath fs' :
  moveSync host srcPath destPath fs = (Return tt, fs') ->
  let src := resolved host fs srcPath in
  let dest := resolved host fs destPath in
  exists paths,
    fastGlobSync host (ignoredGlobs fs)
      (originalPathOf fs (resolved host fs src)) = inr paths
    /\ KeptOutside host src dest
         (stagedPathToContentMap fs) (stagedPathToContentMap fs')
    /\ KeptOutside host src dest
         (movedPathToOriginalPathMap (bindAll dest paths fs))
         (movedPathToOriginalPathMap fs')
    /\ (forall x,
          (forall e, In e paths -> path.join [dest; glob_name e] <> x) ->
          JsMap.get (movedPathToOriginalPathMap (bindAll dest paths fs)) x
          = JsMap.get (movedPathToOriginalPathMap fs) x)
    /\ (forall c rest, c <> "/"%char -> isNestedPath src (src ++ String c rest) = false)
    /\ (RewritesApart host src dest (stagedPathToContentMap fs) ->
        MovedInside host src dest
          (stagedPathToContentMap fs) (stagedPathToContentMap fs'))
    /\ (RewritesApart host src dest (movedPathToOriginalPathMap (bindAll dest paths fs)) ->
        MovedInside host src dest
          (movedPathToOriginalPathMap (bindAll dest paths fs))
          (movedPathToOriginalPathMap fs'))
    /\ (path.isAbsolute (process_cwd host) = true ->
        exists os ns,
          forallb cleanSegment os = true /\ forallb cleanSegment ns = true
          /\ src = absolutePath os /\ dest = absolutePath ns
          /\ forall rs,
               forallb cleanSegment rs = true ->
               renamedKey host src dest (absolutePath (os ++ rs)) = absolutePath (ns ++ rs)
               /\ (os <> [] \/ rs = [] ->
                   isNestedPath src (absolutePath (os ++ rs)) = true)).
Proof.
  intros Hrun src dest.
  apply moveSync_returns in Hrun.
  destruct Hrun as (paths & Hglob & _ & _ & _ & _ & ->).
  fold src dest. exists paths.
  destruct (bindAll_frame dest paths fs) as (_ & Hst & _ & _).
  simpl. rewrite Hst.
  split; [exact Hglob|].
  split; [apply renameMapKeys_kept|].
  split; [apply renameMapKeys_kept|].
  split; [intros x; apply bindAll_get_other|].
  split; [intros c rest; apply sibling_is_not_nested|].
  split; [apply renameMapKeys_moved|].
  split; [apply renameMapKeys_moved|].
  intros Habs.
  destruct (resolve_absolutePath (process_cwd host) [workingDir fs; srcPath] Habs)
    as (os & Hos & Eos).
  destruct (resolve_absolutePath (process_cwd host) [workingDir fs; destPath] Habs)
    as (ns & Hns & Ens).
  exists os, ns. unfold src, dest, resolved. rewrite Eos, Ens.
  repeat split; auto.
  - now apply renamedKey_replaces_base.
  - apply nested_under.
Qed.


Ltac each_key Hin :=
  vm_compute in Hin;
  repeat (destruct Hin as [<-|Hin]);
  try (destruct Hin).

Lemma Dirs_rewrites_apart :
  RewritesApart Dirs.host
    (resolved Dirs.host Dirs.stagedFs "/a/dir1")
    (resolved Dirs.host Dirs.stagedFs "/a/moved")
    (stagedPathToContentMap Dirs.stagedFs).
Proof.
  split; [|split].
  - vm_compute. repeat constructor; simpl; intuition discriminate.
  - intros k Hin Hk. each_key Hin; vm_compute in Hk; try discriminate Hk;
      vm_compute; reflexivity.
  - intros k k' Hin Hin' Hk Hk' E.
    each_key Hin; vm_compute in Hk; try discriminate Hk;
      each_key Hin'; vm_compute in Hk'; try discriminate Hk';
      first [reflexivity | vm_compute in E; discriminate E].
Qed.

Lemma Dirs_nothing_lands_on_sibling k :
  In k (JsMap.keys (stagedPathToContentMap Dirs.stagedFs)) ->
  isNestedPath (resolved Dirs.host Dirs.stagedFs "/a/dir1") k = true ->
  renamedKey Dirs.host (resolved Dirs.host Dirs.stagedFs "/a/dir1")
    (resolved Dirs.host Dirs.stagedFs "/a/moved") k <> "/a/dir10/g.txt".
Proof.
  intros Hin Hk E.
  each_key Hin; vm_compute in Hk; try discriminate Hk; vm_compute in E; discriminate E.
Qed.

Lemma move_rewrites_nested_keys_witness :
  let fs' := after (moveSync Dirs.host "/a/dir1" "/a/moved" Dirs.stagedFs) in
  moveSync Dirs.host "/a/dir1" "/a/moved" Dirs.stagedFs = (Return tt, fs')
  /\ JsMap.get (stagedPathToContentMap fs') "/a/dir10/g.txt" = Some (Content (utf8 "ten"))
  /\ JsMap.get (stagedPathToContentMap fs') "/a/moved/f.txt" = Some (Content (utf8 "one"))
  /\ JsMap.get (stagedPathToContentMap fs') "/a/dir1/f.txt" = None.
Proof.
  intros fs'.
  assert (Hrun : moveSync Dirs.host "/a/dir1" "/a/moved" Dirs.stagedFs = (Return tt, fs'))
    by (vm_compute; reflexivity).
  split; [exact Hrun|].
  destruct (move_rewrites_nested_keys _ _ _ _ _ Hrun)
    as (paths & _ & Kept & _ & _ & _ & Moved & _).
  destruct (Moved Dirs_rewrites_apart "/a/dir1/f.txt" (Content (utf8 "one")))
    as [There Gone]; [vm_compute; reflexivity|vm_compute; reflexivity|].
  assert (Ek : renamedKey Dirs.host (resolved Dirs.host Dirs.stagedFs "/a/dir1")
                 (resolved Dirs.host Dirs.stagedFs "/a/moved") "/a/dir1/f.txt"
               = "/a/moved/f.txt") by (vm_compute; reflexivity).
  rewrite Ek in There.
  split; [|split; [exact There|exact Gone]].
  rewrite Kept; [vm_compute; reflexivity|vm_compute; reflexivity|].
  exact Dirs_nothing_lands_on_sibling.
Defined.

(** C5, as stated, fails where the destination is already a key: the entry
    at [/a/y] is neither the source [/a/x] nor under it, and the move
    replaces its value. *)
Lemma move_changes_an_entry_outside_the_source :
  ~ (forall host fs srcPath destPath fs' key,
       moveSync host srcPath destPath fs = (Return tt, fs') ->
       isNestedPath (resolved host fs srcPath) key = false ->
       JsMap.get (stagedPathToContentMap fs') key
       = JsMap.get (stagedPathToContentMap fs) key).
Proof.
  intros stated.
  assert (Hrun : moveSync Dirs.host "/a/x" "/a/y" Dirs.twoFiles
                 = (Return tt, after (moveSync Dirs.host "/a/x" "/a/y" Dirs.twoFiles)))
    by (vm_compute; reflexivity).
  assert (Hout : isNestedPath (resolved Dirs.host Dirs.twoFiles "/a/x") "/a/y" = false)
    by (vm_compute; reflexivity).
  specialize (stated _ _ _ _ _ _ Hrun Hout).
  vm_compute in stated. discriminate stated.
Qed.

(** ** The loop of [mkdirSync] *)

Section Mkdir.

Variable host : Host.

Lemma SameButStaged_refl fs : SameButStaged fs fs.
Proof. repeat split. Qed.

Lemma SameButStaged_trans fs1 fs2 fs3 :
  SameButStaged fs1 fs2 -> SameButStaged fs2 fs3 -> SameButStaged fs1 fs3.
Proof.
  intros (A1 & A2 & A3 & A4 & A5) (B1 & B2 & B3 & B4 & B5).
  repeat split; congruence.
Qed.

Lemma SameButStaged_staged fs map :
  SameButStaged fs (with_stagedPathToContentMap map fs).
Proof. repeat split. Qed.

Lemma OnlyMarkersAdded_refl map : OnlyMarkersAdded map map.
Proof. intros k. now left. Qed.

Lemma OnlyMarkersAdded_trans m1 m2 m3 :
  OnlyMarkersAdded m1 m2 -> OnlyMarkersAdded m2 m3 -> OnlyMarkersAdded m1 m3.
Proof.
  intros H12 H23 k. destruct (H23 k) as [E|E]; [|now right].
  rewrite E. apply H12.
Qed.

Lemma OnlyMarkersAdded_set map k :
  OnlyMarkersAdded map (JsMap.set map k STAGED_FILE_SYSTEM_DIRECTORY_SYMBOL).
Proof.
  intros k'. destruct (string_dec k k') as [->|Hne].
  - right. apply get_set_same.
  - left. now apply get_set_other.
Qed.

Lemma OnlyMarkersAdded_marker map map' k :
  OnlyMarkersAdded map map' ->
  JsMap.get map k = Some STAGED_FILE_SYSTEM_DIRECTORY_SYMBOL ->
  JsMap.get map' k = Some STAGED_FILE_SYSTEM_DIRECTORY_SYMBOL.
Proof. intros H E. destruct (H k) as [E'|E']; congruence. Qed.


Lemma mkdirLoop_step fuel dirname fs :
  mkdirLoop host (S fuel) dirname fs =
    if String.eqb dirname (workingDir fs) then (Return tt, fs)
    else match existsSync host dirname fs with
         | (Return true, s) => (Return tt, s)
         | (Return false, s) =>
             mkdirLoop host fuel (path.dirname dirname)
               (with_stagedPathToContentMap
                  (JsMap.set (stagedPathToContentMap s) dirname
                     STAGED_FILE_SYSTEM_DIRECTORY_SYMBOL) s)
         | (Throw e, s) => (Throw e, s)
         | (OutOfFuel, s) => (OutOfFuel, s)
         end.
Proof.
  simpl. unfold bind, this, ret, stage, assign.
  destruct (String.eqb dirname (workingDir fs)); [reflexivity|].
  destruct (existsSync host dirname fs) as [[[|]| |] s]; reflexivity.
Qed.

(** The loop stages directory markers and touches nothing else, however
    it ends. *)
Lemma mkdirLoop_frame fuel dirname fs :
  SameButStaged fs (after (mkdirLoop host fuel dirname fs))
  /\ OnlyMarkersAdded (stagedPathToContentMap fs)
       (stagedPathToContentMap (after (mkdirLoop host fuel dirname fs))).
Proof.
  revert dirname fs. induction fuel as [|fuel IH]; intros dirname fs.
  - split; [apply SameButStaged_refl|apply OnlyMarkersAdded_refl].
  - rewrite mkdirLoop_step.
    destruct (String.eqb dirname (workingDir fs)).
    { split; [apply SameButStaged_refl|apply OnlyMarkersAdded_refl]. }
    pose proof (existsSync_state host fs dirname) as St.
    destruct (existsSync host dirname fs) as [o s1].
    unfold after in St. simpl in St. subst s1.
    destruct o as [[|]| |];
      try (split; [apply SameButStaged_refl|apply OnlyMarkersAdded_refl]).
    destruct (IH (path.dirname dirname)
                (with_stagedPathToContentMap
                   (JsMap.set (stagedPathToContentMap fs) dirname
                      STAGED_FILE_SYSTEM_DIRECTORY_SYMBOL) fs)) as [S M].
    split.
    + eapply SameButStaged_trans; [apply SameButStaged_staged|exact S].
    + eapply OnlyMarkersAdded_trans; [apply OnlyMarkersAdded_set|exact M].
Qed.

Lemma mkdirSync_frame dirPath fs :
  SameButStaged fs (after (mkdirSync host dirPath fs))
  /\ OnlyMarkersAdded (stagedPathToContentMap fs)
       (stagedPathToContentMap (after (mkdirSync host dirPath fs))).
Proof.
  unfold mkdirSync, bind. rewrite resolvePath_run.
  destruct (Js.startsWith _ _).
  - apply mkdirLoop_frame.
  - split; [apply SameButStaged_refl|apply OnlyMarkersAdded_refl].
Qed.

Lemma canProbe_eq fs p :
  canProbe host fs p =
    if Js.startsWith (resolved host fs p) (workingDir fs) then
      match RealFileSystem.existsSync host (workingDir fs)
              (originalPathOf fs (resolved host fs p)) with
      | inr _ => true
      | inl _ => false
      end
    else false.
Proof.
  unfold canProbe, resolveOriginalPath, bind. rewrite resolvePath_run.
  destruct (Js.startsWith _ _); reflexivity.
Qed.

(** [canProbe] reads the working directory and the rename bindings only. *)
Lemma canProbe_same fs fs' p :
  workingDir fs' = workingDir fs ->
  movedPathToOriginalPathMap fs' = movedPathToOriginalPathMap fs ->
  canProbe host fs' p = canProbe host fs p.
Proof.
  intros HW HM. rewrite !canProbe_eq. unfold resolved, originalPathOf.
  now rewrite HW, HM.
Qed.

Lemma canProbe_existsSync fs p :
  canProbe host fs p = true -> exists b, existsSync host p fs = (Return b, fs).
Proof.
  rewrite canProbe_eq. intros H.
  destruct (Js.startsWith (resolved host fs p) (workingDir fs)) eqn:E;
    [|discriminate].
  assert (Hres : outcome (resolvePath host p fs) = Return (resolved host fs p))
    by (rewrite resolvePath_run, E; reflexivity).
  rewrite (existsSync_run host _ _ _ Hres).
  destruct (RealFileSystem.existsSync host (workingDir fs) _); [discriminate|].
  destruct (JsSet.has _ _); [eauto|].
  destruct (JsMap.has _ _); eauto.
Qed.

(** With the working directory [k] parents up and every path on the way
    open to [existsSync], [k + 1] iterations are enough. *)
Lemma mkdirLoop_returns k : forall dirname fs fuel,
  ancestor k dirname = workingDir fs ->
  (forall j, j < k -> canProbe host fs (ancestor j dirname) = true) ->
  k < fuel ->
  outcome (mkdirLoop host fuel dirname fs) = Return tt.
Proof.
  induction k as [|k IH]; intros dirname fs fuel Hroot Hprobe Hfuel;
    (destruct fuel as [|fuel]; [lia|]); rewrite mkdirLoop_step.
  - unfold ancestor in Hroot. simpl in Hroot. rewrite Hroot, String.eqb_refl.
    reflexivity.
  - destruct (String.eqb dirname (workingDir fs)); [reflexivity|].
    destruct (canProbe_existsSync fs dirname (Hprobe 0 ltac:(lia))) as [b Hb].
    rewrite Hb. destruct b; [reflexivity|].
    apply IH.
    + rewrite <- ancestor_succ. exact Hroot.
    + intros j Hj. rewrite (canProbe_same fs) by reflexivity.
      rewrite <- ancestor_succ. apply Hprobe. lia.
    + lia.
Qed.

Lemma mkdirSync_returns dirPath fs dirname k :
  outcome (resolvePath host dirPath fs) = Return dirname ->
  ancestor k dirname = workingDir fs ->
  (forall j, j < k -> canProbe host fs (ancestor j dirname) = true) ->
  outcome (mkdirSync host dirPath fs) = Return tt.
Proof.
  intros Hres Hroot Hprobe.
  apply resolvePath_returns in Hres. destruct Hres as (Hres & _ & _).
  unfold mkdirSync, bind. rewrite Hres.
  destruct (ancestor_bound k dirname _ Hroot) as (k' & Hle & Hlen & Hroot').
  apply (mkdirLoop_returns k'); auto.
  - intros j Hj. apply Hprobe. lia.
  - lia.
Qed.

(** More fuel does not change how the loop ends, once it ends. *)
Lemma mkdirLoop_more_fuel fuel : forall dirname fs extra,
  outcome (mkdirLoop host fuel dirname fs) <> OutOfFuel ->
  mkdirLoop host (fuel + extra) dirname fs = mkdirLoop host fuel dirname fs.
Proof.
  induction fuel as [|fuel IH]; intros dirname fs extra Hends.
  - exfalso. apply Hends. reflexivity.
  - change (S fuel + extra) with (S (fuel + extra)).
    rewrite !mkdirLoop_step in *.
    destruct (String.eqb dirname (workingDir fs)); [reflexivity|].
    destruct (existsSync host dirname fs) as [[[|]|e|] s]; try reflexivity.
    now apply IH.
Qed.

(** A tombstoned directory that is its own parent, and not the working
    directory, keeps the loop going whatever the fuel: the [while] loop of
    the source does not end there. *)
Lemma mkdirLoop_stuck fuel : forall dirname fs rp,
  path.dirname dirname = dirname ->
  dirname <> workingDir fs ->
  outcome (resolvePath host dirname fs) = Return rp ->
  JsSet.has (deletedOriginalPaths fs) (originalPathOf fs rp) = true ->
  outcome (mkdirLoop host fuel dirname fs) = OutOfFuel.
Proof.
  induction fuel as [|fuel IH]; intros dirname fs rp Hfix Hne Hres Hdel; [reflexivity|].
  rewrite mkdirLoop_step.
  destruct (String.eqb dirname (workingDir fs)) eqn:E.
  { apply String.eqb_eq in E. contradiction. }
  rewrite (existsSync_run host _ _ _ Hres), Hdel, Hfix.
  apply (IH _ _ rp); auto.
  apply (resolvePath_keeps host fs); auto.
Qed.

End Mkdir.

(** ** Writing, then reading *)

Section WriteRead.

Variable host : Host.

(** The three stages of [writeBufferSync]: the tombstone goes, the parents
    are made, the content is staged. *)
Lemma writeBufferSync_steps fs filePath data rp :
  outcome (resolvePath host filePath fs) = Return rp ->
  let fs1 := with_deletedOriginalPaths
               (JsSet.delete (deletedOriginalPaths fs) (originalPathOf fs rp)) fs in
  let made := mkdirSync host (path.dirname filePath) fs1 in
  writeBufferSync host filePath data fs =
    match outcome made with
    | Return _ =>
        (Return tt,
         with_stagedPathToContentMap
           (JsMap.set (stagedPathToContentMap (after made)) rp (Content data))
           (after made))
    | Throw e => (Throw e, after made)
    | OutOfFuel => (OutOfFuel, after made)
    end.
Proof.
  intros Hres fs1 made.
  unfold writeBufferSync, bind at 1.
  rewrite (resolveOriginalPath_run host _ _ _ Hres).
  unfold bind at 1, assign at 1. fold fs1.
  unfold bind at 1. fold made.
  destruct (mkdirSync_frame host (path.dirname filePath) fs1) as [(_ & _ & _ & HW & _) _].
  fold made in HW.
  destruct made as [o s2] eqn:Em. unfold outcome, after in *. simpl in *.
  destruct o as [[]|e|]; try reflexivity.
  assert (Hres2 : outcome (resolvePath host filePath s2) = Return rp)
    by (apply (resolvePath_keeps host fs); auto).
  apply resolvePath_returns in Hres2. destruct Hres2 as (Hres2 & _ & _).
  unfold bind. rewrite Hres2. reflexivity.
Qed.

Lemma writeBufferSync_throws fs filePath data e :
  outcome (resolvePath host filePath fs) = Throw e ->
  writeBufferSync host filePath data fs = (Throw e, fs).
Proof.
  intros H. unfold writeBufferSync, resolveOriginalPath, bind.
  rewrite resolvePath_run in *. unfold outcome in H. simpl in H.
  destruct (Js.startsWith _ _); inversion H. reflexivity.
Qed.

Lemma readBufferSync_staged fs filePath rp data :
  outcome (resolvePath host filePath fs) = Return rp ->
  JsMap.get (stagedPathToContentMap fs) rp = Some (Content data) ->
  readBufferSync host filePath fs = (Return data, fs).
Proof.
  intros Hres Hget. apply resolvePath_returns in Hres. destruct Hres as (Hres & _ & _).
  unfold readBufferSync, bind at 1. rewrite Hres.
  unfold bind at 1, readBufferStaged, bind at 1, this. rewrite Hget. reflexivity.
Qed.

Lemma readBufferSync_state fs filePath : after (readBufferSync host filePath fs) = fs.
Proof.
  unfold readBufferSync, bind at 1. rewrite resolvePath_run.
  destruct (Js.startsWith _ _); [|reflexivity].
  unfold bind at 1, readBufferStaged, bind at 1, this.
  destruct (JsMap.get _ _) as [[data|]|]; try reflexivity.
  unfold ret at 1. unfold bind at 1, resolveOriginalPath, bind at 1.
  rewrite resolvePath_run.
  destruct (Js.startsWith _ _); [|reflexivity].
  unfold bind, this, ret. rewrite realFs_run. reflexivity.
Qed.

(** A write that finds its way up to the working directory returns, and
    has staged the content at the resolved path. *)
Lemma writeBufferSync_returns fs filePath data rp dirname k :
  outcome (resolvePath host filePath fs) = Return rp ->
  outcome (resolvePath host (path.dirname filePath) fs) = Return dirname ->
  ancestor k dirname = workingDir fs ->
  (forall j, j < k -> canProbe host fs (ancestor j dirname) = true) ->
  outcome (writeBufferSync host filePath data fs) = Return tt
  /\ JsMap.get (stagedPathToContentMap (after (writeBufferSync host filePath data fs))) rp
     = Some (Content data)
  /\ workingDir (after (writeBufferSync host filePath data fs)) = workingDir fs.
Proof.
  intros Hres Hdir Hroot Hprobe.
  rewrite (writeBufferSync_steps fs filePath data rp Hres).
  set (fs1 := with_deletedOriginalPaths _ fs).
  assert (Hmade : outcome (mkdirSync host (path.dirname filePath) fs1) = Return tt).
  { apply (mkdirSync_returns host _ fs1 dirname k).
    - apply (resolvePath_keeps host fs); auto.
    - exact Hroot.
    - intros j Hj. rewrite (canProbe_same host fs) by reflexivity. auto. }
  rewrite Hmade.
  destruct (mkdirSync_frame host (path.dirname filePath) fs1) as [(_ & _ & _ & HW & _) _].
  repeat split.
  - unfold after at 1. simpl. apply get_set_same.
  - unfold after at 1. simpl. exact HW.
Qed.

End WriteRead.

(** The same step by step: the write returns, and the read after it
    returns what was written. *)
Lemma writeBufferSync_then_readBufferSync host fs filePath rp dirname k data :
  outcome (resolvePath host filePath fs) = Return rp ->
  outcome (resolvePath host (path.dirname filePath) fs) = Return dirname ->
  ancestor k dirname = workingDir fs ->
  (forall j, j < k -> canProbe host fs (ancestor j dirname) = true) ->
  exists fs', writeBufferSync host filePath data fs = (Return tt, fs')
              /\ readBufferSync host filePath fs' = (Return data, fs').
Proof.
  intros Hres Hdir Hroot Hprobe.
  destruct (writeBufferSync_returns host fs filePath data rp dirname k
              Hres Hdir Hroot Hprobe) as (Hout & Hget & HW).
  destruct (writeBufferSync host filePath data fs) as [o fs'] eqn:E.
  unfold outcome, after in *. simpl in *. subst o.
  exists fs'. split; [reflexivity|].
  apply (readBufferSync_staged host fs' filePath rp); auto.
  apply (resolvePath_keeps host fs); auto.
Qed.




(** In the usual shape: the working directory is an absolute path of clean
    segments [ws], the file is named by the absolute path of [ws] followed
    by directories [ds] and a name, and [existsSync] can answer for every
    directory from [ws] down.  Then the write returns and the read gives the
    content back. *)
Lemma write_then_read_under_working_directory host fs ws ds name data :
  forallb cleanSegment ws = true -> forallb cleanSegment ds = true ->
  cleanSegment name = true ->
  workingDir fs = absolutePath ws ->
  (forall j, j < List.length ds ->
     canProbe host fs (absolutePath (ws ++ firstn (List.length ds - j) ds)) = true) ->
  let filePath := absolutePath (ws ++ ds ++ [name]) in
  outcome ((writeBufferSync host filePath data ;;;
            readBufferSync host filePath) fs) = Return data.
Proof.
  intros Hws Hds Hname HW Hprobe filePath.
  assert (Hall : forallb cleanSegment (ws ++ ds) = true)
    by (rewrite forallb_app, Hws, Hds; reflexivity).
  assert (Hfile : forallb cleanSegment (ws ++ ds ++ [name]) = true)
    by (rewrite !forallb_app, Hws, Hds; simpl; now rewrite Hname).
  assert (Hin : forall rs, forallb cleanSegment (ws ++ rs) = true ->
            outcome (resolvePath host (absolutePath (ws ++ rs)) fs)
            = Return (absolutePath (ws ++ rs))).
  { intros rs Hrs. rewrite resolvePath_run. unfold resolved.
    rewrite (resolve_of_absolutePath _ _ _ Hrs), HW.
    now rewrite startsWith_absolutePath. }
  assert (Hparent : path.dirname filePath = absolutePath (ws ++ ds)).
  { unfold filePath. rewrite app_assoc. now apply dirname_absolutePath. }
  destruct (writeBufferSync_then_readBufferSync host fs filePath filePath
              (absolutePath (ws ++ ds)) (List.length ds) data) as (fs' & Hw & Hr).
  - now apply Hin.
  - rewrite Hparent. now apply Hin.
  - rewrite HW. now apply ancestor_absolutePath.
  - intros j Hj. rewrite ancestor_absolutePath_firstn by (auto; lia). now apply Hprobe.
  - unfold bind. now rewrite Hw, Hr.
Qed.

(** ** Making a directory where one was deleted *)

Lemma resolvePath_of_resolved host fs p rp :
  path.isAbsolute (process_cwd host) = true ->
  outcome (resolvePath host p fs) = Return rp ->
  outcome (resolvePath host rp fs) = Return rp.
Proof.
  intros Habs H. apply resolvePath_returns in H. destruct H as (_ & Hrp & Hs).
  rewrite resolvePath_run. subst rp.
  rewrite (resolved_idempotent host fs p Habs), Hs. reflexivity.
Qed.

(** C10.  Let [p] resolve to [rp] inside the working directory.  After
    [rm(p)] and then [mkdir(p)], however [mkdir] ends, the tombstone of
    [p]'s original path is still in place and [exists(p)] is [false].  When
    the working directory is reached from [rp] by taking parents and
    [existsSync] can answer on the way (as it can for a path of the real
    disk), [mkdir] returns, and (Node's [process.cwd()] being absolute) it
    has put a directory marker on [rp], unless [rp] is the working
    directory. *)
Theorem mkdir_after_rm_stays_deleted host fs p rp :
  outcome (resolvePath host p fs) = Return rp ->
  let run := (rmSync host p ;;; mkdirSync host p) fs in
  JsSet.has (deletedOriginalPaths (after run)) (originalPathOf fs rp) = true
  /\ outcome (existsSync host p (after run)) = Return false
  /\ (forall k,
        ancestor k rp = workingDir fs ->
        (forall j, j < k -> canProbe host fs (ancestor j rp) = true) ->
        outcome run = Return tt
        /\ (path.isAbsolute (process_cwd host) = true -> rp <> workingDir fs ->
            JsMap.get (stagedPathToContentMap (after run)) rp
            = Some STAGED_FILE_SYSTEM_DIRECTORY_SYMBOL)).
Proof.
  intros Hres run.
  set (fs1 := with_deletedOriginalPaths
                (JsSet.add (deletedOriginalPaths fs) (originalPathOf fs rp))
                (with_stagedPathToContentMap
                   (JsMap.delete (stagedPathToContentMap fs) rp) fs)).
  assert (Hrun : run = mkdirSync host p fs1).
  { unfold run, bind. now rewrite (rmSync_run host _ _ _ Hres). }
  rewrite Hrun. clear Hrun run.
  assert (Hres1 : outcome (resolvePath host p fs1) = Return rp)
    by (apply (resolvePath_keeps host fs); auto).
  assert (Hdel1 : JsSet.has (deletedOriginalPaths fs1) (originalPathOf fs1 rp) = true)
    by apply set_has_add_same.
  destruct (mkdirSync_frame host p fs1) as [(_ & HM & HD & HW & _) _].
  assert (Hres2 : outcome (resolvePath host p (after (mkdirSync host p fs1))) = Return rp)
    by (apply (resolvePath_keeps host fs1); auto).
  split; [rewrite HD; exact Hdel1|].
  split.
  { rewrite (existsSync_run host _ _ _ Hres2).
    unfold originalPathOf. rewrite HM, HD.
    fold (originalPathOf fs1 rp). now rewrite Hdel1. }
  intros k Hroot Hprobe. split.
  { apply (mkdirSync_returns host p fs1 rp k); auto.
    intros j Hj. rewrite (canProbe_same host fs) by reflexivity. auto. }
  intros Habs Hne.
  pose proof Hres1 as Hr. apply resolvePath_returns in Hr. destruct Hr as (Hr & _ & _).
  unfold mkdirSync, bind. rewrite Hr.
  replace (String.length rp + 2) with (S (String.length rp + 1)) by lia.
  rewrite mkdirLoop_step.
  destruct (String.eqb rp (workingDir fs1)) eqn:E.
  { apply String.eqb_eq in E. contradiction. }
  rewrite (existsSync_run host fs1 rp rp
             (resolvePath_of_resolved host fs1 p rp Habs Hres1)).
  rewrite Hdel1.
  match goal with
  | |- context [mkdirLoop host ?f ?d ?s] =>
      destruct (mkdirLoop_frame host f d s) as [_ Hmark]
  end.
  apply (OnlyMarkersAdded_marker _ _ rp Hmark).
  simpl. apply get_set_same.
Qed.

Lemma mkdir_after_rm_stays_deleted_witness :
  let run := (rmSync Fixture.host "/tmp/existing-dir" ;;;
              mkdirSync Fixture.host "/tmp/existing-dir") Fixture.stagedFs in
  outcome (existsSync Fixture.host "/tmp/existing-dir" Fixture.stagedFs) = Return true
  /\ outcome run = Return tt
  /\ JsSet.has (deletedOriginalPaths (after run)) "/tmp/existing-dir" = true
  /\ JsMap.get (stagedPathToContentMap (after run)) "/tmp/existing-dir"
     = Some STAGED_FILE_SYSTEM_DIRECTORY_SYMBOL
  /\ outcome (existsSync Fixture.host "/tmp/existing-dir" (after run)) = Return false.
Proof.
  intros run.
  split; [vm_compute; reflexivity|].
  destruct (mkdir_after_rm_stays_deleted Fixture.host Fixture.stagedFs
              "/tmp/existing-dir" "/tmp/existing-dir")
    as (Hdel & Hex & Hmk); [vm_compute; reflexivity|].
  destruct (Hmk 1) as [Hout Hmark].
  - vm_compute; reflexivity.
  - intros j Hj. destruct j as [|j]; [vm_compute; reflexivity|lia].
  - split; [exact Hout|]. split; [exact Hdel|]. split; [|exact Hex].
    apply Hmark; [vm_compute; reflexivity|].
    intros E. vm_compute in E. discriminate E.
Defined.

(** ** Staged content and tombstones *)

Section Tombstones.

Variable host : Host.



(** What [writeBufferSync] leaves, however it ends. *)
Lemma writeBufferSync_after fs filePath data :
  after (writeBufferSync host filePath data fs) = fs
  \/ exists rp fs2,
       outcome (resolvePath host filePath fs) = Return rp
       /\ SameButStaged
            (with_deletedOriginalPaths
               (JsSet.delete (deletedOriginalPaths fs) (originalPathOf fs rp)) fs) fs2
       /\ OnlyMarkersAdded (stagedPathToContentMap fs) (stagedPathToContentMap fs2)
       /\ ((outcome (writeBufferSync host filePath data fs) <> Return tt
            /\ after (writeBufferSync host filePath data fs) = fs2)
           \/ writeBufferSync host filePath data fs
              = (Return tt,
                 with_stagedPathToContentMap
                   (JsMap.set (stagedPathToContentMap fs2) rp (Content data)) fs2)).
Proof.
  destruct (outcome (resolvePath host filePath fs)) as [rp|e|] eqn:Hres.
  - right. exists rp.
    rewrite (writeBufferSync_steps host fs filePath data rp Hres).
    set (fs1 := with_deletedOriginalPaths _ fs).
    destruct (mkdirSync_frame host (path.dirname filePath) fs1) as [S Mk].
    exists (after (mkdirSync host (path.dirname filePath) fs1)).
    repeat split; try apply S; try exact Mk.
    destruct (outcome (mkdirSync host (path.dirname filePath) fs1)) as [[]|e|].
    + now right.
    + left. split; [discriminate|reflexivity].
    + left. split; [discriminate|reflexivity].
  - left. now rewrite (writeBufferSync_throws host fs filePath data e Hres).
  - rewrite resolvePath_run in Hres. unfold outcome in Hres. simpl in Hres.
    destruct (Js.startsWith _ _); discriminate.
Qed.


(** Right after a write that returns, the written path holds the content
    and the tombstone of its original path is gone. *)
Lemma writeBufferSync_clears_tombstone fs filePath data fs' :
  writeBufferSync host filePath data fs = (Return tt, fs') ->
  JsMap.get (stagedPathToContentMap fs') (resolved host fs filePath) = Some (Content data)
  /\ JsSet.has (deletedOriginalPaths fs')
       (originalPathOf fs' (resolved host fs filePath)) = false.
Proof.
  intros Hrun.
  destruct (outcome (resolvePath host filePath fs)) as [rp|e|] eqn:Hres.
  - rewrite (writeBufferSync_steps host fs filePath data rp Hres) in Hrun.
    apply resolvePath_returns in Hres. destruct Hres as (_ & <- & _).
    set (fs1 := with_deletedOriginalPaths _ fs) in Hrun.
    destruct (mkdirSync_frame host (path.dirname filePath) fs1)
      as [(_ & HM & HD & _ & _) _].
    destruct (outcome (mkdirSync host (path.dirname filePath) fs1)) as [[]|e|];
      inversion Hrun as [Hfs]. clear Hrun.
    unfold originalPathOf. simpl. rewrite HM, HD. simpl.
    split; [apply get_set_same|apply set_has_delete_same].
  - rewrite (writeBufferSync_throws host fs filePath data e Hres) in Hrun. discriminate.
  - rewrite resolvePath_run in Hres. unfold outcome in Hres. simpl in Hres.
    destruct (Js.startsWith _ _); discriminate.
Qed.


Lemma writeBufferSync_moved fs filePath data :
  movedPathToOriginalPathMap (after (writeBufferSync host filePath data fs))
  = movedPathToOriginalPathMap fs.
Proof.
  destruct (writeBufferSync_after fs filePath data)
    as [->|(rp & fs2 & _ & (_ & HM & _) & _ & Hend)]; [reflexivity|].
  destruct Hend as [[_ E]|E]; rewrite E; exact HM.
Qed.




End Tombstones.




(** ** Reading the diff off an instance *)



(** The same for the move operations: a move made after they were taken is
    in them. *)
Lemma move_operations_follow_the_overlay :
  let taken := getMoveOperations Dirs.stagedFs in
  let later := after (moveSync Dirs.host "/a/dir1" "/a/moved" Dirs.stagedFs) in
  exists moveOps,
    outcome taken = Return moveOps
    /\ deref moveOps (after taken) = []
    /\ deref moveOps later = [{| srcPath := "/a/dir1"; destPath := "/a/moved" |}].
Proof. eexists. repeat split; vm_compute; reflexivity. Qed.

(* ================================================================== *)
(** * Further properties of the overlay *)

(** ** Listing a directory *)

Section Listing.

Variable host : Host.

Lemma resolvePath_outcome fs p :
  (exists rp, outcome (resolvePath host p fs) = Return rp)
  \/ (exists e, outcome (resolvePath host p fs) = Throw e
                /\ resolvePath host p fs = (Throw e, fs)).
Proof.
  rewrite resolvePath_run. unfold outcome. simpl.
  destruct (Js.startsWith _ _); [left|right]; eauto.
Qed.

Lemma existsSync_pair fs p : existsSync host p fs = (outcome (existsSync host p fs), fs).
Proof.
  pose proof (existsSync_state host fs p) as St.
  destruct (existsSync host p fs) as [o s]. unfold after, outcome in *. simpl in *.
  now subst.
Qed.

(** How [readDirSync] runs on a path that resolves. *)
Lemma readDirSync_run fs dirPath rp :
  outcome (resolvePath host dirPath fs) = Return rp ->
  readDirSync host dirPath fs =
    (match outcome (existsSync host dirPath fs) with
     | Return true =>
         match RealFileSystem.readDirSync host (workingDir fs) (originalPathOf fs rp) with
         | inr realEntries => Return (mergeDirectoryEntries fs dirPath realEntries)
         | inl (NotFoundError _) => Return (mergeDirectoryEntries fs dirPath [])
         | inl e => Throw e
         end
     | Return false => Throw (NotFoundError dirPath)
     | Throw e => Throw e
     | OutOfFuel => OutOfFuel
     end, fs).
Proof.
  intros Hres. unfold readDirSync, bind at 1.
  rewrite (existsSync_pair fs dirPath).
  destruct (outcome (existsSync host dirPath fs)) as [[|]|e|]; try reflexivity.
  unfold outcome. cbn [fst negb]. cbv beta iota.
  unfold bind at 1, orIfNotFound, bind at 1.
  rewrite (resolveOriginalPath_run host _ _ _ Hres).
  rewrite realFs_run.
  destruct (RealFileSystem.readDirSync host (workingDir fs) (originalPathOf fs rp))
    as [[]|realEntries]; reflexivity.
Qed.

Lemma readDirSync_state fs dirPath : after (readDirSync host dirPath fs) = fs.
Proof.
  destruct (resolvePath_outcome fs dirPath) as [[rp Hres]|[e [_ Hres]]].
  - now rewrite (readDirSync_run fs dirPath rp Hres).
  - destruct (rejected_path_throws_everywhere host fs dirPath e Hres)
      as (_ & _ & _ & _ & _ & -> & _). reflexivity.
Qed.

End Listing.

(** ** Globbing *)

Section GlobFacts.

Variable host : Host.
Variable isMatch : string -> list string -> FsError + bool.

Local Abbreviation forEntries := (forEntries host isMatch).
Local Abbreviation collectAndFilter := (collectAndFilter host isMatch).

Lemma forEntries_cons recurse patterns entry more matched fs :
  forEntries recurse patterns (entry :: more) matched fs =
    if entry_isDirectory entry then
      match recurse (entry_path entry) matched fs with
      | (Return matched', s) => forEntries recurse patterns more matched' s
      | (Throw e, s) => (Throw e, s)
      | (OutOfFuel, s) => (OutOfFuel, s)
      end
    else
      let relativePath :=
        path.relative (process_cwd host) (workingDir fs) (entry_path entry) in
      match (if Nat.ltb 0 (List.length (ignoredGlobs fs))
             then isMatch relativePath (ignoredGlobs fs) else inr false) with
      | inl e => (Throw e, fs)
      | inr true => forEntries recurse patterns more matched fs
      | inr false =>
          match isMatch relativePath patterns with
          | inr true => forEntries recurse patterns more (matched ++ [entry_path entry])%list fs
          | inr false => forEntries recurse patterns more matched fs
          | inl e => (Throw e, fs)
          end
      end.
Proof.
  simpl. destruct (entry_isDirectory entry).
  - unfold bind. destruct (recurse _ _ _) as [[|e|] s]; reflexivity.
  - unfold bind at 1, this. unfold bind at 1.
    destruct (Nat.ltb 0 (List.length (ignoredGlobs fs))).
    + destruct (isMatch _ (ignoredGlobs fs)) as [e|[|]]; try reflexivity.
      unfold ret at 1.
      destruct (isMatch _ patterns) as [e|[|]]; reflexivity.
    + unfold ret at 1.
      destruct (isMatch _ patterns) as [e|[|]]; reflexivity.
Qed.

Lemma collectAndFilter_step fuel patterns dirPath matched fs :
  collectAndFilter (S fuel) patterns dirPath matched fs =
    match readDirSync host dirPath fs with
    | (Return entries, s) =>
        forEntries (collectAndFilter fuel patterns) patterns entries matched s
    | (Throw e, s) => (Throw e, s)
    | (OutOfFuel, s) => (OutOfFuel, s)
    end.
Proof.
  simpl. unfold bind. destruct (readDirSync host dirPath fs) as [[|e|] s]; reflexivity.
Qed.

Lemma forEntries_state recurse patterns :
  (forall d matched fs, after (recurse d matched fs) = fs) ->
  forall entries matched fs,
    after (forEntries recurse patterns entries matched fs) = fs.
Proof.
  intros Hrec. induction entries as [|entry more IH]; intros matched fs; [reflexivity|].
  rewrite forEntries_cons.
  destruct (entry_isDirectory entry).
  - specialize (Hrec (entry_path entry) matched fs).
    destruct (recurse _ _ _) as [[matched'|e|] s]; unfold after in Hrec; simpl in Hrec;
      subst s; [apply IH|reflexivity|reflexivity].
  - cbv zeta.
    destruct (if Nat.ltb 0 _ then _ else _) as [e|[|]]; [reflexivity|apply IH|].
    destruct (isMatch _ patterns) as [e|[|]]; [reflexivity|apply IH|apply IH].
Qed.

Lemma collectAndFilter_state fuel : forall patterns dirPath matched fs,
  after (collectAndFilter fuel patterns dirPath matched fs) = fs.
Proof.
  induction fuel as [|fuel IH]; intros patterns dirPath matched fs; [reflexivity|].
  rewrite collectAndFilter_step.
  pose proof (readDirSync_state host fs dirPath) as St.
  destruct (readDirSync host dirPath fs) as [[entries|e|] s]; unfold after in St;
    simpl in St; subst s; try reflexivity.
  apply forEntries_state. intros d m s. apply IH.
Qed.

Lemma globSync_state fuel patterns fs :
  after (globSync host isMatch fuel patterns fs) = fs.
Proof. unfold globSync, bind, this. apply collectAndFilter_state. Qed.

(** What the loop adds to [matchedFiles] is accepted. *)
Lemma forEntries_accepts recurse patterns fs :
  (forall d matched files,
     outcome (recurse d matched fs) = Return files ->
     exists found, files = (matched ++ found)%list
                   /\ Forall (globAccepts host isMatch fs patterns) found) ->
  (forall d matched, after (recurse d matched fs) = fs) ->
  forall entries matched files,
    outcome (forEntries recurse patterns entries matched fs) = Return files ->
    exists found, files = (matched ++ found)%list
                  /\ Forall (globAccepts host isMatch fs patterns) found.
Proof.
  intros Hrec Hst. induction entries as [|entry more IH]; intros matched files.
  - simpl. unfold ret, outcome. simpl. intros H. inversion H. subst.
    exists []. split; [now rewrite app_nil_r|constructor].
  - rewrite forEntries_cons.
    destruct (entry_isDirectory entry).
    + specialize (Hrec (entry_path entry) matched).
      specialize (Hst (entry_path entry) matched).
      destruct (recurse _ _ _) as [[matched'|e|] s]; unfold after, outcome in *;
        simpl in *; subst; try discriminate.
      intros H. destruct (Hrec matched' eq_refl) as (found1 & -> & Hf1).
      destruct (IH _ _ H) as (found2 & -> & Hf2).
      exists (found1 ++ found2)%list. split; [now rewrite app_assoc|].
      apply Forall_app. auto.
    + cbv zeta.
      destruct (Nat.ltb 0 (List.length (ignoredGlobs fs))) eqn:Eig.
      * destruct (isMatch _ (ignoredGlobs fs)) as [e|[|]] eqn:Ei;
          [discriminate|apply IH|].
        destruct (isMatch _ patterns) as [e|[|]] eqn:Ep; [discriminate| |apply IH].
        intros H. destruct (IH _ _ H) as (found & -> & Hf).
        exists (entry_path entry :: found). split.
        { now rewrite <- app_assoc. }
        constructor; [|exact Hf]. split; [exact Ep|now right].
      * destruct (isMatch _ patterns) as [e|[|]] eqn:Ep; [discriminate| |apply IH].
        intros H. destruct (IH _ _ H) as (found & -> & Hf).
        exists (entry_path entry :: found). split.
        { now rewrite <- app_assoc. }
        constructor; [|exact Hf]. split; [exact Ep|left].
        apply Nat.ltb_ge in Eig. destruct (ignoredGlobs fs); [reflexivity|simpl in Eig; lia].
Qed.

Lemma collectAndFilter_accepts fuel : forall patterns dirPath matched fs files,
  outcome (collectAndFilter fuel patterns dirPath matched fs) = Return files ->
  exists found, files = (matched ++ found)%list
                /\ Forall (globAccepts host isMatch fs patterns) found.
Proof.
  induction fuel as [|fuel IH]; intros patterns dirPath matched fs files;
    [discriminate|].
  rewrite collectAndFilter_step.
  pose proof (readDirSync_state host fs dirPath) as St.
  destruct (readDirSync host dirPath fs) as [[entries|e|] s]; unfold after in St;
    simpl in St; subst s; try discriminate.
  apply forEntries_accepts.
  - intros d m f. apply IH.
  - intros d m. apply collectAndFilter_state.
Qed.

(** Once the recursion ends with the fuel it has, more fuel changes
    nothing. *)
Lemma forEntries_more_fuel r1 r2 patterns :
  (forall d matched fs, outcome (r1 d matched fs) <> OutOfFuel ->
                        r2 d matched fs = r1 d matched fs) ->
  forall entries matched fs,
    outcome (forEntries r1 patterns entries matched fs) <> OutOfFuel ->
    forEntries r2 patterns entries matched fs = forEntries r1 patterns entries matched fs.
Proof.
  intros Hr. induction entries as [|entry more IH]; intros matched fs; [reflexivity|].
  rewrite !forEntries_cons.
  destruct (entry_isDirectory entry).
  - specialize (Hr (entry_path entry) matched fs).
    destruct (r1 _ _ _) as [[matched'|e|] s] eqn:E1; unfold outcome in *; simpl in *.
    + intros H. rewrite Hr by discriminate. now apply IH.
    + intros _. now rewrite Hr by discriminate.
    + intros H. exfalso. now apply H.
  - cbv zeta.
    destruct (if Nat.ltb 0 _ then _ else _) as [e|[|]]; [reflexivity|apply IH|].
    destruct (isMatch _ patterns) as [e|[|]]; [reflexivity|apply IH|apply IH].
Qed.

Lemma collectAndFilter_more_fuel fuel : forall extra patterns dirPath matched fs,
  outcome (collectAndFilter fuel patterns dirPath matched fs) <> OutOfFuel ->
  collectAndFilter (fuel + extra) patterns dirPath matched fs
  = collectAndFilter fuel patterns dirPath matched fs.
Proof.
  induction fuel as [|fuel IH]; intros extra patterns dirPath matched fs H.
  - exfalso. now apply H.
  - change (S fuel + extra) with (S (fuel + extra)).
    rewrite !collectAndFilter_step in *.
    destruct (readDirSync host dirPath fs) as [[entries|e|] s]; try reflexivity.
    apply forEntries_more_fuel; [|exact H].
    intros d m s'. apply IH.
Qed.

End GlobFacts.

(** ** Queries *)

(** How [readBufferSync] runs on a path that resolves: the staged entry
    decides, and without one the read goes to the real file system, after
    the resolved path has been resolved once more. *)
Lemma readBufferSync_run host fs filePath rp :
  outcome (resolvePath host filePath fs) = Return rp ->
  readBufferSync host filePath fs =
    (match JsMap.get (stagedPathToContentMap fs) rp with
     | Some (Content data) => Return data
     | Some STAGED_FILE_SYSTEM_DIRECTORY_SYMBOL =>
         Throw (IllegalOperationOnDirectoryError rp)
     | None =>
         if Js.startsWith (resolved host fs rp) (workingDir fs) then
           fromReal (RealFileSystem.readBufferSync host (workingDir fs)
                       (originalPathOf fs (resolved host fs rp)))
         else Throw (PlainError (outOfWorkingDirectory ++ rp))
     end, fs).
Proof.
  intros Hres. apply resolvePath_returns in Hres. destruct Hres as (Hres & _ & _).
  unfold readBufferSync, bind at 1. rewrite Hres.
  unfold bind at 1, readBufferStaged, bind at 1, this.
  destruct (JsMap.get _ _) as [[data|]|]; try reflexivity.
  unfold ret at 1. unfold bind at 1, resolveOriginalPath, bind at 1.
  rewrite resolvePath_run.
  destruct (Js.startsWith _ _); [|reflexivity].
  unfold bind, this, ret. rewrite realFs_run. unfold fromReal, originalPathOf.
  destruct (RealFileSystem.readBufferSync _ _ _); reflexivity.
Qed.


(** X1.  The queries are pure reads: [existsSync], [readBufferSync],
    [readFileSync], [readDirSync] and [globSync] leave every field of the
    instance as it was, whatever they return or throw. *)
Theorem queries_leave_the_overlay_unchanged host fs p :
  after (existsSync host p fs) = fs
  /\ after (readBufferSync host p fs) = fs
  /\ after (readFileSync host p fs) = fs
  /\ after (readDirSync host p fs) = fs
  /\ (forall isMatch fuel patterns,
        after (globSync host isMatch fuel patterns fs) = fs).
Proof.
  split; [apply existsSync_state|].
  split; [apply readBufferSync_state|].
  split.
  { unfold readFileSync, bind.
    pose proof (readBufferSync_state host fs p) as St.
    destruct (readBufferSync host p fs) as [[content|e|] s]; exact St. }
  split; [apply readDirSync_state|].
  intros isMatch fuel patterns. apply globSync_state.
Qed.

Lemma merge_nothing_staged fs dirPath realEntries :
  stagedPathToContentMap fs = [] ->
  movedPathToOriginalPathMap fs = [] ->
  deletedOriginalPaths fs = [] ->
  mergeDirectoryEntries fs dirPath realEntries = realEntries.
Proof.
  intros Hs Hm Hd.
  unfold mergeDirectoryEntries, listFilesInStagedDir, isPathDeleted,
    rewriteOriginalPathToMovedPath.
  rewrite Hs, Hm, Hd. simpl. rewrite app_nil_r.
  induction realEntries as [|[name path isDirectory] more IH]; simpl; [reflexivity|].
  now rewrite IH.
Qed.

(** X2.  An overlay in which nothing is staged, renamed or deleted (a new
    instance, say) shows the real file system: [existsSync] and
    [readBufferSync] answer as [RealFileSystem] does for the resolved path,
    and [readDirSync] lists what the real directory holds (nothing, should
    the real listing fail with [NotFoundError]). *)
Theorem untouched_overlay_reads_through host fs p rp :
  path.isAbsolute (process_cwd host) = true ->
  stagedPathToContentMap fs = [] ->
  movedPathToOriginalPathMap fs = [] ->
  deletedOriginalPaths fs = [] ->
  outcome (resolvePath host p fs) = Return rp ->
  outcome (existsSync host p fs)
  = fromReal (RealFileSystem.existsSync host (workingDir fs) rp)
  /\ outcome (readBufferSync host p fs)
     = fromReal (RealFileSystem.readBufferSync host (workingDir fs) rp)
  /\ outcome (readDirSync host p fs)
     = match RealFileSystem.existsSync host (workingDir fs) rp with
       | inr true =>
           match RealFileSystem.readDirSync host (workingDir fs) rp with
           | inr realEntries => Return realEntries
           | inl (NotFoundError _) => Return []
           | inl e => Throw e
           end
       | inr false => Throw (NotFoundError p)
       | inl e => Throw e
       end.
Proof.
  intros Habs Hs Hm Hd Hres.
  assert (Horig : originalPathOf fs rp = rp)
    by (unfold originalPathOf; now rewrite Hm).
  assert (Hex : outcome (existsSync host p fs)
                = fromReal (RealFileSystem.existsSync host (workingDir fs) rp)).
  { rewrite (existsSync_run host _ _ _ Hres), Hd, Hs, Horig. unfold outcome. simpl.
    destruct (RealFileSystem.existsSync _ _ _); reflexivity. }
  split; [exact Hex|]. split.
  - rewrite (readBufferSync_run host fs p rp Hres), Hs.
    pose proof Hres as Hr. apply resolvePath_returns in Hr.
    destruct Hr as (_ & Hrp & Hin). subst rp.
    rewrite (resolved_idempotent host fs p Habs), Hin, Horig. reflexivity.
  - rewrite (readDirSync_run host fs p rp Hres), Hex, Horig. unfold outcome. simpl.
    destruct (RealFileSystem.existsSync _ _ _) as [e|[|]]; try reflexivity.
    simpl.
    destruct (RealFileSystem.readDirSync _ _ _) as [[]|entries];
      rewrite ?merge_nothing_staged by assumption; reflexivity.
Qed.

Lemma untouched_overlay_reads_through_witness :
  outcome (existsSync Fixture.host "existing-dir" Fixture.stagedFs) = Return true
  /\ outcome (readBufferSync Fixture.host "existing-file.txt" Fixture.stagedFs)
     = Return (utf8 "existing content")
  /\ outcome (readDirSync Fixture.host "/tmp/existing-dir" Fixture.stagedFs)
     = Return [{| entry_name := "nested-file.txt";
                  entry_path := "/tmp/existing-dir/nested-file.txt";
                  entry_isDirectory := false |}].
Proof.
  destruct (untouched_overlay_reads_through Fixture.host Fixture.stagedFs
              "existing-dir" "/tmp/existing-dir") as (Hex & _ & _);
    [vm_compute; reflexivity..|].
  destruct (untouched_overlay_reads_through Fixture.host Fixture.stagedFs
              "existing-file.txt" "/tmp/existing-file.txt") as (_ & Hread & _);
    [vm_compute; reflexivity..|].
  destruct (untouched_overlay_reads_through Fixture.host Fixture.stagedFs
              "/tmp/existing-dir" "/tmp/existing-dir") as (_ & _ & Hdir);
    [vm_compute; reflexivity..|].
  split; [rewrite Hex; vm_compute; reflexivity|].
  split; [rewrite Hread; vm_compute; reflexivity|].
  rewrite Hdir. vm_compute; reflexivity.
Defined.

(** ** Removing *)

Lemma delete_delete {V} (m : JsMap.t V) k :
  JsMap.delete (JsMap.delete m k) k = JsMap.delete m k.
Proof.
  unfold JsMap.delete. induction m as [|[k' v] m IH]; simpl; [reflexivity|].
  destruct (negb (String.eqb k' k)) eqn:E; simpl; [rewrite E|]; now rewrite IH.
Qed.

Lemma add_add s x : JsSet.add (JsSet.add s x) x = JsSet.add s x.
Proof.
  unfold JsSet.add at 1. now rewrite set_has_add_same.
Qed.

Lemma has_add s x y :
  JsSet.has (JsSet.add s x) y = JsSet.has s y || String.eqb y x.
Proof.
  destruct (string_dec x y) as [->|Hne].
  - now rewrite set_has_add_same, String.eqb_refl, orb_true_r.
  - rewrite (set_has_add_other s x y Hne).
    destruct (String.eqb y x) eqn:E; [|now rewrite orb_false_r].
    apply String.eqb_eq in E. congruence.
Qed.

(** X3.  [rmSync] asks for nothing but a path inside the working
    directory: it returns whether or not anything exists there, drops the
    staged entry of the resolved path and no other, adds the original path
    to the deleted ones and no other, and leaves the move log and the
    rename bindings alone.  Removing the same path again changes nothing
    more. *)
Theorem rm_returns_and_is_idempotent host fs p rp :
  outcome (resolvePath host p fs) = Return rp ->
  let fs' := after (rmSync host p fs) in
  rmSync host p fs = (Return tt, fs')
  /\ JsMap.get (stagedPathToContentMap fs') rp = None
  /\ (forall k, k <> rp ->
        JsMap.get (stagedPathToContentMap fs') k = JsMap.get (stagedPathToContentMap fs) k)
  /\ (forall x, JsSet.has (deletedOriginalPaths fs') x
                = JsSet.has (deletedOriginalPaths fs) x
                  || String.eqb x (originalPathOf fs rp))
  /\ moveOperations fs' = moveOperations fs
  /\ movedPathToOriginalPathMap fs' = movedPathToOriginalPathMap fs
  /\ rmSync host p fs' = (Return tt, fs').
Proof.
  intros Hres fs'. unfold fs'. rewrite (rmSync_run host _ _ _ Hres).
  unfold after. cbn [snd].
  set (fs1 := with_deletedOriginalPaths _ _).
  split; [reflexivity|].
  split; [apply get_delete_same|].
  split; [intros k Hk; apply get_delete_other; congruence|].
  split; [intros x; apply has_add|].
  split; [reflexivity|]. split; [reflexivity|].
  assert (Hres1 : outcome (resolvePath host p fs1) = Return rp)
    by (apply (resolvePath_keeps host fs); auto).
  rewrite (rmSync_run host _ _ _ Hres1).
  unfold fs1, originalPathOf, with_deletedOriginalPaths, with_stagedPathToContentMap.
  cbn [deletedOriginalPaths stagedPathToContentMap movedPathToOriginalPathMap
       moveOperations workingDir ignoredGlobs].
  now rewrite add_add, delete_delete.
Qed.

Lemma rm_returns_and_is_idempotent_witness :
  (* nothing is at [/tmp/nonexistent.txt], on the disk or in the overlay *)
  outcome (existsSync Fixture.host "/tmp/nonexistent.txt" Fixture.stagedFs) = Return false
  /\ outcome (rmSync Fixture.host "/tmp/nonexistent.txt" Fixture.stagedFs) = Return tt
  /\ deletedOriginalPaths
       (after ((rmSync Fixture.host "/tmp/nonexistent.txt" ;;;
                rmSync Fixture.host "/tmp/nonexistent.txt") Fixture.stagedFs))
     = ["/tmp/nonexistent.txt"].
Proof.
  split; [vm_compute; reflexivity|].
  destruct (rm_returns_and_is_idempotent Fixture.host Fixture.stagedFs
              "/tmp/nonexistent.txt" "/tmp/nonexistent.txt")
    as (Hrun & _ & _ & _ & _ & _ & Hagain); [vm_compute; reflexivity|].
  split; [now rewrite Hrun|].
  unfold bind. rewrite Hrun, Hagain. vm_compute; reflexivity.
Defined.

(** ** Calls that fail *)

Lemma rmSync_atomic host fs p :
  outcome (rmSync host p fs) = Return tt \/ after (rmSync host p fs) = fs.
Proof.
  destruct (resolvePath_outcome host fs p) as [[rp Hres]|[e [_ Hres]]].
  - left. now rewrite (rmSync_run host _ _ _ Hres).
  - right. destruct (rejected_path_throws_everywhere host fs p e Hres)
      as (_ & _ & _ & -> & _). reflexivity.
Qed.

Lemma moveSync_ends host fs srcPath destPath o s :
  moveSync host srcPath destPath fs = (o, s) -> o = Return tt \/ s = fs.
Proof.
  unfold moveSync, bind at 1.
  rewrite resolvePath_run.
  destruct (Js.startsWith (resolved host fs srcPath) _) eqn:Es;
    [|intros H; inversion H; now right].
  unfold bind at 1. rewrite resolvePath_run.
  destruct (Js.startsWith (resolved host fs destPath) _) eqn:Ed;
    [|intros H; inversion H; now right].
  unfold bind at 1.
  rewrite (existsSync_pair host fs (resolved host fs srcPath)).
  destruct (outcome (existsSync host (resolved host fs srcPath) fs))
    as [[|]|e|] eqn:E1; try (intros H; inversion H; now right).
  cbn [negb]. cbv beta iota. unfold bind at 1.
  rewrite (existsSync_pair host fs (path.dirname (resolved host fs destPath))).
  destruct (outcome (existsSync host (path.dirname (resolved host fs destPath)) fs))
    as [[|]|e|] eqn:E2; try (intros H; inversion H; now right).
  cbn [negb]. cbv beta iota. unfold bind at 1.
  assert (Hres : outcome (resolvePath host (resolved host fs srcPath) fs)
                 = Return (resolved host fs (resolved host fs srcPath)))
    by (apply (existsSync_true_resolves host fs _ true); exact E1).
  rewrite (resolveOriginalPath_run host _ _ _ Hres).
  unfold bind at 1, FastGlob_sync, bind at 1, this.
  destruct (fastGlobSync host (ignoredGlobs fs) _) as [code|paths];
    [intros H; inversion H; now right|].
  unfold ret at 1. unfold bind at 1.
  rewrite forOf_assign.
  intros H. inversion H. now left.
Qed.

Lemma moveSync_atomic host fs srcPath destPath :
  outcome (moveSync host srcPath destPath fs) = Return tt
  \/ after (moveSync host srcPath destPath fs) = fs.
Proof.
  destruct (moveSync host srcPath destPath fs) as [o s] eqn:E.
  apply moveSync_ends in E. exact E.
Qed.

(** X4.  A call of [rmSync] or [moveSync] that does not return has changed
    nothing: each of them throws, if at all, before it first writes to a
    field. *)
Theorem failed_rm_or_move_changes_nothing host fs :
  (forall p,
     outcome (rmSync host p fs) = Return tt \/ after (rmSync host p fs) = fs)
  /\ (forall srcPath destPath,
        outcome (moveSync host srcPath destPath fs) = Return tt
        \/ after (moveSync host srcPath destPath fs) = fs).
Proof.
  split; [apply rmSync_atomic|apply moveSync_atomic].
Qed.

(** X5.  [moveSync] looks for the source and for the parent of the
    destination, in this order, through [existsSync]: a source that does
    not exist makes it throw [NotFoundError] with the resolved source, a
    missing parent [NotFoundError] with that parent; in either case nothing
    is changed. *)
Theorem move_needs_source_and_destination_parent host fs srcPath destPath src dest :
  outcome (resolvePath host srcPath fs) = Return src ->
  outcome (resolvePath host destPath fs) = Return dest ->
  (outcome (existsSync host src fs) = Return false ->
   moveSync host srcPath destPath fs = (Throw (NotFoundError src), fs))
  /\ (outcome (existsSync host src fs) = Return true ->
      outcome (existsSync host (path.dirname dest) fs) = Return false ->
      moveSync host srcPath destPath fs
      = (Throw (NotFoundError (path.dirname dest)), fs)).
Proof.
  intros Hs Hd.
  apply resolvePath_returns in Hs. destruct Hs as (Hs & _ & _).
  apply resolvePath_returns in Hd. destruct Hd as (Hd & _ & _).
  split.
  - intros Hsrc. unfold moveSync, bind at 1. rewrite Hs.
    unfold bind at 1. rewrite Hd. unfold bind at 1.
    rewrite (existsSync_pair host fs src), Hsrc. reflexivity.
  - intros Hsrc Hparent. unfold moveSync, bind at 1. rewrite Hs.
    unfold bind at 1. rewrite Hd. unfold bind at 1.
    rewrite (existsSync_pair host fs src), Hsrc.
    cbn [negb]. cbv beta iota. unfold bind at 1.
    rewrite (existsSync_pair host fs (path.dirname dest)), Hparent. reflexivity.
Qed.

Lemma move_needs_source_and_destination_parent_witness :
  moveSync Fixture.host "/tmp/nonexistent.txt" "/tmp/dest.txt" Fixture.stagedFs
  = (Throw (NotFoundError "/tmp/nonexistent.txt"), Fixture.stagedFs)
  /\ (let written := after (writeFileSync Fixture.host "/tmp/src.txt" "test"
                              Fixture.stagedFs) in
      moveSync Fixture.host "/tmp/src.txt" "/tmp/nonexistent/dest.txt" written
      = (Throw (NotFoundError "/tmp/nonexistent"), written)).
Proof.
  split.
  - destruct (move_needs_source_and_destination_parent Fixture.host Fixture.stagedFs
                "/tmp/nonexistent.txt" "/tmp/dest.txt"
                "/tmp/nonexistent.txt" "/tmp/dest.txt") as [Hmissing _];
      [vm_compute; reflexivity..|].
    apply Hmissing. vm_compute; reflexivity.
  - intros written.
    destruct (move_needs_source_and_destination_parent Fixture.host written
                "/tmp/src.txt" "/tmp/nonexistent/dest.txt"
                "/tmp/src.txt" "/tmp/nonexistent/dest.txt") as [_ Hparent];
      [vm_compute; reflexivity..|].
    assert (E : path.dirname "/tmp/nonexistent/dest.txt" = "/tmp/nonexistent")
      by (vm_compute; reflexivity).
    rewrite E in Hparent.
    apply Hparent; vm_compute; reflexivity.
Defined.

(** ** Making directories *)

Lemma dirname_of_absolutePath segs :
  forallb cleanSegment segs = true ->
  exists segs', forallb cleanSegment segs' = true
                /\ path.dirname (absolutePath segs) = absolutePath segs'.
Proof.
  intros Hsegs. destruct segs as [|seg0 more].
  - exists []. split; reflexivity.
  - destruct (@exists_last _ (seg0 :: more)) as (front & last & E); [discriminate|].
    rewrite E in *. rewrite forallb_app in Hsegs.
    apply andb_true_iff in Hsegs. destruct Hsegs as [Hfront Hlast].
    simpl in Hlast. rewrite andb_true_r in Hlast.
    exists front. split; [exact Hfront|]. now apply dirname_absolutePath.
Qed.

Lemma resolvePath_absolutePath host fs segs :
  forallb cleanSegment segs = true ->
  resolvePath host (absolutePath segs) fs =
    (if Js.startsWith (absolutePath segs) (workingDir fs)
     then Return (absolutePath segs)
     else Throw (PlainError (outOfWorkingDirectory ++ absolutePath segs)), fs).
Proof.
  intros Hsegs. rewrite resolvePath_run. unfold resolved.
  now rewrite (resolve_of_absolutePath _ _ _ Hsegs).
Qed.

(** The loop never puts a marker where staged file content is that
    [existsSync] can see. *)
Lemma mkdirLoop_keeps_content host fuel : forall segs fs k data,
  forallb cleanSegment segs = true ->
  JsMap.get (stagedPathToContentMap fs) k = Some (Content data) ->
  JsSet.has (deletedOriginalPaths fs) (originalPathOf fs k) = false ->
  JsMap.get (stagedPathToContentMap (after (mkdirLoop host fuel (absolutePath segs) fs))) k
  = Some (Content data).
Proof.
  induction fuel as [|fuel IH]; intros segs fs k data Hsegs Hget Hlive; [exact Hget|].
  rewrite mkdirLoop_step.
  destruct (String.eqb (absolutePath segs) (workingDir fs)); [exact Hget|].
  pose proof (resolvePath_absolutePath host fs segs Hsegs) as Hres.
  destruct (Js.startsWith (absolutePath segs) (workingDir fs)).
  - assert (Hr : outcome (resolvePath host (absolutePath segs) fs)
                 = Return (absolutePath segs)) by now rewrite Hres.
    rewrite (existsSync_run host _ _ _ Hr).
    destruct (dirname_of_absolutePath segs Hsegs) as (segs' & Hsegs' & ->).
    assert (Hstep : absolutePath segs <> k ->
              JsMap.get
                (stagedPathToContentMap
                   (after (mkdirLoop host fuel (absolutePath segs')
                             (with_stagedPathToContentMap
                                (JsMap.set (stagedPathToContentMap fs) (absolutePath segs)
                                   STAGED_FILE_SYSTEM_DIRECTORY_SYMBOL) fs)))) k
              = Some (Content data)).
    { intros Hne. apply IH; [exact Hsegs'| |exact Hlive].
      cbn [stagedPathToContentMap with_stagedPathToContentMap].
      now rewrite get_set_other. }
    destruct (JsSet.has _ (originalPathOf fs (absolutePath segs))) eqn:Edel.
    { apply Hstep. intros E. rewrite E in Edel. congruence. }
    destruct (JsMap.has _ (absolutePath segs)) eqn:Ehas; [exact Hget|].
    destruct (RealFileSystem.existsSync _ _ _) as [e|[|]]; try exact Hget.
    apply Hstep. intros E. rewrite E in Ehas. unfold JsMap.has in Ehas.
    now rewrite Hget in Ehas.
  - rewrite (existsSync_throws host fs _ _ ltac:(now rewrite Hres)). exact Hget.
Qed.

Lemma mkdirSync_keeps_content host fs dirPath k data :
  path.isAbsolute (process_cwd host) = true ->
  JsMap.get (stagedPathToContentMap fs) k = Some (Content data) ->
  JsSet.has (deletedOriginalPaths fs) (originalPathOf fs k) = false ->
  JsMap.get (stagedPathToContentMap (after (mkdirSync host dirPath fs))) k
  = Some (Content data).
Proof.
  intros Habs Hget Hlive. unfold mkdirSync, bind. rewrite resolvePath_run.
  destruct (Js.startsWith _ _); [|exact Hget].
  unfold resolved.
  destruct (resolve_absolutePath (process_cwd host) [workingDir fs; dirPath] Habs)
    as (segs & Hsegs & ->).
  now apply mkdirLoop_keeps_content.
Qed.

Lemma startsWith_refl s : Js.startsWith s s = true.
Proof. rewrite <- (append_empty s) at 1. apply startsWith_append. Qed.

(** X6.  [mkdirSync], however it ends, has changed the staged-content map
    only, and there it has only put directory markers: every key holds what
    it held before or a marker, and staged file content that [existsSync]
    can see (its original path is not deleted) stays as it is.  On a path
    that resolves to the working directory it does nothing at all. *)
Theorem mkdir_only_adds_directory_markers host fs dirPath :
  let fs' := after (mkdirSync host dirPath fs) in
  SameButStaged fs fs'
  /\ OnlyMarkersAdded (stagedPathToContentMap fs) (stagedPathToContentMap fs')
  /\ (path.isAbsolute (process_cwd host) = true ->
      forall k data,
        JsMap.get (stagedPathToContentMap fs) k = Some (Content data) ->
        JsSet.has (deletedOriginalPaths fs) (originalPathOf fs k) = false ->
        JsMap.get (stagedPathToContentMap fs') k = Some (Content data))
  /\ (resolved host fs dirPath = workingDir fs ->
      mkdirSync host dirPath fs = (Return tt, fs)).
Proof.
  intros fs'. destruct (mkdirSync_frame host dirPath fs) as [Same Mk].
  split; [exact Same|]. split; [exact Mk|]. split.
  - intros Habs k data. now apply mkdirSync_keeps_content.
  - intros E. unfold mkdirSync, bind. rewrite resolvePath_run, E, startsWith_refl.
    replace (String.length (workingDir fs) + 2) with (S (String.length (workingDir fs) + 1))
      by lia.
    now rewrite mkdirLoop_step, String.eqb_refl.
Qed.

(** X7.  A call [mkdir(p)] that returns leaves [p] existing, and a second
    call then changes nothing, provided [p] is not the working directory
    and the original path of [p] has not been deleted. *)
Theorem mkdir_then_exists host fs p rp fs' :
  path.isAbsolute (process_cwd host) = true ->
  outcome (resolvePath host p fs) = Return rp ->
  rp <> workingDir fs ->
  JsSet.has (deletedOriginalPaths fs) (originalPathOf fs rp) = false ->
  mkdirSync host p fs = (Return tt, fs') ->
  outcome (existsSync host p fs') = Return true
  /\ mkdirSync host p fs' = (Return tt, fs').
Proof.
  intros Habs Hres Hne Hlive Hrun.
  pose proof (resolvePath_of_resolved host fs p rp Habs Hres) as Hres2.
  pose proof Hres as Hr. apply resolvePath_returns in Hr. destruct Hr as (Hr & _ & _).
  assert (Hfuel : String.length rp + 2 = S (String.length rp + 1)) by lia.
  assert (Hneb : String.eqb rp (workingDir fs) = false) by now apply String.eqb_neq.
  (* the state after the call: the same, or one with a marker on [rp] *)
  assert (Hfs' : (fs' = fs /\ outcome (existsSync host rp fs) = Return true)
                 \/ (SameButStaged fs fs'
                     /\ JsMap.get (stagedPathToContentMap fs') rp
                        = Some STAGED_FILE_SYSTEM_DIRECTORY_SYMBOL)).
  { revert Hrun. unfold mkdirSync, bind. rewrite Hr, Hfuel, mkdirLoop_step, Hneb.
    rewrite (existsSync_pair host fs rp).
    destruct (outcome (existsSync host rp fs)) as [[|]|e|]; try discriminate.
    - intros H. inversion H. now left.
    - intros H. right.
      match type of H with
      | mkdirLoop host ?f ?d ?s = _ =>
          destruct (mkdirLoop_frame host f d s) as [Same Mk]; rewrite H in Same, Mk
      end.
      unfold after in Same, Mk. cbn [snd] in Same, Mk. split.
      + eapply SameButStaged_trans; [apply SameButStaged_staged|exact Same].
      + apply (OnlyMarkersAdded_marker _ _ rp Mk). apply get_set_same. }
  destruct Hfs' as [[-> Hex]|[(_ & HM & HD & HW & _) Hmark]].
  - split; [|exact Hrun].
    rewrite (existsSync_run host _ _ _ Hres2) in Hex.
    now rewrite (existsSync_run host _ _ _ Hres).
  - assert (Hex : forall q, outcome (resolvePath host q fs) = Return rp ->
                    existsSync host q fs' = (Return true, fs')).
    { intros q Hq.
      rewrite (existsSync_run host fs' q rp) by (apply (resolvePath_keeps host fs); auto).
      unfold originalPathOf, JsMap.has. rewrite HM, HD, Hmark.
      fold (originalPathOf fs rp). now rewrite Hlive. }
    split; [now rewrite (Hex p Hres)|].
    unfold mkdirSync, bind.
    assert (Hr' : resolvePath host p fs' = (Return rp, fs')).
    { assert (H := resolvePath_keeps host fs fs' p rp HW Hres).
      apply resolvePath_returns in H. tauto. }
    rewrite Hr', Hfuel, mkdirLoop_step, HW, Hneb, (Hex rp Hres2). reflexivity.
Qed.

Lemma mkdir_then_exists_witness :
  let made := after (mkdirSync Fixture.host "/tmp/nested/deep/path" Fixture.stagedFs) in
  mkdirSync Fixture.host "/tmp/nested/deep/path" Fixture.stagedFs = (Return tt, made)
  /\ outcome (existsSync Fixture.host "/tmp/nested/deep/path" made) = Return true
  /\ mkdirSync Fixture.host "/tmp/nested/deep/path" made = (Return tt, made)
  /\ JsMap.keys (stagedPathToContentMap made)
     = ["/tmp/nested/deep/path"; "/tmp/nested/deep"; "/tmp/nested"].
Proof.
  intros made.
  assert (Hrun : mkdirSync Fixture.host "/tmp/nested/deep/path" Fixture.stagedFs
                 = (Return tt, made)) by (vm_compute; reflexivity).
  split; [exact Hrun|].
  destruct (mkdir_then_exists Fixture.host Fixture.stagedFs "/tmp/nested/deep/path"
              "/tmp/nested/deep/path" made) as [Hex Hagain].
  - vm_compute; reflexivity.
  - vm_compute; reflexivity.
  - intros E. vm_compute in E. discriminate E.
  - vm_compute; reflexivity.
  - exact Hrun.
  - split; [exact Hex|]. split; [exact Hagain|]. vm_compute; reflexivity.
Defined.

(** ** Writing and what it leaves alone *)

Lemma writeBufferSync_workingDir host fs filePath data :
  workingDir (after (writeBufferSync host filePath data fs)) = workingDir fs.
Proof.
  destruct (writeBufferSync_after host fs filePath data)
    as [->|(rp & fs2 & _ & (_ & _ & _ & HW & _) & _ & Hend)]; [reflexivity|].
  destruct Hend as [[_ E]|E]; rewrite E; exact HW.
Qed.

Lemma writeBufferSync_resolves host fs filePath data fs' :
  writeBufferSync host filePath data fs = (Return tt, fs') ->
  outcome (resolvePath host filePath fs) = Return (resolved host fs filePath).
Proof.
  intros Hrun.
  destruct (resolvePath_outcome host fs filePath) as [[rp Hres]|[e [Hres _]]].
  - rewrite Hres. apply resolvePath_returns in Hres. destruct Hres as (_ & -> & _).
    reflexivity.
  - rewrite (writeBufferSync_throws host fs filePath data e Hres) in Hrun. discriminate.
Qed.

(** X8.  A write that returns leaves the written path existing, whatever
    the state before: also where the path, or the original path it stands
    for, had been removed. *)
Theorem write_then_exists host fs filePath data fs' :
  writeBufferSync host filePath data fs = (Return tt, fs') ->
  outcome (existsSync host filePath fs') = Return true.
Proof.
  intros Hrun.
  pose proof (writeBufferSync_resolves host fs filePath data fs' Hrun) as Hres.
  destruct (writeBufferSync_clears_tombstone host fs filePath data fs' Hrun)
    as [Hget Hlive].
  assert (HW : workingDir fs' = workingDir fs).
  { pose proof (writeBufferSync_workingDir host fs filePath data) as H.
    now rewrite Hrun in H. }
  rewrite (existsSync_run host fs' filePath (resolved host fs filePath))
    by (apply (resolvePath_keeps host fs); auto).
  unfold JsMap.has. now rewrite Hlive, Hget.
Qed.

Lemma write_then_exists_witness :
  let removed := after (rmSync Fixture.host "/tmp/existing-file.txt" Fixture.stagedFs) in
  let written := after (writeFileSync Fixture.host "/tmp/existing-file.txt" "again"
                          removed) in
  outcome (existsSync Fixture.host "/tmp/existing-file.txt" removed) = Return false
  /\ outcome (existsSync Fixture.host "/tmp/existing-file.txt" written) = Return true.
Proof.
  intros removed written.
  split; [vm_compute; reflexivity|].
  apply (write_then_exists Fixture.host removed "/tmp/existing-file.txt" (utf8 "again")).
  vm_compute; reflexivity.
Defined.

(** X9.  A write, however it ends, leaves alone the staged file content
    of every other path that [existsSync] can see: neither the parents it
    makes nor the entry it stages replace it, and the content is read as
    before. *)
Theorem write_keeps_other_staged_files host fs filePath data q k content :
  path.isAbsolute (process_cwd host) = true ->
  outcome (resolvePath host q fs) = Return k ->
  JsMap.get (stagedPathToContentMap fs) k = Some (Content content) ->
  JsSet.has (deletedOriginalPaths fs) (originalPathOf fs k) = false ->
  k <> resolved host fs filePath ->
  let fs' := after (writeBufferSync host filePath data fs) in
  JsMap.get (stagedPathToContentMap fs') k = Some (Content content)
  /\ readBufferSync host q fs' = (Return content, fs')
  /\ outcome (existsSync host q fs') = Return true.
Proof.
  intros Habs Hq Hget Hlive Hne fs'.
  assert (Hkeep : JsMap.get (stagedPathToContentMap fs') k = Some (Content content)
                  /\ JsSet.has (deletedOriginalPaths fs') (originalPathOf fs' k) = false).
  { unfold fs'.
    destruct (resolvePath_outcome host fs filePath) as [[rp Hres]|[e [Hres _]]].
    - rewrite (writeBufferSync_steps host fs filePath data rp Hres).
      apply resolvePath_returns in Hres. destruct Hres as (_ & Hrp & _).
      set (fs1 := with_deletedOriginalPaths _ fs).
      assert (Hlive1 : JsSet.has (deletedOriginalPaths fs1) (originalPathOf fs1 k) = false)
        by (apply set_has_delete_false; exact Hlive).
      pose proof (mkdirSync_keeps_content host fs1 (path.dirname filePath) k content
                    Habs Hget Hlive1) as Hmade.
      destruct (mkdirSync_frame host (path.dirname filePath) fs1)
        as [(_ & HM & HD & _ & _) _].
      assert (Hlive2 : JsSet.has
                (deletedOriginalPaths (after (mkdirSync host (path.dirname filePath) fs1)))
                (originalPathOf (after (mkdirSync host (path.dirname filePath) fs1)) k)
              = false)
        by (unfold originalPathOf; rewrite HM, HD; exact Hlive1).
      destruct (outcome (mkdirSync host (path.dirname filePath) fs1)) as [[]|e|];
        unfold after at 1 3; cbn [snd]; try (split; assumption).
      split; [|exact Hlive2].
      cbn [stagedPathToContentMap with_stagedPathToContentMap].
      rewrite get_set_other by congruence. exact Hmade.
    - rewrite (writeBufferSync_throws host fs filePath data e Hres).
      unfold after. cbn [snd]. auto. }
  destruct Hkeep as [Hget' Hlive'].
  assert (Hq' : outcome (resolvePath host q fs') = Return k).
  { apply (resolvePath_keeps host fs); [|exact Hq].
    apply writeBufferSync_workingDir. }
  split; [exact Hget'|]. split.
  - now apply (readBufferSync_staged host fs' q k).
  - rewrite (existsSync_run host _ _ _ Hq'). unfold JsMap.has.
    now rewrite Hlive', Hget'.
Qed.

Lemma write_keeps_other_staged_files_witness :
  let fs := after (writeFileSync Fixture.host "/tmp/subdir/file3.txt" "content3"
                     Fixture.stagedFs) in
  let fs' := after (writeFileSync Fixture.host "/tmp/subdir/deeper/file4.js" "content4"
                      fs) in
  readBufferSync Fixture.host "subdir/file3.txt" fs' = (Return (utf8 "content3"), fs')
  /\ outcome (readBufferSync Fixture.host "/tmp/subdir/deeper/file4.js" fs')
     = Return (utf8 "content4").
Proof.
  intros fs fs'. split; [|vm_compute; reflexivity].
  destruct (write_keeps_other_staged_files Fixture.host fs
              "/tmp/subdir/deeper/file4.js" (utf8 "content4")
              "subdir/file3.txt" "/tmp/subdir/file3.txt" (utf8 "content3"))
    as (_ & Hread & _).
  - vm_compute; reflexivity.
  - vm_compute; reflexivity.
  - vm_compute; reflexivity.
  - vm_compute; reflexivity.
  - intros E. vm_compute in E. discriminate E.
  - exact Hread.
Defined.

(** ** Reading what was removed, and copying *)

(** X10.  [readBufferSync] does not look at the deleted paths.  After
    [rm(p)] the staged entry of [p] is gone, and a read of [p] goes to the
    real file system at the original path of [p]: it throws
    [NotFoundError] where no such file is on the disk, and it still
    returns the content of a file that is. *)
Theorem rm_then_read_falls_through host fs p rp :
  path.isAbsolute (process_cwd host) = true ->
  outcome (resolvePath host p fs) = Return rp ->
  outcome ((rmSync host p ;;; readBufferSync host p) fs)
  = fromReal (RealFileSystem.readBufferSync host (workingDir fs) (originalPathOf fs rp)).
Proof.
  intros Habs Hres. unfold bind. rewrite (rmSync_run host _ _ _ Hres).
  set (fs1 := with_deletedOriginalPaths _ _).
  assert (Hres1 : outcome (resolvePath host p fs1) = Return rp)
    by (apply (resolvePath_keeps host fs); auto).
  rewrite (readBufferSync_run host fs1 p rp Hres1).
  apply resolvePath_returns in Hres. destruct Hres as (_ & Hrp & Hin).
  unfold outcome. cbn [fst].
  assert (Hgone : JsMap.get (stagedPathToContentMap fs1) rp = None)
    by apply get_delete_same.
  rewrite Hgone.
  assert (Hsame : resolved host fs1 rp = rp).
  { subst rp. apply (resolved_idempotent host fs p Habs). }
  rewrite Hsame.
  change (workingDir fs1) with (workingDir fs). now rewrite Hin.
Qed.

Lemma rm_then_read_falls_through_witness :
  (* a file of the real disk is still read *)
  outcome ((rmSync Fixture.host "/tmp/existing-file.txt" ;;;
            readBufferSync Fixture.host "/tmp/existing-file.txt") Fixture.stagedFs)
  = Return (utf8 "existing content")
  (* a file of the overlay is gone *)
  /\ (let written := after (writeFileSync Fixture.host "/tmp/test.txt" "test"
                              Fixture.stagedFs) in
      outcome (readBufferSync Fixture.host "/tmp/test.txt" written) = Return (utf8 "test")
      /\ outcome ((rmSync Fixture.host "/tmp/test.txt" ;;;
                   readBufferSync Fixture.host "/tmp/test.txt") written)
         = Throw (NotFoundError "/tmp/test.txt")).
Proof.
  split.
  - rewrite (rm_then_read_falls_through Fixture.host Fixture.stagedFs
               "/tmp/existing-file.txt" "/tmp/existing-file.txt");
      vm_compute; reflexivity.
  - intros written. split; [vm_compute; reflexivity|].
    rewrite (rm_then_read_falls_through Fixture.host written
               "/tmp/test.txt" "/tmp/test.txt");
      vm_compute; reflexivity.
Defined.

(** X11.  [copySync] reads the source and writes what it read: where the
    source can be read and the destination can be written (its parent
    leads up to the working directory, [existsSync] answering on the way),
    the copy returns and a read of the destination gives the content of the
    source. *)
Theorem copy_then_read host fs srcPath destPath data rp dirname k :
  outcome (readBufferSync host srcPath fs) = Return data ->
  outcome (resolvePath host destPath fs) = Return rp ->
  outcome (resolvePath host (path.dirname destPath) fs) = Return dirname ->
  ancestor k dirname = workingDir fs ->
  (forall j, j < k -> canProbe host fs (ancestor j dirname) = true) ->
  outcome ((copySync host srcPath destPath ;;; readBufferSync host destPath) fs)
  = Return data.
Proof.
  intros Hsrc Hres Hdir Hroot Hprobe.
  pose proof (readBufferSync_state host fs srcPath) as St.
  unfold copySync, bind.
  destruct (readBufferSync host srcPath fs) as [o s]. unfold outcome, after in *.
  cbn [fst snd] in *. subst o s.
  destruct (writeBufferSync_then_readBufferSync host fs destPath rp dirname k data
              Hres Hdir Hroot Hprobe) as (fs' & Hw & Hr).
  now rewrite Hw, Hr.
Qed.

Lemma copy_then_read_witness :
  outcome ((copySync Fixture.host "/tmp/existing-file.txt" "/tmp/copied-existing.txt" ;;;
            readBufferSync Fixture.host "/tmp/copied-existing.txt") Fixture.stagedFs)
  = Return (utf8 "existing content").
Proof.
  apply (copy_then_read Fixture.host Fixture.stagedFs
           "/tmp/existing-file.txt" "/tmp/copied-existing.txt" (utf8 "existing content")
           "/tmp/copied-existing.txt" "/tmp" 0).
  - vm_compute; reflexivity.
  - vm_compute; reflexivity.
  - vm_compute; reflexivity.
  - vm_compute; reflexivity.
  - intros j Hj. lia.
Defined.

(** X12.  A path that is staged as a directory cannot be read:
    [readBufferSync] and [readFileSync] throw
    [IllegalOperationOnDirectoryError] with the resolved path, without
    asking the real file system, and [copySync] from it throws the same
    before it looks at the destination; nothing is changed. *)
Theorem staged_directory_cannot_be_read host fs p rp :
  outcome (resolvePath host p fs) = Return rp ->
  JsMap.get (stagedPathToContentMap fs) rp = Some STAGED_FILE_SYSTEM_DIRECTORY_SYMBOL ->
  readBufferSync host p fs = (Throw (IllegalOperationOnDirectoryError rp), fs)
  /\ readFileSync host p fs = (Throw (IllegalOperationOnDirectoryError rp), fs)
  /\ (forall destPath,
        copySync host p destPath fs = (Throw (IllegalOperationOnDirectoryError rp), fs)).
Proof.
  intros Hres Hget.
  assert (Hread : readBufferSync host p fs
                  = (Throw (IllegalOperationOnDirectoryError rp), fs))
    by (rewrite (readBufferSync_run host fs p rp Hres), Hget; reflexivity).
  split; [exact Hread|].
  split; [|intros destPath]; unfold readFileSync, copySync, bind; now rewrite Hread.
Qed.

Lemma staged_directory_cannot_be_read_witness :
  let made := after (mkdirSync Fixture.host "/tmp/test-dir" Fixture.stagedFs) in
  readFileSync Fixture.host "test-dir" made
  = (Throw (IllegalOperationOnDirectoryError "/tmp/test-dir"), made)
  /\ copySync Fixture.host "test-dir" "/outside/copy" made
     = (Throw (IllegalOperationOnDirectoryError "/tmp/test-dir"), made).
Proof.
  intros made.
  destruct (staged_directory_cannot_be_read Fixture.host made "test-dir" "/tmp/test-dir")
    as (_ & Hfile & Hcopy); [vm_compute; reflexivity..|].
  split; [exact Hfile|apply Hcopy].
Defined.

(** ** Listing a directory: failures, staged entries, names *)

(** X13.  [readDirSync] first asks [existsSync]: a directory that does
    not exist gives [NotFoundError] with the path as it was passed.  Of the
    failures of the real listing only [ENOENT] is taken for an empty
    directory (so a directory that is in the overlay only lists its staged
    entries); any other is thrown, mapped by [mapFsError] with the original
    path. *)
Theorem readDir_failures host fs dirPath rp :
  outcome (resolvePath host dirPath fs) = Return rp ->
  (outcome (existsSync host dirPath fs) = Return false ->
   readDirSync host dirPath fs = (Throw (NotFoundError dirPath), fs))
  /\ (outcome (existsSync host dirPath fs) = Return true ->
      forall real code,
        RealFileSystem.resolvePath host (workingDir fs) (originalPathOf fs rp) = inr real ->
        nodeFs_readdirSync host real = inl code ->
        readDirSync host dirPath fs =
          (match code with
           | ENOENT => Return (mergeDirectoryEntries fs dirPath [])
           | _ => Throw (mapFsError code (originalPathOf fs rp))
           end, fs)).
Proof.
  intros Hres. rewrite (readDirSync_run host fs dirPath rp Hres). split.
  - intros ->. reflexivity.
  - intros -> real code Hreal Hcode.
    unfold RealFileSystem.readDirSync. rewrite Hreal, Hcode.
    destruct code; reflexivity.
Qed.

Lemma readDir_failures_witness :
  readDirSync Fixture.host "/tmp/nonexistent-dir" Fixture.stagedFs
  = (Throw (NotFoundError "/tmp/nonexistent-dir"), Fixture.stagedFs)
  (* a directory of the overlay only *)
  /\ (let fs := after (writeFileSync Fixture.host "/tmp/test-dir/a.txt" "a"
                         Fixture.stagedFs) in
      readDirSync Fixture.host "/tmp/test-dir" fs
      = (Return [{| entry_name := "a.txt"; entry_path := "/tmp/test-dir/a.txt";
                    entry_isDirectory := false |}], fs))
  (* a file of the disk taken for a directory *)
  /\ readDirSync Fixture.host "/tmp/existing-file.txt" Fixture.stagedFs
     = (Throw (SystemError ENOTDIR), Fixture.stagedFs).
Proof.
  split; [|split].
  - destruct (readDir_failures Fixture.host Fixture.stagedFs
                "/tmp/nonexistent-dir" "/tmp/nonexistent-dir") as [Hmissing _];
      [vm_compute; reflexivity|].
    apply Hmissing. vm_compute; reflexivity.
  - intros fs.
    destruct (readDir_failures Fixture.host fs "/tmp/test-dir" "/tmp/test-dir")
      as [_ Hlist]; [vm_compute; reflexivity|].
    rewrite (Hlist ltac:(vm_compute; reflexivity) "/tmp/test-dir" ENOENT);
      vm_compute; reflexivity.
  - destruct (readDir_failures Fixture.host Fixture.stagedFs
                "/tmp/existing-file.txt" "/tmp/existing-file.txt") as [_ Hlist];
      [vm_compute; reflexivity|].
    rewrite (Hlist ltac:(vm_compute; reflexivity) "/tmp/existing-file.txt" ENOTDIR);
      vm_compute; reflexivity.
Defined.

Lemma readDirSync_returns_merge host fs dirPath entries :
  outcome (readDirSync host dirPath fs) = Return entries ->
  exists realEntries, entries = mergeDirectoryEntries fs dirPath realEntries.
Proof.
  destruct (resolvePath_outcome host fs dirPath) as [[rp Hres]|[e [_ Hres]]].
  - rewrite (readDirSync_run host fs dirPath rp Hres). unfold outcome at 1. cbn [fst].
    destruct (outcome (existsSync host dirPath fs)) as [[|]|e|]; try discriminate.
    destruct (RealFileSystem.readDirSync _ _ _) as [[]|realEntries];
      try discriminate; intros H; inversion H; eauto.
  - destruct (rejected_path_throws_everywhere host fs dirPath e Hres)
      as (_ & _ & _ & _ & _ & -> & _). discriminate.
Qed.

(** X14.  A listing of [path.dirname(k)] that returns holds, for a key
    [k] of the staged-content map, the entry made of it: the base name of
    [k], [k] itself as the path, and a directory flag that says whether
    the key holds the directory marker. *)
Theorem staged_entry_is_listed host fs k content entries :
  JsMap.get (stagedPathToContentMap fs) k = Some content ->
  outcome (readDirSync host (path.dirname k) fs) = Return entries ->
  In {| entry_name := path.basename k;
        entry_path := k;
        entry_isDirectory :=
          match content with
          | STAGED_FILE_SYSTEM_DIRECTORY_SYMBOL => true
          | Content _ => false
          end |} entries.
Proof.
  intros Hget Hrun.
  destruct (readDirSync_returns_merge host fs _ entries Hrun) as (realEntries & ->).
  unfold mergeDirectoryEntries. apply in_or_app. right.
  unfold listFilesInStagedDir.
  apply get_In in Hget.
  apply (in_map_iff _ _ _). exists (k, content). split; [reflexivity|].
  apply filter_In. split; [exact Hget|]. apply String.eqb_refl.
Qed.

Lemma staged_entry_is_listed_witness :
  let fs := performAll Fixture.host
              [ writeFile "/tmp/staged-file.txt" "staged"; mkdir "/tmp/test-dir" ]
              Fixture.stagedFs in
  let listing :=
    [ {| entry_name := "existing-file.txt"; entry_path := "/tmp/existing-file.txt";
         entry_isDirectory := false |};
      {| entry_name := "existing-dir"; entry_path := "/tmp/existing-dir";
         entry_isDirectory := true |};
      {| entry_name := "staged-file.txt"; entry_path := "/tmp/staged-file.txt";
         entry_isDirectory := false |};
      {| entry_name := "test-dir"; entry_path := "/tmp/test-dir";
         entry_isDirectory := true |} ] in
  outcome (readDirSync Fixture.host "/tmp" fs) = Return listing
  /\ In {| entry_name := "staged-file.txt"; entry_path := "/tmp/staged-file.txt";
           entry_isDirectory := false |} listing
  /\ In {| entry_name := "test-dir"; entry_path := "/tmp/test-dir";
           entry_isDirectory := true |} listing.
Proof.
  intros fs listing.
  assert (Hrun : outcome (readDirSync Fixture.host "/tmp" fs) = Return listing)
    by (vm_compute; reflexivity).
  split; [exact Hrun|]. split.
  - apply (staged_entry_is_listed Fixture.host fs "/tmp/staged-file.txt"
             (Content (utf8 "staged")) listing); [vm_compute; reflexivity|].
    change (path.dirname "/tmp/staged-file.txt") with "/tmp". exact Hrun.
  - apply (staged_entry_is_listed Fixture.host fs "/tmp/test-dir"
             STAGED_FILE_SYSTEM_DIRECTORY_SYMBOL listing); [vm_compute; reflexivity|].
    change (path.dirname "/tmp/test-dir") with "/tmp". exact Hrun.
Defined.

Lemma existsb_name_false name (entries : list DirEntry) :
  existsb (fun stagedEntry => String.eqb (entry_name stagedEntry) name) entries = false ->
  ~ In name (map entry_name entries).
Proof.
  induction entries as [|e entries IH]; simpl; [tauto|].
  intros H. apply orb_false_iff in H. destruct H as [He Hrest].
  intros [E|Hin]; [|now apply IH].
  apply String.eqb_neq in He. congruence.
Qed.

(** X15.  The merge lists no name twice: where the real listing has no
    name twice and the staged entries of the directory have none, neither
    has the merged listing, a staged entry standing in for the real entry
    of its name. *)
Theorem merged_listing_has_no_duplicate_names fs dirPath realEntries :
  NoDup (map entry_name realEntries) ->
  NoDup (map entry_name (listFilesInStagedDir fs dirPath)) ->
  NoDup (map entry_name (mergeDirectoryEntries fs dirPath realEntries)).
Proof.
  intros Hreal Hstaged. unfold mergeDirectoryEntries.
  set (stagedEntries := listFilesInStagedDir fs dirPath) in *.
  rewrite map_app, map_map. cbn [entry_name].
  induction realEntries as [|entry more IH]; [exact Hstaged|].
  simpl in Hreal. inversion Hreal as [|? ? Hfresh Hmore]; subst.
  simpl filter.
  destruct (negb (existsb _ stagedEntries) && negb (isPathDeleted fs (entry_path entry)))
    eqn:Ekeep; [|now apply IH].
  apply andb_true_iff in Ekeep. destruct Ekeep as [Eshadow _].
  apply negb_true_iff in Eshadow.
  simpl. constructor; [|now apply IH].
  intros Hin. apply in_app_or in Hin. destruct Hin as [Hin|Hin].
  - apply Hfresh. apply in_map_iff in Hin. destruct Hin as (e & <- & He).
    apply filter_In in He. apply in_map. tauto.
  - now apply (existsb_name_false _ _ Eshadow).
Qed.

Lemma merged_listing_has_no_duplicate_names_witness :
  (* [existing-file.txt] is on the disk and is written in the overlay *)
  let fs := after (writeFileSync Fixture.host "/tmp/existing-file.txt" "new"
                     Fixture.stagedFs) in
  outcome (readDirSync Fixture.host "/tmp" fs)
  = Return [ {| entry_name := "existing-dir"; entry_path := "/tmp/existing-dir";
                entry_isDirectory := true |};
             {| entry_name := "existing-file.txt"; entry_path := "/tmp/existing-file.txt";
                entry_isDirectory := false |} ]
  /\ NoDup (map entry_name
              (mergeDirectoryEntries fs "/tmp"
                 [ {| entry_name := "existing-file.txt";
                      entry_path := "/tmp/existing-file.txt";
                      entry_isDirectory := false |};
                   {| entry_name := "existing-dir"; entry_path := "/tmp/existing-dir";
                      entry_isDirectory := true |} ])).
Proof.
  intros fs. split; [vm_compute; reflexivity|].
  apply merged_listing_has_no_duplicate_names.
  - vm_compute. repeat constructor; simpl; intuition discriminate.
  - vm_compute. repeat constructor; simpl; intuition discriminate.
Defined.

(** ** Absolute keys, relative arguments *)

Lemma isAbsolute_String r : path.isAbsolute (String "/"%char r) = true.
Proof.
  unfold path.isAbsolute, Js.startsWith. cbn [String.prefix].
  destruct (ascii_dec "/"%char "/"%char) as [_|N]; [|congruence].
  destruct r; reflexivity.
Qed.

Lemma isAbsolute_inv p : path.isAbsolute p = true -> exists r, p = String "/"%char r.
Proof.
  unfold path.isAbsolute, Js.startsWith. destruct p as [|c r]; [discriminate|].
  cbn [String.prefix]. destruct (ascii_dec "/"%char c) as [<-|_]; [eauto|discriminate].
Qed.

Lemma startsWith_String c s c' s' :
  Js.startsWith (String c s) (String c' s') = true -> c = c'.
Proof.
  unfold Js.startsWith. cbn [String.prefix].
  destruct (ascii_dec c' c) as [->|_]; [reflexivity|discriminate].
Qed.

Lemma isAbsolute_inside wd rp :
  path.isAbsolute wd = true -> Js.startsWith rp wd = true -> path.isAbsolute rp = true.
Proof.
  intros Hwd Hin. apply isAbsolute_inv in Hwd. destruct Hwd as (w & ->).
  destruct rp as [|c r]; [discriminate|].
  apply startsWith_String in Hin. subst c. apply isAbsolute_String.
Qed.

Lemma dirname_isAbsolute p :
  path.isAbsolute p = true -> path.isAbsolute (path.dirname p) = true.
Proof.
  intros H. apply isAbsolute_inv in H. destruct H as (r & ->).
  unfold path.dirname.
  change (Js.chars (String "/"%char r)) with ("/"%char :: Js.chars r).
  cbv beta iota zeta.
  change (Js.isSlash "/"%char) with true. cbv iota.
  destruct (Js.dropWhile _ (Js.dropWhile _ _)) as [|x before]; [reflexivity|].
  destruct before as [|y before]; [reflexivity|].
  change (Js.str ("/"%char :: rev (y :: before)))
    with (String "/"%char (Js.str (rev (y :: before)))).
  apply isAbsolute_String.
Qed.

Lemma normalize_isAbsolute p :
  path.isAbsolute p = true -> path.isAbsolute (path.normalize p) = true.
Proof.
  intros H. unfold path.normalize.
  rewrite (isAbsolute_nonempty p H), H. cbv zeta. cbn [negb].
  destruct (String.eqb (path.normalizeString p false) ""); [reflexivity|].
  destruct (path.endsWithSlash p); apply isAbsolute_String.
Qed.

Lemma join_isAbsolute base rest :
  path.isAbsolute base = true -> path.isAbsolute (path.join (base :: rest)) = true.
Proof.
  intros H. unfold path.join. cbn [filter].
  rewrite (isAbsolute_nonempty base H). cbn [negb].
  assert (Hj : path.isAbsolute
                 (Js.join (base :: filter (fun a => negb (String.eqb a "")) rest)) = true).
  { apply isAbsolute_inv in H. destruct H as (r & ->).
    cbn [Js.join]. destruct (filter _ rest); apply isAbsolute_String. }
  cbv zeta. rewrite (isAbsolute_nonempty _ Hj). now apply normalize_isAbsolute.
Qed.

Lemma In_keys_set {V} (m : JsMap.t V) k' v k :
  In k (JsMap.keys (JsMap.set m k' v)) -> k = k' \/ In k (JsMap.keys m).
Proof.
  unfold JsMap.keys. induction m as [|[k0 v0] m IH]; simpl.
  - intros [E|[]]. now left.
  - destruct (String.eqb k0 k'); simpl; [tauto|].
    intros [E|Hin]; [tauto|]. destruct (IH Hin); tauto.
Qed.

Lemma In_keys_delete {V} (m : JsMap.t V) k' k :
  In k (JsMap.keys (JsMap.delete m k')) -> In k (JsMap.keys m).
Proof.
  unfold JsMap.keys, JsMap.delete. intros H.
  apply in_map_iff in H. destruct H as (kv & <- & Hin).
  apply filter_In in Hin. apply in_map. tauto.
Qed.

Lemma KeysAbsolute_set {V} (m : JsMap.t V) k v :
  path.isAbsolute k = true -> KeysAbsolute m -> KeysAbsolute (JsMap.set m k v).
Proof.
  intros Hk Hm x Hx. apply In_keys_set in Hx. destruct Hx as [->|Hx]; auto.
Qed.

Lemma KeysAbsolute_delete {V} (m : JsMap.t V) k :
  KeysAbsolute m -> KeysAbsolute (JsMap.delete m k).
Proof. intros Hm x Hx. apply In_keys_delete in Hx. auto. Qed.

Lemma KeysAbsolute_renameLoop {V} host src dest (entries : list (string * V)) :
  path.isAbsolute dest = true ->
  forall m, KeysAbsolute m -> KeysAbsolute (renameLoop host src dest entries m).
Proof.
  intros Hdest.
  induction entries as [|[key value] entries IH]; intros m Hm; [exact Hm|].
  rewrite renameLoop_cons. apply IH.
  destruct (isNestedPath src key); [|exact Hm].
  apply KeysAbsolute_set; [|now apply KeysAbsolute_delete].
  unfold renamedKey. now apply join_isAbsolute.
Qed.

Lemma KeysAbsolute_renameMapKeys {V} host src dest (m : JsMap.t V) :
  path.isAbsolute dest = true -> KeysAbsolute m ->
  KeysAbsolute (renameMapKeys host src dest m).
Proof.
  intros Hdest Hm. rewrite renameMapKeys_loop. now apply KeysAbsolute_renameLoop.
Qed.

Lemma KeysAbsolute_bindAll dest paths fs :
  path.isAbsolute dest = true ->
  KeysAbsolute (movedPathToOriginalPathMap fs) ->
  KeysAbsolute (movedPathToOriginalPathMap (bindAll dest paths fs)).
Proof.
  intros Hdest. unfold bindAll. revert fs.
  induction paths as [|e paths IH]; intros fs Hm; [exact Hm|].
  simpl. apply IH. simpl. apply KeysAbsolute_set; [|exact Hm].
  now apply join_isAbsolute.
Qed.

Lemma KeysAbsolute_mkdirLoop host fuel : forall dirname fs,
  path.isAbsolute dirname = true ->
  KeysAbsolute (stagedPathToContentMap fs) ->
  KeysAbsolute (stagedPathToContentMap (after (mkdirLoop host fuel dirname fs))).
Proof.
  induction fuel as [|fuel IH]; intros dirname fs Habs Hm; [exact Hm|].
  rewrite mkdirLoop_step.
  destruct (String.eqb dirname (workingDir fs)); [exact Hm|].
  rewrite (existsSync_pair host fs dirname).
  destruct (outcome (existsSync host dirname fs)) as [[|]|e|]; try exact Hm.
  apply IH; [now apply dirname_isAbsolute|].
  cbn [stagedPathToContentMap with_stagedPathToContentMap].
  now apply KeysAbsolute_set.
Qed.

Section Absolute.

Variable host : Host.

Local Abbreviation Inv := (fun fs =>
  path.isAbsolute (workingDir fs) = true
  /\ KeysAbsolute (stagedPathToContentMap fs)
  /\ KeysAbsolute (movedPathToOriginalPathMap fs)).

Lemma resolvePath_isAbsolute fs p rp :
  path.isAbsolute (workingDir fs) = true ->
  outcome (resolvePath host p fs) = Return rp -> path.isAbsolute rp = true.
Proof.
  intros Hwd Hres. apply resolvePath_returns in Hres. destruct Hres as (_ & _ & Hin).
  now apply (isAbsolute_inside (workingDir fs)).
Qed.

Lemma Inv_mkdirSync fs dirPath : Inv fs -> Inv (after (mkdirSync host dirPath fs)).
Proof.
  intros (Hwd & Hs & Hm).
  destruct (mkdirSync_frame host dirPath fs) as [(_ & HM & _ & HW & _) _].
  rewrite HM, HW. split; [exact Hwd|]. split; [|exact Hm].
  unfold mkdirSync, bind.
  destruct (resolvePath_outcome host fs dirPath) as [[rp Hres]|[e [_ Hres]]].
  - pose proof (resolvePath_isAbsolute fs dirPath rp Hwd Hres) as Hrp.
    apply resolvePath_returns in Hres. destruct Hres as (Hres & _ & _). rewrite Hres.
    now apply KeysAbsolute_mkdirLoop.
  - rewrite Hres. exact Hs.
Qed.

Lemma Inv_writeBufferSync fs filePath data :
  Inv fs -> Inv (after (writeBufferSync host filePath data fs)).
Proof.
  intros (Hwd & Hs & Hm).
  rewrite writeBufferSync_workingDir, writeBufferSync_moved.
  split; [exact Hwd|]. split; [|exact Hm].
  destruct (resolvePath_outcome host fs filePath) as [[rp Hres]|[e [Hres _]]].
  - rewrite (writeBufferSync_steps host fs filePath data rp Hres).
    set (fs1 := with_deletedOriginalPaths _ fs).
    assert (Inv1 : Inv fs1) by (repeat split; assumption).
    destruct (Inv_mkdirSync fs1 (path.dirname filePath) Inv1) as (_ & Hs2 & _).
    destruct (outcome (mkdirSync host (path.dirname filePath) fs1)) as [[]|e|];
      unfold after at 1; cbn [snd]; try exact Hs2.
    cbn [stagedPathToContentMap with_stagedPathToContentMap].
    apply KeysAbsolute_set; [|exact Hs2].
    now apply (resolvePath_isAbsolute fs filePath rp).
  - now rewrite (writeBufferSync_throws host fs filePath data e Hres).
Qed.

Lemma Inv_rmSync fs targetPath : Inv fs -> Inv (after (rmSync host targetPath fs)).
Proof.
  intros (Hwd & Hs & Hm).
  destruct (resolvePath_outcome host fs targetPath) as [[rp Hres]|[e [_ Hres]]].
  - rewrite (rmSync_run host _ _ _ Hres). unfold after. cbn [snd].
    repeat split; try assumption.
    cbn [stagedPathToContentMap with_stagedPathToContentMap with_deletedOriginalPaths].
    now apply KeysAbsolute_delete.
  - destruct (rejected_path_throws_everywhere host fs targetPath e Hres)
      as (_ & _ & _ & -> & _). repeat split; assumption.
Qed.

Lemma Inv_moveSync fs srcPath destPath :
  Inv fs -> Inv (after (moveSync host srcPath destPath fs)).
Proof.
  intros (Hwd & Hs & Hm).
  destruct (moveSync host srcPath destPath fs) as [o fs'] eqn:Hrun.
  unfold after. cbn [snd].
  destruct (moveSync_ends host fs srcPath destPath o fs' Hrun) as [->| ->];
    [|repeat split; assumption].
  apply moveSync_returns in Hrun.
  destruct Hrun as (paths & _ & _ & Hd & _ & _ & ->).
  pose proof (resolvePath_isAbsolute fs destPath _ Hwd Hd) as Hdest.
  destruct (bindAll_frame (resolved host fs destPath) paths fs) as (_ & Hst & _ & HW).
  cbn [workingDir stagedPathToContentMap movedPathToOriginalPathMap
       with_stagedPathToContentMap with_movedPathToOriginalPathMap with_moveOperations].
  rewrite HW, Hst. split; [exact Hwd|]. split.
  - now apply KeysAbsolute_renameMapKeys.
  - apply KeysAbsolute_renameMapKeys; [exact Hdest|].
    now apply KeysAbsolute_bindAll.
Qed.

Lemma Inv_perform c fs : Inv fs -> Inv (after (perform host c fs)).
Proof.
  intros HInv.
  destruct c as [dirPath|targetPath|src dest|src dest|filePath content|filePath data];
    cbn [perform].
  - now apply Inv_mkdirSync.
  - now apply Inv_rmSync.
  - now apply Inv_moveSync.
  - unfold copySync, bind.
    pose proof (readBufferSync_state host fs src) as St.
    destruct (readBufferSync host src fs) as [[content|e|] s]; unfold after in St;
      cbn [snd] in St; subst s; try exact HInv.
    now apply Inv_writeBufferSync.
  - unfold writeFileSync. now apply Inv_writeBufferSync.
  - now apply Inv_writeBufferSync.
Qed.

Lemma Inv_performAll calls : forall fs, Inv fs -> Inv (performAll host calls fs).
Proof.
  induction calls as [|c calls IH]; intros fs HInv; [exact HInv|].
  simpl. apply IH. now apply Inv_perform.
Qed.

End Absolute.


(** X16.  With a working directory that is an absolute path, every key
    of the staged-content map and of the rename bindings is an absolute
    path, in every state that a new instance reaches by calls of its
    methods (those that throw included). *)
Theorem staged_keys_are_absolute host processCwd cwd ignored calls :
  let fs := performAll host calls (constructor processCwd cwd ignored) in
  path.isAbsolute (workingDir (constructor processCwd cwd ignored)) = true ->
  KeysAbsolute (stagedPathToContentMap fs)
  /\ KeysAbsolute (movedPathToOriginalPathMap fs).
Proof.
  intros fs Hwd.
  destruct (Inv_performAll host calls (constructor processCwd cwd ignored))
    as (_ & Hs & Hm); [|split; assumption].
  split; [exact Hwd|]. split; intros k [].
Qed.

Lemma staged_keys_are_absolute_witness :
  let fs := performAll Nested.host
              [ writeFile "c/d.txt" "d"; move "a" "b"; mkdir "e/f"; rm "c" ]
              (constructor "/home/user" (Some "/w") None) in
  JsMap.keys (stagedPathToContentMap fs) = ["/w/c/d.txt"; "/w/e/f"; "/w/e"]
  /\ JsMap.keys (movedPathToOriginalPathMap fs) = ["/w/b/y.txt"; "/w/b/x.txt"]
  /\ KeysAbsolute (stagedPathToContentMap fs)
  /\ KeysAbsolute (movedPathToOriginalPathMap fs).
Proof.
  intros fs. split; [vm_compute; reflexivity|]. split; [vm_compute; reflexivity|].
  apply (staged_keys_are_absolute Nested.host "/home/user" (Some "/w") None).
  vm_compute; reflexivity.
Defined.




(** ** The working directory as it is given *)

(** X18.  [resolvePath] answers with an absolute path that starts with
    the working directory, leaves the instance alone, and gives a resolved
    path back unchanged when it is asked again (as [moveSync] and
    [readBufferSync] do ask). *)
Theorem resolvePath_is_idempotent host fs p rp :
  path.isAbsolute (process_cwd host) = true ->
  outcome (resolvePath host p fs) = Return rp ->
  resolvePath host p fs = (Return rp, fs)
  /\ Js.startsWith rp (workingDir fs) = true
  /\ path.isAbsolute rp = true
  /\ resolvePath host rp fs = (Return rp, fs).
Proof.
  intros Habs Hres.
  pose proof (resolvePath_of_resolved host fs p rp Habs Hres) as Hagain.
  apply resolvePath_returns in Hagain. destruct Hagain as (Hagain & _ & _).
  apply resolvePath_returns in Hres. destruct Hres as (Hres & Hrp & Hin).
  repeat split; try assumption.
  subst rp. unfold resolved.
  destruct (resolve_absolutePath (process_cwd host) [workingDir fs; p] Habs)
    as (segs & _ & ->).
  apply isAbsolute_String.
Qed.

Lemma resolvePath_is_idempotent_witness :
  resolvePath Fixture.host "existing-dir/../a//b/./c.txt" Fixture.stagedFs
  = (Return "/tmp/a/b/c.txt", Fixture.stagedFs)
  /\ resolvePath Fixture.host "/tmp/a/b/c.txt" Fixture.stagedFs
     = (Return "/tmp/a/b/c.txt", Fixture.stagedFs).
Proof.
  destruct (resolvePath_is_idempotent Fixture.host Fixture.stagedFs
              "existing-dir/../a//b/./c.txt" "/tmp/a/b/c.txt")
    as (Hfirst & _ & _ & Hagain); [vm_compute; reflexivity..|].
  split; assumption.
Defined.

(** X19.  The working directory is taken as given ([options.cwd ??
    process.cwd()]) and compared as a string.  Given as a relative path
    (and not the empty string), it is a prefix of no resolved path, so
    every path is rejected; given as the empty string, it is a prefix of
    every resolved path, so none is. *)
Theorem working_directory_is_taken_as_given host fs p :
  path.isAbsolute (process_cwd host) = true ->
  (path.isAbsolute (workingDir fs) = false -> workingDir fs <> "" ->
   resolvePath host p fs = (Throw (PlainError (outOfWorkingDirectory ++ p)), fs))
  /\ (workingDir fs = "" ->
      resolvePath host p fs = (Return (path.resolve (process_cwd host) [p]), fs)).
Proof.
  intros Habs. split.
  - intros Hrel Hne. apply resolvePath_rejects. unfold resolved.
    destruct (resolve_absolutePath (process_cwd host) [workingDir fs; p] Habs)
      as (segs & _ & ->).
    destruct (workingDir fs) as [|c w]; [congruence|].
    unfold absolutePath. change ("/" ++ Js.join segs) with (String "/"%char (Js.join segs)).
    destruct (Js.startsWith _ _) eqn:E; [|reflexivity].
    apply startsWith_String in E. subst c.
    now rewrite isAbsolute_String in Hrel.
  - intros Hwd. rewrite resolvePath_run, Hwd. unfold resolved, Js.startsWith. rewrite Hwd.
    replace (path.resolve (process_cwd host) [""; p])
      with (path.resolve (process_cwd host) [p]).
    + destruct (path.resolve (process_cwd host) [p]); reflexivity.
    + unfold path.resolve. cbn [rev app path.resolveLoop]. reflexivity.
Qed.

Lemma working_directory_is_taken_as_given_witness :
  (* [new StagedFileSystem({ cwd: 'project' })] *)
  resolvePath Fixture.host "src/index.ts" (constructor "/home/user" (Some "project") None)
  = (Throw (PlainError "Cannot resolve path outside of working directory: src/index.ts"),
     constructor "/home/user" (Some "project") None)
  (* [new StagedFileSystem({ cwd: '' })] *)
  /\ resolvePath Fixture.host "/tmp/existing-file.txt" (constructor "/home/user" (Some "") None)
     = (Return "/tmp/existing-file.txt", constructor "/home/user" (Some "") None).
Proof.
  split.
  - apply (working_directory_is_taken_as_given Fixture.host
             (constructor "/home/user" (Some "project") None) "src/index.ts").
    + vm_compute; reflexivity.
    + vm_compute; reflexivity.
    + intros E. vm_compute in E. discriminate E.
  - apply (working_directory_is_taken_as_given Fixture.host
             (constructor "/home/user" (Some "") None) "/tmp/existing-file.txt").
    + vm_compute; reflexivity.
    + vm_compute; reflexivity.
Defined.

(** ** What [globSync] hands out *)

(** X20.  Every path that [globSync] returns is one whose path relative
    to the working directory [micromatch] matches against the patterns
    and, where there are ignored globs, does not match against those.
    With more fuel than it took to end, the search ends the same way. *)
Theorem glob_returns_only_matching_files host isMatch fuel patterns fs files :
  outcome (globSync host isMatch fuel patterns fs) = Return files ->
  Forall (globAccepts host isMatch fs (patternArray patterns)) files
  /\ forall extra,
       globSync host isMatch (fuel + extra) patterns fs = (Return files, fs).
Proof.
  intros Hrun. split.
  - unfold globSync, bind, this in Hrun.
    destruct (collectAndFilter_accepts host isMatch fuel _ _ _ _ _ Hrun)
      as (found & -> & Hfound). exact Hfound.
  - intros extra.
    pose proof (globSync_state host isMatch fuel patterns fs) as St.
    unfold globSync, bind, this in *.
    rewrite collectAndFilter_more_fuel by (rewrite Hrun; discriminate).
    destruct (collectAndFilter host isMatch fuel _ _ _ fs) as [o s].
    unfold outcome, after in *. cbn [fst snd] in *. now subst.
Qed.

Lemma glob_returns_only_matching_files_witness :
  let fs := GlobFixture.stagedFs (Some ["**/*.js"]) in
  let files := [ "/tmp/existing-file.txt"; "/tmp/existing-dir/nested-file.txt";
                 "/tmp/file1.txt"; "/tmp/subdir/file3.txt" ] in
  outcome (globSync Fixture.host Micromatch.isMatch 3 (inl "**/*") fs) = Return files
  /\ Forall (globAccepts Fixture.host Micromatch.isMatch fs ["**/*"]) files
  /\ globSync Fixture.host Micromatch.isMatch 10 (inl "**/*") fs = (Return files, fs).
Proof.
  intros fs files.
  assert (Hrun : outcome (globSync Fixture.host Micromatch.isMatch 3 (inl "**/*") fs)
                 = Return files) by (vm_compute; reflexivity).
  split; [exact Hrun|].
  destruct (glob_returns_only_matching_files Fixture.host Micromatch.isMatch 3
              (inl "**/*") fs files Hrun) as [Hall Hfuel].
  split; [exact Hall|exact (Hfuel 7)].
Defined.

(** X21.  Where the working directory does not exist (it is not on the
    disk, or it has been removed in the overlay), [globSync] does not
    return an empty list: it throws [NotFoundError] with the working
    directory. *)
Theorem glob_needs_the_working_directory host isMatch fuel patterns fs :
  outcome (existsSync host (workingDir fs) fs) = Return false ->
  globSync host isMatch (S fuel) patterns fs
  = (Throw (NotFoundError (workingDir fs)), fs).
Proof.
  intros Hex. unfold globSync, bind at 1, this.
  rewrite collectAndFilter_step.
  assert (Hres : outcome (resolvePath host (workingDir fs) fs)
                 = Return (resolved host fs (workingDir fs)))
    by (apply (existsSync_true_resolves host fs _ false); exact Hex).
  now rewrite (readDirSync_run host fs (workingDir fs) _ Hres), Hex.
Qed.

Lemma glob_needs_the_working_directory_witness :
  let removed := after (rmSync Fixture.host "/tmp" Fixture.stagedFs) in
  globSync Fixture.host Micromatch.isMatch 5 (inl "**/*.txt") removed
  = (Throw (NotFoundError "/tmp"), removed).
Proof.
  intros removed.
  apply (glob_needs_the_working_directory Fixture.host Micromatch.isMatch 4
           (inl "**/*.txt") removed).
  vm_compute; reflexivity.
Defined.

(** ** The diff: its summary and its application *)

Lemma fold_left_push {A B} (f : A -> B) xs : forall lines,
  fold_left (fun lines x => push lines (f x)) xs lines = (lines ++ map f xs)%list.
Proof.
  induction xs as [|x xs IH]; intros lines; simpl; [now rewrite app_nil_r|].
  rewrite IH. unfold push. now rewrite <- app_assoc.
Qed.

Lemma fold_left_same {A B} (f g : A -> B -> A) xs :
  (forall a x, f a x = g a x) -> forall a, fold_left f xs a = fold_left g xs a.
Proof.
  intros Hfg. induction xs as [|x xs IH]; intros a; simpl; [reflexivity|].
  now rewrite Hfg, IH.
Qed.

Lemma length_zero_nil {A} (l : list A) : List.length l = 0 -> l = [].
Proof. destruct l; [reflexivity|discriminate]. Qed.

Lemma formatStagedDiff_lines diff :
  formattedLines (formatStagedDiff diff)
  = (map deleteLine (Diff.deletedOriginalPaths diff)
     ++ map moveLine (Diff.originalPathMoveOperations diff)
     ++ map stagedLine (Diff.stagedContentMap diff))%list.
Proof.
  unfold formatStagedDiff.
  destruct (Nat.eqb _ 0) eqn:E; cbn [formattedLines].
  - apply Nat.eqb_eq in E.
    rewrite (length_zero_nil (Diff.deletedOriginalPaths diff)) by lia.
    rewrite (length_zero_nil (Diff.originalPathMoveOperations diff)) by lia.
    rewrite (length_zero_nil (Diff.stagedContentMap diff)) by lia.
    reflexivity.
  - rewrite (fold_left_push (fun deletedPath => "  🗑️  Delete: " ++ deletedPath)).
    rewrite (fold_left_push
               (fun moveOp => "  📝 Move: " ++ srcPath moveOp ++ " → " ++ destPath moveOp)).
    replace (fold_left _ (Diff.stagedContentMap diff) _)
      with (fold_left (fun lines entry => push lines (stagedLine entry))
              (Diff.stagedContentMap diff)
              (([] ++ map deleteLine (Diff.deletedOriginalPaths diff))
               ++ map moveLine (Diff.originalPathMoveOperations diff))%list).
    + rewrite fold_left_push. simpl. now rewrite <- app_assoc.
    + apply fold_left_same. intros lines [stagedPath [data|]]; reflexivity.
Qed.

Lemma formatStagedDiff_total diff :
  totalChanges (formatStagedDiff diff)
  = List.length (Diff.originalPathMoveOperations diff)
    + List.length (Diff.deletedOriginalPaths diff)
    + List.length (Diff.stagedContentMap diff).
Proof. unfold formatStagedDiff. destruct (Nat.eqb _ 0); reflexivity. Qed.

(** X22.  [formatStagedDiff] gives one line for each change and counts
    them right: the lines are those of the deleted paths, then those of the
    move operations, then those of the staged entries, each in the order
    of the diff, and [totalChanges] is their number; it is [0] for the
    empty diff only. *)
Theorem formatStagedDiff_counts_its_lines diff :
  formattedLines (formatStagedDiff diff)
  = (map deleteLine (Diff.deletedOriginalPaths diff)
     ++ map moveLine (Diff.originalPathMoveOperations diff)
     ++ map stagedLine (Diff.stagedContentMap diff))%list
  /\ totalChanges (formatStagedDiff diff) = List.length (formattedLines (formatStagedDiff diff))
  /\ (totalChanges (formatStagedDiff diff) = 0 <->
      Diff.deletedOriginalPaths diff = []
      /\ Diff.originalPathMoveOperations diff = []
      /\ Diff.stagedContentMap diff = []).
Proof.
  split; [apply formatStagedDiff_lines|]. split.
  - rewrite formatStagedDiff_lines, formatStagedDiff_total, !length_app, !length_map. lia.
  - rewrite formatStagedDiff_total. split.
    + intros H. repeat split; apply length_zero_nil; lia.
    + intros (-> & -> & ->). reflexivity.
Qed.

Section ApplyFacts.

Variable newStack : string -> string.
Variable World : Type.
Variable nodeFs : FsCall -> World -> option JsValue * World.

Local Abbreviation worldAfter := (worldAfter nodeFs).

(** The calls of a plan, made in turn until one fails. *)
Local Abbreviation runPlan := (fun plan : list (FsCall * string) =>
  forAwait plan (fun step => tryAwait newStack nodeFs (fst step) (snd step))).

Lemma forAwait_map {A B} (f : A -> B) (body : B -> Settled World) xs w :
  forAwait (map f xs) body w = forAwait xs (fun x => body (f x)) w.
Proof.
  revert w. induction xs as [|x xs IH]; intros w; simpl; [reflexivity|].
  destruct (body (f x) w) as [[err|] w']; [reflexivity|apply IH].
Qed.

Lemma forAwait_same {A} (body body' : A -> Settled World) xs :
  (forall x w, body x w = body' x w) ->
  forall w, forAwait xs body w = forAwait xs body' w.
Proof.
  intros Hb. induction xs as [|x xs IH]; intros w; simpl; [reflexivity|].
  rewrite Hb. destruct (body' x w) as [[err|] w']; [reflexivity|apply IH].
Qed.

Lemma forAwait_app {A} (body : A -> Settled World) xs ys w :
  forAwait (xs ++ ys) body w = andThen (forAwait xs body) (forAwait ys body) w.
Proof.
  unfold andThen. revert w. induction xs as [|x xs IH]; intros w; simpl; [reflexivity|].
  destruct (body x w) as [[err|] w']; [reflexivity|apply IH].
Qed.

Lemma applyStagedFileSystemDiff_plan localeCompare toSorted diff w :
  applyStagedFileSystemDiff newStack nodeFs localeCompare toSorted diff w
  = runPlan (plannedCalls localeCompare toSorted diff) w.
Proof.
  unfold plannedCalls, applyStagedFileSystemDiff. cbv zeta.
  rewrite forAwait_app. unfold andThen at 1 3.
  rewrite forAwait_map. cbn [fst snd].
  destruct (forAwait (Diff.deletedOriginalPaths diff) _ w) as [[err|] w1]; [reflexivity|].
  rewrite forAwait_app. unfold andThen.
  rewrite forAwait_map. cbn [fst snd].
  destruct (forAwait (Diff.originalPathMoveOperations diff) _ w1) as [[err|] w2];
    [reflexivity|].
  rewrite forAwait_map.
  apply forAwait_same. intros [stagedPath [data|]] w'; reflexivity.
Qed.

Lemma tryAwait_run call context w :
  tryAwait newStack nodeFs call context w =
    (match fst (nodeFs call w) with
     | None => None
     | Some err => Some (enhanceErrorWithContext newStack err context)
     end, snd (nodeFs call w)).
Proof.
  unfold tryAwait. destruct (nodeFs call w) as [[err|] w']; reflexivity.
Qed.

(** A plan of which every call resolves on its turn is run to its end. *)
Lemma runPlan_resolves plan : forall w,
  (forall done call context rest,
     plan = (done ++ (call, context) :: rest)%list ->
     fst (nodeFs call (worldAfter (map fst done) w)) = None) ->
  runPlan plan w = (None, worldAfter (map fst plan) w).
Proof.
  induction plan as [|[call context] plan IH]; intros w Hall; [reflexivity|].
  cbn [forAwait map fst snd]. rewrite tryAwait_run.
  pose proof (Hall [] call context plan eq_refl) as Hfirst.
  cbn in Hfirst. rewrite Hfirst.
  apply IH. intros done call' context' rest E.
  apply (Hall ((call, context) :: done) call' context' rest). now rewrite E.
Qed.

(** The first call to reject ends the run: the error is the one it
    rejected with, put into its context, and no later call is made. *)
Lemma runPlan_rejects done : forall plan call context rest err w,
  plan = (done ++ (call, context) :: rest)%list ->
  (forall done' call' context' rest',
     done = (done' ++ (call', context') :: rest')%list ->
     fst (nodeFs call' (worldAfter (map fst done') w)) = None) ->
  fst (nodeFs call (worldAfter (map fst done) w)) = Some err ->
  runPlan plan w
  = (Some (enhanceErrorWithContext newStack err context),
     worldAfter (map fst done ++ [call]) w).
Proof.
  induction done as [|[call0 context0] done IH];
    intros plan call context rest err w -> Hdone Hfails.
  - cbn [app forAwait map fst snd]. rewrite tryAwait_run.
    cbn in Hfails. rewrite Hfails. reflexivity.
  - cbn [app forAwait map fst snd]. rewrite tryAwait_run.
    pose proof (Hdone [] call0 context0 done eq_refl) as Hfirst.
    cbn in Hfirst. rewrite Hfirst.
    apply (IH _ call context rest err); [reflexivity| |exact Hfails].
    intros done' call' context' rest' E.
    apply (Hdone ((call0, context0) :: done') call' context' rest'). now rewrite E.
Qed.

End ApplyFacts.

(** X23.  [applyStagedFileSystemDiff] makes one call into the real file
    system for each change of the diff: the removals, then the renames,
    then, in the sorted order of the staged paths, the directories to make
    and the files to write.  If every call resolves on its turn, all are
    made and the promise resolves.  The first call that rejects ends it:
    no further call is made, and the promise rejects with an [Error] whose
    message is the context of that call, a colon and the message of what
    the call rejected with, which is kept as the cause.  The number of
    calls is the [totalChanges] that [formatStagedDiff] reports for the
    diff. *)
Theorem applyStagedFileSystemDiff_makes_the_planned_calls
  newStack (World : Type) (nodeFs : FsCall -> World -> option JsValue * World)
  localeCompare toSorted diff w :
  let plan := plannedCalls localeCompare toSorted diff in
  let applied := applyStagedFileSystemDiff newStack nodeFs localeCompare toSorted diff w in
  ((forall done call context rest,
      plan = (done ++ (call, context) :: rest)%list ->
      fst (nodeFs call (worldAfter nodeFs (map fst done) w)) = None) ->
   applied = (None, worldAfter nodeFs (map fst plan) w))
  /\ (forall done call context rest err,
        plan = (done ++ (call, context) :: rest)%list ->
        (forall done' call' context' rest',
           done = (done' ++ (call', context') :: rest')%list ->
           fst (nodeFs call' (worldAfter nodeFs (map fst done') w)) = None) ->
        fst (nodeFs call (worldAfter nodeFs (map fst done) w)) = Some err ->
        applied = (Some (enhanceErrorWithContext newStack err context),
                   worldAfter nodeFs (map fst done ++ [call]) w)
        /\ exists stack,
             enhanceErrorWithContext newStack err context
             = ErrorObject (context ++ ": " ++
                            match err with
                            | ErrorObject message _ _ => message
                            | NotAnError asString => asString
                            end) stack (Some err))
  /\ ((forall l, List.length (toSorted (fun a b => localeCompare (fst a) (fst b)) l)
                 = List.length l) ->
      List.length plan = totalChanges (formatStagedDiff diff)).
Proof.
  intros plan applied. unfold applied.
  rewrite applyStagedFileSystemDiff_plan. fold plan.
  split; [apply runPlan_resolves|]. split.
  - intros done call context rest err Hplan Hdone Hfails. split.
    + now apply (runPlan_rejects newStack World nodeFs done plan call context rest).
    + unfold enhanceErrorWithContext. eauto.
  - intros Hsorted.
    rewrite formatStagedDiff_total. unfold plan, plannedCalls. cbv zeta.
    rewrite !length_app, !length_map, Hsorted. lia.
Qed.

Lemma applyStagedFileSystemDiff_makes_the_planned_calls_witness :
  let apply renameFails :=
    applyStagedFileSystemDiff Logged.newStack (Logged.nodeFs renameFails)
      Logged.localeCompare Logged.toSorted Logged.mixed [] in
  apply false
  = (None, [ fs_rm "/tmp/deleted.txt";
             fs_rename "/tmp/old.txt" "/tmp/moved.txt";
             fs_mkdir "/tmp/newdir";
             fs_writeFile "/tmp/newfile.txt" (utf8 "content") ])
  /\ apply true
     = (Some (ErrorObject
                "Failed to move path from /tmp/old.txt to /tmp/moved.txt: ENOENT: no such file or directory, rename"
                "Error: ENOENT" (Some Logged.ENOENT_rename)),
        [ fs_rm "/tmp/deleted.txt"; fs_rename "/tmp/old.txt" "/tmp/moved.txt" ])
  /\ List.length (plannedCalls Logged.localeCompare Logged.toSorted Logged.mixed) = 4.
Proof.
  intros apply. split; [|split].
  - destruct (applyStagedFileSystemDiff_makes_the_planned_calls
                Logged.newStack Logged.World (Logged.nodeFs false)
                Logged.localeCompare Logged.toSorted Logged.mixed [])
      as (Hall & _ & _).
    unfold apply. rewrite Hall; [vm_compute; reflexivity|].
    intros done call context rest _. destruct call; reflexivity.
  - destruct (applyStagedFileSystemDiff_makes_the_planned_calls
                Logged.newStack Logged.World (Logged.nodeFs true)
                Logged.localeCompare Logged.toSorted Logged.mixed [])
      as (_ & Hfirst & _).
    destruct (Hfirst [ (fs_rm "/tmp/deleted.txt", "Failed to delete path: /tmp/deleted.txt") ]
                (fs_rename "/tmp/old.txt" "/tmp/moved.txt")
                "Failed to move path from /tmp/old.txt to /tmp/moved.txt"
                [ (fs_mkdir "/tmp/newdir", "Failed to create directory: /tmp/newdir");
                  (fs_writeFile "/tmp/newfile.txt" (utf8 "content"),
                   "Failed to write file: /tmp/newfile.txt") ]
                Logged.ENOENT_rename) as [Hrun _].
    + vm_compute; reflexivity.
    + intros done' call' context' rest' E.
      destruct call'; try reflexivity.
      assert (Hin : In (fs_rename oldPath newPath, context')
                      [ (fs_rm "/tmp/deleted.txt",
                         "Failed to delete path: /tmp/deleted.txt") ])
        by (rewrite E; apply in_elt).
      destruct Hin as [Hin|[]]. discriminate Hin.
    + reflexivity.
    + unfold apply. rewrite Hrun. vm_compute; reflexivity.
  - vm_compute; reflexivity.
Defined.

(** The unit test [should format mixed operations]. *)
Example formatStagedDiff_of_mixed_operations :
  formatStagedDiff Logged.mixed
  = {| totalChanges := 4;
       formattedLines :=
         [ "  🗑️  Delete: /tmp/deleted.txt";
           "  📝 Move: /tmp/old.txt → /tmp/moved.txt";
           "  📄 Write file: /tmp/newfile.txt";
           "  📁 Create directory: /tmp/newdir" ] |}.
Proof. vm_compute; reflexivity. Qed.

(** ** Moving what is staged *)





(** ** What [globSync] finds *)

Section GlobFinds.

Variable host : Host.
Variable isMatch : string -> list string -> FsError + bool.

Local Abbreviation forEntries := (forEntries host isMatch).
Local Abbreviation collectAndFilter := (collectAndFilter host isMatch).

Lemma collectAndFilter_incl fuel patterns dirPath matched fs files :
  outcome (collectAndFilter fuel patterns dirPath matched fs) = Return files ->
  incl matched files.
Proof.
  intros H. destruct (collectAndFilter_accepts host isMatch fuel _ _ _ _ _ H)
    as (found & -> & _).
  apply incl_appl, incl_refl.
Qed.

Lemma forEntries_incl recurse patterns fs :
  (forall d matched files,
     outcome (recurse d matched fs) = Return files -> incl matched files) ->
  (forall d matched, after (recurse d matched fs) = fs) ->
  forall entries matched files,
    outcome (forEntries recurse patterns entries matched fs) = Return files ->
    incl matched files.
Proof.
  intros Hrec Hst. induction entries as [|entry more IH]; intros matched files.
  - simpl. unfold ret, outcome. simpl. intros H. inversion H. apply incl_refl.
  - rewrite forEntries_cons.
    destruct (entry_isDirectory entry).
    + specialize (Hrec (entry_path entry) matched).
      specialize (Hst (entry_path entry) matched).
      destruct (recurse _ _ _) as [[matched'|e|] s]; unfold after, outcome in *;
        simpl in *; subst; try discriminate.
      intros H. eapply incl_tran; [apply Hrec; reflexivity|apply (IH _ _ H)].
    + cbv zeta.
      destruct (if Nat.ltb 0 _ then _ else _) as [e|[|]]; [discriminate|apply IH|].
      destruct (isMatch _ patterns) as [e|[|]]; [discriminate| |apply IH].
      intros H. eapply incl_tran; [|apply (IH _ _ H)]. apply incl_appl, incl_refl.
Qed.

(** A run of the loop that returns has taken in every accepted file of the
    listing, and has gone into every directory of it. *)
Lemma forEntries_finds recurse patterns fs :
  (forall d matched files,
     outcome (recurse d matched fs) = Return files -> incl matched files) ->
  (forall d matched, after (recurse d matched fs) = fs) ->
  forall entries matched files,
    outcome (forEntries recurse patterns entries matched fs) = Return files ->
    forall entry, In entry entries ->
      if entry_isDirectory entry then
        exists before found,
          outcome (recurse (entry_path entry) before fs) = Return found
          /\ incl found files
      else
        globAccepts host isMatch fs patterns (entry_path entry) ->
        In (entry_path entry) files.
Proof.
  intros Hrec Hst. induction entries as [|e more IH]; intros matched files Hrun entry Hin;
    [destruct Hin|].
  rewrite forEntries_cons in Hrun.
  destruct (entry_isDirectory e) eqn:Edir.
  - pose proof (Hst (entry_path e) matched) as St.
    destruct (recurse (entry_path e) matched fs) as [[matched'|err|] s] eqn:Erec;
      unfold after, outcome in *; cbn [fst snd] in *; subst; try discriminate.
    destruct Hin as [<-|Hin]; [|now apply (IH _ _ Hrun)].
    rewrite Edir. exists matched, matched'. split.
    + now rewrite Erec.
    + apply (forEntries_incl recurse patterns fs Hrec Hst more _ _ Hrun).
  - cbv zeta in Hrun.
    destruct Hin as [<-|Hin].
    + rewrite Edir. intros [Hmatch Hignored].
      assert (Eig : (if Nat.ltb 0 (List.length (ignoredGlobs fs))
                     then isMatch (path.relative (process_cwd host) (workingDir fs)
                                     (entry_path e)) (ignoredGlobs fs)
                     else inr false) = inr false).
      { destruct Hignored as [E|E]; rewrite E; [reflexivity|].
        destruct (Nat.ltb 0 _); reflexivity. }
      rewrite Eig, Hmatch in Hrun.
      apply (forEntries_incl recurse patterns fs Hrec Hst more _ _ Hrun).
      apply in_or_app. right. simpl. auto.
    + destruct (if Nat.ltb 0 _ then _ else _) as [err|[|]];
        [discriminate|now apply (IH _ _ Hrun)|].
      destruct (isMatch _ patterns) as [err|[|]];
        [discriminate|now apply (IH _ _ Hrun)|now apply (IH _ _ Hrun)].
Qed.

Lemma collectAndFilter_finds fuel patterns fs : forall start matched files,
  outcome (collectAndFilter fuel patterns start matched fs) = Return files ->
  forall dirPath, ReachesFrom host fs start dirPath ->
  forall entries entry,
    outcome (readDirSync host dirPath fs) = Return entries ->
    In entry entries -> entry_isDirectory entry = false ->
    globAccepts host isMatch fs patterns (entry_path entry) ->
    In (entry_path entry) files.
Proof.
  induction fuel as [|fuel IH]; intros start matched files Hrun; [discriminate|].
  rewrite collectAndFilter_step in Hrun.
  pose proof (readDirSync_state host fs start) as St.
  destruct (readDirSync host start fs) as [[listing|e|] s] eqn:Elist;
    unfold after in St; cbn [snd] in St; subst s; try discriminate.
  pose proof (forEntries_finds (collectAndFilter fuel patterns) patterns fs
                (fun d m f => collectAndFilter_incl fuel patterns d m fs f)
                (fun d m => collectAndFilter_state host isMatch fuel patterns d m fs)
                listing matched files Hrun) as Hfinds.
  intros dirPath Hreach entries entry Hentries Hin Hfile Haccepts.
  destruct Hreach as [start|start entries1 e1 dirPath Hlist1 Hin1 Hdir1 Hreach].
  - rewrite Elist in Hentries. unfold outcome in Hentries. cbn [fst] in Hentries.
    inversion Hentries. subst entries.
    specialize (Hfinds entry Hin). rewrite Hfile in Hfinds. now apply Hfinds.
  - rewrite Elist in Hlist1. unfold outcome in Hlist1. cbn [fst] in Hlist1.
    inversion Hlist1. subst entries1.
    specialize (Hfinds e1 Hin1). rewrite Hdir1 in Hfinds.
    destruct Hfinds as (before & found & Hsub & Hincl).
    apply Hincl. now apply (IH _ _ _ Hsub dirPath Hreach entries entry).
Qed.

End GlobFinds.

(** X25.  A search that returns has missed nothing: every file that a
    directory lists which the search comes to from the working directory
    (through the directories listed on the way, staged and real alike) is
    among the paths returned if [micromatch] matches its relative path
    against the patterns and not against the ignored globs. *)
Theorem glob_finds_every_reachable_match host isMatch fuel patterns fs files
  dirPath entries entry :
  outcome (globSync host isMatch fuel patterns fs) = Return files ->
  ReachesFrom host fs (workingDir fs) dirPath ->
  outcome (readDirSync host dirPath fs) = Return entries ->
  In entry entries ->
  entry_isDirectory entry = false ->
  globAccepts host isMatch fs (patternArray patterns) (entry_path entry) ->
  In (entry_path entry) files.
Proof.
  intros Hrun Hreach Hentries Hin Hfile Haccepts.
  unfold globSync, bind, this in Hrun.
  now apply (collectAndFilter_finds host isMatch fuel _ fs _ _ _ Hrun
               dirPath Hreach entries entry).
Qed.

Lemma glob_finds_every_reachable_match_witness :
  let fs := GlobFixture.stagedFs None in
  let files := [ "/tmp/existing-file.txt"; "/tmp/existing-dir/nested-file.txt";
                 "/tmp/file1.txt"; "/tmp/subdir/file3.txt" ] in
  outcome (globSync Fixture.host Micromatch.isMatch 3 (inl "**/*.txt") fs) = Return files
  /\ ReachesFrom Fixture.host fs "/tmp" "/tmp/subdir"
  /\ In "/tmp/subdir/file3.txt" files.
Proof.
  intros fs files.
  assert (Hrun : outcome (globSync Fixture.host Micromatch.isMatch 3 (inl "**/*.txt") fs)
                 = Return files) by (vm_compute; reflexivity).
  assert (Hreach : ReachesFrom Fixture.host fs "/tmp" "/tmp/subdir").
  { apply (@reaches_below Fixture.host fs "/tmp"
             [ {| entry_name := "existing-file.txt"; entry_path := "/tmp/existing-file.txt";
                  entry_isDirectory := false |};
               {| entry_name := "existing-dir"; entry_path := "/tmp/existing-dir";
                  entry_isDirectory := true |};
               {| entry_name := "file1.txt"; entry_path := "/tmp/file1.txt";
                  entry_isDirectory := false |};
               {| entry_name := "file2.js"; entry_path := "/tmp/file2.js";
                  entry_isDirectory := false |};
               {| entry_name := "subdir"; entry_path := "/tmp/subdir";
                  entry_isDirectory := true |} ]
             {| entry_name := "subdir"; entry_path := "/tmp/subdir";
                entry_isDirectory := true |} "/tmp/subdir").
    - vm_compute; reflexivity.
    - simpl. auto 10.
    - reflexivity.
    - apply reaches_start. }
  split; [exact Hrun|]. split; [exact Hreach|].
  apply (glob_finds_every_reachable_match Fixture.host Micromatch.isMatch 3
           (inl "**/*.txt") fs files "/tmp/subdir"
           [ {| entry_name := "file3.txt"; entry_path := "/tmp/subdir/file3.txt";
                entry_isDirectory := false |};
             {| entry_name := "file4.js"; entry_path := "/tmp/subdir/file4.js";
                entry_isDirectory := false |} ]
           {| entry_name := "file3.txt"; entry_path := "/tmp/subdir/file3.txt";
              entry_isDirectory := false |}).
  - exact Hrun.
  - exact Hreach.
  - vm_compute; reflexivity.
  - simpl. auto.
  - reflexivity.
  - split; [vm_compute; reflexivity|left; reflexivity].
Defined.

(** ** The move log *)

Lemma perform_moveOperations host c fs :
  moveOperations (after (perform host c fs)) = moveOperations fs
  \/ (isMove c = true
      /\ exists op, moveOperations (after (perform host c fs))
                    = (moveOperations fs ++ [op])%list).
Proof.
  assert (Hwrite : forall filePath data,
            moveOperations (after (writeBufferSync host filePath data fs))
            = moveOperations fs).
  { intros filePath data.
    destruct (writeBufferSync_after host fs filePath data)
      as [->|(rp & fs2 & _ & (HO & _) & _ & Hend)]; [reflexivity|].
    destruct Hend as [[_ E]|E]; rewrite E; exact HO. }
  destruct c as [dirPath|targetPath|src dest|src dest|filePath content|filePath data];
    cbn [perform isMove].
  - left. destruct (mkdirSync_frame host dirPath fs) as [(HO & _) _]. exact HO.
  - left. destruct (resolvePath_outcome host fs targetPath) as [[rp Hres]|[e [_ Hres]]].
    + now rewrite (rmSync_run host _ _ _ Hres).
    + destruct (rejected_path_throws_everywhere host fs targetPath e Hres)
        as (_ & _ & _ & -> & _). reflexivity.
  - destruct (moveSync host src dest fs) as [o fs'] eqn:Hrun.
    destruct (moveSync_ends host fs src dest o fs' Hrun) as [->| ->]; [|now left].
    right. split; [reflexivity|]. unfold after. cbn [snd].
    rewrite (moveSync_appends_one host fs src dest fs' Hrun). eauto.
  - left. unfold copySync, bind.
    pose proof (readBufferSync_state host fs src) as St.
    destruct (readBufferSync host src fs) as [[content|e|] s]; unfold after in St;
      cbn [snd] in St; subst s; try reflexivity.
    apply Hwrite.
  - left. apply Hwrite.
  - left. apply Hwrite.
Qed.

(** X26.  The move log is only ever appended to, and by [moveSync] alone:
    a call of another method leaves it as it is, a call of [moveSync] adds
    one entry at its end or none, so that after any run of calls the log
    is the log from before followed by at most one entry for each move. *)
Theorem move_log_is_append_only host calls : forall fs,
  exists added,
    moveOperations (performAll host calls fs) = (moveOperations fs ++ added)%list
    /\ List.length added <= List.length (filter isMove calls).
Proof.
  induction calls as [|c calls IH]; intros fs.
  - exists []. split; [now rewrite app_nil_r|auto].
  - cbn [performAll filter].
    destruct (IH (snd (perform host c fs))) as (added & Hlog & Hcount).
    destruct (perform_moveOperations host c fs) as [E|[Hmove [op E]]];
      unfold after in E.
    + exists added. rewrite Hlog, E. split; [reflexivity|].
      destruct (isMove c); simpl; lia.
    + exists (op :: added). rewrite Hlog, E, Hmove, <- app_assoc.
      split; [reflexivity|simpl; lia].
Qed.

(** ** Who changes the deleted paths *)

Lemma set_has_delete_sub s x y :
  JsSet.has (JsSet.delete s x) y = true -> JsSet.has s y = true.
Proof.
  intros H. destruct (JsSet.has s y) eqn:E; [reflexivity|].
  now rewrite (set_has_delete_false s x y E) in H.
Qed.

Lemma moveSync_deleted host fs srcPath destPath :
  deletedOriginalPaths (after (moveSync host srcPath destPath fs))
  = deletedOriginalPaths fs.
Proof.
  destruct (moveSync host srcPath destPath fs) as [o fs'] eqn:Hrun.
  unfold after. cbn [snd].
  destruct (moveSync_ends host fs srcPath destPath o fs' Hrun) as [->| ->];
    [|reflexivity].
  apply moveSync_returns in Hrun.
  destruct Hrun as (paths & _ & _ & _ & _ & _ & ->).
  destruct (bindAll_frame (resolved host fs destPath) paths fs) as (_ & _ & HD & _).
  exact HD.
Qed.

Lemma writeBufferSync_deleted host fs filePath data x :
  JsSet.has (deletedOriginalPaths (after (writeBufferSync host filePath data fs))) x = true ->
  JsSet.has (deletedOriginalPaths fs) x = true.
Proof.
  destruct (writeBufferSync_after host fs filePath data)
    as [->|(rp & fs2 & _ & (_ & _ & HD & _) & _ & Hend)]; [auto|].
  assert (E : deletedOriginalPaths (after (writeBufferSync host filePath data fs))
              = deletedOriginalPaths fs2)
    by (destruct Hend as [[_ E]|E]; rewrite E; reflexivity).
  rewrite E, HD. apply set_has_delete_sub.
Qed.

(** X27.  Of the calls that change the overlay only [rm] adds to the
    deleted paths and only a write ([writeFile], [writeBuffer], [copy])
    takes from them: [mkdir] and [move] leave the set as it is, however
    they end, so that what is removed stays removed when something is moved
    onto it or a directory is made in its place. *)
Theorem only_rm_deletes_and_only_writes_restore host fs c :
  match c with
  | mkdir _ | move _ _ =>
      deletedOriginalPaths (after (perform host c fs)) = deletedOriginalPaths fs
  | rm _ =>
      forall x, JsSet.has (deletedOriginalPaths fs) x = true ->
                JsSet.has (deletedOriginalPaths (after (perform host c fs))) x = true
  | copy _ _ | writeFile _ _ | writeBuffer _ _ =>
      forall x, JsSet.has (deletedOriginalPaths (after (perform host c fs))) x = true ->
                JsSet.has (deletedOriginalPaths fs) x = true
  end.
Proof.
  destruct c as [dirPath|targetPath|src dest|src dest|filePath content|filePath data];
    cbn [perform].
  - destruct (mkdirSync_frame host dirPath fs) as [(_ & _ & HD & _) _]. exact HD.
  - intros x Hx.
    destruct (resolvePath_outcome host fs targetPath) as [[rp Hres]|[e [_ Hres]]].
    + rewrite (rmSync_run host _ _ _ Hres). now apply set_has_add_mono.
    + destruct (rejected_path_throws_everywhere host fs targetPath e Hres)
        as (_ & _ & _ & -> & _). exact Hx.
  - apply moveSync_deleted.
  - intros x. unfold copySync, bind.
    pose proof (readBufferSync_state host fs src) as St.
    destruct (readBufferSync host src fs) as [[content|e|] s]; unfold after in St;
      cbn [snd] in St; subst s; auto.
    apply writeBufferSync_deleted.
  - intros x. apply writeBufferSync_deleted.
  - intros x. apply writeBufferSync_deleted.
Qed.

(** ** The end of the loop of [mkdirSync] *)

Lemma length_join_clean segs :
  forallb cleanSegment segs = true -> List.length segs <= String.length (Js.join segs).
Proof.
  induction segs as [|seg segs IH]; intros H; [simpl; lia|].
  cbn [forallb] in H. apply andb_true_iff in H. destruct H as [Hseg Hsegs].
  assert (Hlen : 1 <= String.length seg).
  { destruct seg; [discriminate|simpl; lia]. }
  specialize (IH Hsegs).
  destruct segs as [|seg' segs]; [simpl; lia|].
  change (Js.join (seg :: seg' :: segs)) with (seg ++ "/" ++ Js.join (seg' :: segs)).
  rewrite !length_append. simpl String.length at 1. simpl List.length in *. lia.
Qed.

Lemma root_outside wd :
  path.isAbsolute wd = true -> wd <> "/" -> Js.startsWith "/" wd = false.
Proof.
  intros Habs Hne. apply isAbsolute_inv in Habs. destruct Habs as (w & ->).
  destruct w as [|c w]; [congruence|].
  unfold Js.startsWith. cbn [String.prefix].
  destruct (ascii_dec "/"%char "/"%char); reflexivity.
Qed.

Lemma mkdirLoop_ends host fuel : forall segs fs,
  forallb cleanSegment segs = true ->
  path.isAbsolute (workingDir fs) = true -> workingDir fs <> "/" ->
  List.length segs < fuel ->
  outcome (mkdirLoop host fuel (absolutePath segs) fs) <> OutOfFuel.
Proof.
  induction fuel as [|fuel IH]; intros segs fs Hsegs Hwd Hroot Hfuel; [lia|].
  rewrite mkdirLoop_step.
  destruct (String.eqb (absolutePath segs) (workingDir fs)); [discriminate|].
  pose proof (resolvePath_absolutePath host fs segs Hsegs) as Hres.
  destruct (Js.startsWith (absolutePath segs) (workingDir fs)) eqn:Ein.
  - assert (Hr : outcome (resolvePath host (absolutePath segs) fs)
                 = Return (absolutePath segs)) by now rewrite Hres.
    rewrite (existsSync_run host _ _ _ Hr).
    assert (Hup : outcome
              (mkdirLoop host fuel (path.dirname (absolutePath segs))
                 (with_stagedPathToContentMap
                    (JsMap.set (stagedPathToContentMap fs) (absolutePath segs)
                       STAGED_FILE_SYSTEM_DIRECTORY_SYMBOL) fs)) <> OutOfFuel).
    { destruct segs as [|seg0 more].
      - change (absolutePath []) with "/" in Ein.
        now rewrite (root_outside _ Hwd Hroot) in Ein.
      - destruct (@exists_last _ (seg0 :: more)) as (front & last & E); [discriminate|].
        rewrite E in *. rewrite forallb_app in Hsegs.
        apply andb_true_iff in Hsegs. destruct Hsegs as [Hfront Hlast].
        simpl in Hlast. rewrite andb_true_r in Hlast.
        rewrite (dirname_absolutePath front last Hfront Hlast).
        apply IH; try assumption.
        rewrite length_app in Hfuel. simpl in Hfuel. lia. }
    destruct (JsSet.has _ _); [exact Hup|].
    destruct (JsMap.has _ _); [discriminate|].
    destruct (RealFileSystem.existsSync _ _ _) as [e|[|]];
      [discriminate|discriminate|exact Hup].
  - rewrite (existsSync_throws host fs _ _ ltac:(now rewrite Hres)). discriminate.
Qed.

Lemma mkdirSync_ends host fs dirPath :
  path.isAbsolute (process_cwd host) = true ->
  path.isAbsolute (workingDir fs) = true -> workingDir fs <> "/" ->
  outcome (mkdirSync host dirPath fs) <> OutOfFuel.
Proof.
  intros Habs Hwd Hroot. unfold mkdirSync, bind. rewrite resolvePath_run.
  destruct (Js.startsWith _ _); [|discriminate].
  unfold resolved.
  destruct (resolve_absolutePath (process_cwd host) [workingDir fs; dirPath] Habs)
    as (segs & Hsegs & ->).
  apply mkdirLoop_ends; try assumption.
  pose proof (length_join_clean segs Hsegs) as Hlen.
  unfold absolutePath. rewrite length_append. simpl String.length at 1. lia.
Qed.

(** X28.  With a working directory that is an absolute path other than
    the root, the loop of [mkdirSync] always ends: the call returns or
    throws, and so does every write, which makes the parents through it.
    (The number of rounds that the model allows the loop is enough.) *)
Theorem mkdir_and_write_always_end host fs :
  path.isAbsolute (process_cwd host) = true ->
  path.isAbsolute (workingDir fs) = true ->
  workingDir fs <> "/" ->
  (forall dirPath, outcome (mkdirSync host dirPath fs) <> OutOfFuel)
  /\ (forall filePath data, outcome (writeBufferSync host filePath data fs) <> OutOfFuel)
  /\ (forall srcPath destPath, outcome (copySync host srcPath destPath fs) <> OutOfFuel).
Proof.
  intros Habs Hwd Hroot.
  assert (Hwrite : forall filePath data,
            outcome (writeBufferSync host filePath data fs) <> OutOfFuel).
  { intros filePath data.
    destruct (resolvePath_outcome host fs filePath) as [[rp Hres]|[e [Hres _]]].
    - rewrite (writeBufferSync_steps host fs filePath data rp Hres).
      set (fs1 := with_deletedOriginalPaths _ fs).
      pose proof (mkdirSync_ends host fs1 (path.dirname filePath) Habs Hwd Hroot) as Hends.
      destruct (outcome (mkdirSync host (path.dirname filePath) fs1)) as [[]|e|];
        [discriminate|discriminate|congruence].
    - rewrite (writeBufferSync_throws host fs filePath data e Hres). discriminate. }
  split; [intros dirPath; now apply mkdirSync_ends|]. split; [exact Hwrite|].
  intros srcPath destPath. unfold copySync, bind.
  pose proof (readBufferSync_state host fs srcPath) as St.
  pose proof (readBufferSync_run host fs srcPath) as Hrun.
  destruct (resolvePath_outcome host fs srcPath) as [[rp Hres]|[e [_ Hres]]].
  - rewrite (Hrun rp Hres).
    destruct (JsMap.get _ rp) as [[content|]|]; try discriminate; try apply Hwrite.
    destruct (Js.startsWith _ _); [|discriminate].
    destruct (RealFileSystem.readBufferSync _ _ _) as [e|content];
      [discriminate|apply Hwrite].
  - destruct (rejected_path_throws_everywhere host fs srcPath e Hres)
      as (_ & Hread & _). rewrite Hread. discriminate.
Qed.

Lemma mkdir_and_write_always_end_witness :
  outcome (mkdirSync Fixture.host "/tmp/a/b/c/d/e/f" Fixture.stagedFs) <> OutOfFuel
  /\ outcome (mkdirSync Fixture.host "/tmp/a/b/c/d/e/f" Fixture.stagedFs) = Return tt
  /\ outcome (writeBufferSync Sibling.host "/workother/a/b.txt" (utf8 "b") Sibling.stagedFs)
     = Throw (PlainError "Cannot resolve path outside of working directory: /")
  /\ outcome (writeBufferSync Sibling.host "/workother/a/b.txt" (utf8 "b") Sibling.stagedFs)
     <> OutOfFuel.
Proof.
  destruct (mkdir_and_write_always_end Fixture.host Fixture.stagedFs)
    as (Hmkdir & _ & _).
  - vm_compute; reflexivity.
  - vm_compute; reflexivity.
  - intros E. vm_compute in E. discriminate E.
  - destruct (mkdir_and_write_always_end Sibling.host Sibling.stagedFs)
      as (_ & Hwrite & _).
    + vm_compute; reflexivity.
    + vm_compute; reflexivity.
    + intros E. vm_compute in E. discriminate E.
    + split; [apply Hmkdir|]. split; [vm_compute; reflexivity|].
      split; [vm_compute; reflexivity|apply Hwrite].
Defined.

(** ** What a removal leaves alone *)

(** X29.  [rm(p)] is a matter of one path: for every other path [q]
    (another resolved path, standing for another original path), also one
    below [p], [existsSync] and [readBufferSync] answer after the removal
    as they did before. *)
Theorem rm_leaves_other_paths_alone host fs p rp q rq :
  outcome (resolvePath host p fs) = Return rp ->
  outcome (resolvePath host q fs) = Return rq ->
  rq <> rp ->
  originalPathOf fs rq <> originalPathOf fs rp ->
  let fs' := after (rmSync host p fs) in
  outcome (existsSync host q fs') = outcome (existsSync host q fs)
  /\ outcome (readBufferSync host q fs') = outcome (readBufferSync host q fs).
Proof.
  intros Hp Hq Hne Horig fs'. unfold fs'. rewrite (rmSync_run host _ _ _ Hp).
  unfold after. cbn [snd]. set (fs1 := with_deletedOriginalPaths _ _).
  assert (Hq1 : outcome (resolvePath host q fs1) = Return rq)
    by (apply (resolvePath_keeps host fs); auto).
  assert (Hget : JsMap.get (stagedPathToContentMap fs1) rq
                 = JsMap.get (stagedPathToContentMap fs) rq)
    by (apply get_delete_other; congruence).
  split.
  - rewrite (existsSync_run host _ _ _ Hq1), (existsSync_run host _ _ _ Hq).
    unfold JsMap.has. rewrite Hget.
    change (originalPathOf fs1 rq) with (originalPathOf fs rq).
    change (workingDir fs1) with (workingDir fs).
    assert (Hdel : JsSet.has (deletedOriginalPaths fs1) (originalPathOf fs rq)
                   = JsSet.has (deletedOriginalPaths fs) (originalPathOf fs rq))
      by (apply set_has_add_other; congruence).
    now rewrite Hdel.
  - rewrite (readBufferSync_run host _ _ _ Hq1), (readBufferSync_run host _ _ _ Hq).
    now rewrite Hget.
Qed.

Lemma rm_leaves_other_paths_alone_witness :
  let fs' := after (rmSync Fixture.host "/tmp/existing-dir" Fixture.stagedFs) in
  outcome (existsSync Fixture.host "/tmp/existing-dir" fs') = Return false
  /\ outcome (existsSync Fixture.host "/tmp/existing-dir/nested-file.txt" fs') = Return true
  /\ outcome (readBufferSync Fixture.host "/tmp/existing-file.txt" fs')
     = Return (utf8 "existing content").
Proof.
  intros fs'. split; [vm_compute; reflexivity|].
  destruct (rm_leaves_other_paths_alone Fixture.host Fixture.stagedFs
              "/tmp/existing-dir" "/tmp/existing-dir"
              "/tmp/existing-dir/nested-file.txt" "/tmp/existing-dir/nested-file.txt")
    as [Hexists _].
  - vm_compute; reflexivity.
  - vm_compute; reflexivity.
  - intros E. vm_compute in E. discriminate E.
  - intros E. vm_compute in E. discriminate E.
  - destruct (rm_leaves_other_paths_alone Fixture.host Fixture.stagedFs
                "/tmp/existing-dir" "/tmp/existing-dir"
                "/tmp/existing-file.txt" "/tmp/existing-file.txt") as [_ Hread].
    + vm_compute; reflexivity.
    + vm_compute; reflexivity.
    + intros E. vm_compute in E. discriminate E.
    + intros E. vm_compute in E. discriminate E.
    + split.
      * fold fs' in Hexists. rewrite Hexists. vm_compute; reflexivity.
      * fold fs' in Hread. rewrite Hread. vm_compute; reflexivity.
Defined.
